(** * A shallow embedding of the mongo-repo-utils middleware

    The embedded program is the CommonJS module of the repository (the
    caching and reliability layer in front of Mongoose): the TTL normaliser,
    the stable serialiser and cache-key builder, the write-argument parser,
    the read-through cache wrapper, the invalidation engine, the transaction
    retry wrapper and the exported operations built from them.

    Conventions of the embedding.
    - JavaScript strings are [string]s whose characters are code units
      below 256.
    - JavaScript numbers are the integers they denote ([VNum]), with [VNaN]
      and the two infinities apart; fractional numbers are outside the model.
      Where the program computes a number from a text or by a product, the
      result is rounded as a double is ([to_double]).  A number is written
      with all its digits: the numbers JavaScript writes with an exponent
      (from [10^21] on) are outside the model.
    - A value is written as the tree of what it refers to.  An array or
      object node may carry the address of the object it stands for: two
      nodes with one address are two references to one object, and a node
      without address is an object nothing else refers to (a literal).
    - [async] functions are run to completion in program order; a rejected
      promise is a thrown exception. *)

From Stdlib Require Import ZArith NArith List String Ascii Bool Lia.
From Stdlib Require Import DecimalString Permutation.
Import ListNotations.

Local Open Scope string_scope.
Local Open Scope Z_scope.

Set Implicit Arguments.
Set Warnings "-register-all".

(* ================================================================== *)
(** ** Strings *)

Module Str.

Definition code (c : ascii) : N := N_of_ascii c.

(** [WhiteSpace] and [LineTerminator] code units below 256, the ones
    [String.prototype.trim] strips. *)
Definition is_space (c : ascii) : bool :=
  let n := code c in
  ((9 <=? n) && (n <=? 13) || (n =? 32) || (n =? 160))%N.

Definition is_digit (c : ascii) : bool :=
  let n := code c in ((48 <=? n) && (n <=? 57))%N.

Definition is_letter (c : ascii) : bool :=
  let n := code c in
  ((65 <=? n) && (n <=? 90) || (97 <=? n) && (n <=? 122))%N.

Definition lower_char (c : ascii) : ascii :=
  let n := code c in
  if ((65 <=? n) && (n <=? 90)
      || (192 <=? n) && (n <=? 222) && negb (n =? 215))%N
  then ascii_of_N (n + 32) else c.

Fixpoint toLowerCase (s : string) : string :=
  match s with
  | EmptyString => EmptyString
  | String c r => String (lower_char c) (toLowerCase r)
  end.

Fixpoint trimStart (s : string) : string :=
  match s with
  | String c r => if is_space c then trimStart r else s
  | EmptyString => EmptyString
  end.

(** Drops the trailing white space: a character is kept when something
    that is kept follows it, or when it is not white space itself. *)
Fixpoint trimEnd (s : string) : string :=
  match s with
  | EmptyString => EmptyString
  | String c r =>
      match trimEnd r with
      | EmptyString => if is_space c then EmptyString else String c EmptyString
      | r' => String c r'
      end
  end.

Definition trim (s : string) : string := trimEnd (trimStart s).

Fixpoint all (p : ascii -> bool) (s : string) : bool :=
  match s with
  | EmptyString => true
  | String c r => p c && all p r
  end.

(** The longest prefix of characters satisfying [p], and what follows. *)
Fixpoint span (p : ascii -> bool) (s : string) : string * string :=
  match s with
  | String c r =>
      if p c then let (a, b) := span p r in (String c a, b)
      else (EmptyString, s)
  | EmptyString => (EmptyString, EmptyString)
  end.

Fixpoint last (s : string) : option ascii :=
  match s with
  | EmptyString => None
  | String c EmptyString => Some c
  | String _ r => last r
  end.

Definition endsWith (s : string) (c : ascii) : bool :=
  match last s with
  | Some d => Ascii.eqb c d
  | None => false
  end.

Definition startsWith (s p : string) : bool := String.prefix p s.

(** The value of a string of decimal digits; [parseInt(ds, 10)] is the
    Number nearest to it. *)
Fixpoint digits_value (acc : Z) (s : string) : Z :=
  match s with
  | EmptyString => acc
  | String c r => digits_value (10 * acc + (Z.of_N (code c) - 48)) r
  end.

Definition parseInt10 (s : string) : Z := digits_value 0 s.

(** [s.repeat(n)]. *)
Fixpoint repeat (s : string) (n : nat) : string :=
  match n with
  | O => EmptyString
  | S k => s ++ repeat s k
  end.

(** Decimal rendering of an integer, as [Number.prototype.toString]. *)
Definition of_Z (z : Z) : string := NilZero.string_of_int (Z.to_int z).

End Str.

(* ================================================================== *)
(** ** Values *)

Definition addr := N.

Inductive value : Type :=
| VUndef
| VNull
| VBool (b : bool)
| VNum (n : Z)
| VNaN
| VInf (negative : bool)
| VStr (s : string)
| VBigInt (z : Z)
| VSym (descr : string)
| VFun (name : string)
| VThrower (err : string)
    (* an object whose [toJSON] method throws [new Error(err)] *)
| VArr (a : option addr) (elems : list value)
| VObj (a : option addr) (cls : string) (props : list (string * value)).
    (* [cls] is [constructor.name]; a property list holds every own
       enumerable property once, in the engine's enumeration order *)

(** An object or array literal. *)
Definition obj (props : list (string * value)) : value := VObj None "Object" props.
Definition arr (elems : list value) : value := VArr None elems.

(** What a [throw] carries. *)
Inductive exn : Type :=
| JsError (msg : string)          (* new Error(msg) *)
| Raised (v : value).             (* anything else a callback threw *)

Inductive jstype := TUndefined | TObject | TBoolean | TNumber | TString
                  | TBigint | TSymbol | TFunction.

Definition typeof (v : value) : jstype :=
  match v with
  | VUndef => TUndefined
  | VNull | VThrower _ | VArr _ _ | VObj _ _ _ => TObject
  | VBool _ => TBoolean
  | VNum _ | VNaN | VInf _ => TNumber
  | VStr _ => TString
  | VBigInt _ => TBigint
  | VSym _ => TSymbol
  | VFun _ => TFunction
  end.

Definition jstype_eqb (a b : jstype) : bool :=
  match a, b with
  | TUndefined, TUndefined | TObject, TObject | TBoolean, TBoolean
  | TNumber, TNumber | TString, TString | TBigint, TBigint
  | TSymbol, TSymbol | TFunction, TFunction => true
  | _, _ => false
  end.

(** [ToBoolean]. *)
Definition truthy (v : value) : bool :=
  match v with
  | VUndef | VNull | VNaN => false
  | VBool b => b
  | VNum n => negb (n =? 0)
  | VStr s => negb (String.eqb s EmptyString)
  | VBigInt z => negb (z =? 0)
  | _ => true
  end.

Definition isArray (v : value) : bool :=
  match v with VArr _ _ => true | _ => false end.

Definition nullish (v : value) : bool :=
  match v with VUndef | VNull => true | _ => false end.

Fixpoint assoc {A : Type} (k : string) (l : list (string * A)) : option A :=
  match l with
  | [] => None
  | (k', v) :: r => if String.eqb k k' then Some v else assoc k r
  end.

(** [k in v] for an object [v], own properties only. *)
Definition has_prop (k : string) (v : value) : bool :=
  match v with
  | VObj _ _ props => match assoc k props with Some _ => true | None => false end
  | _ => false
  end.

(** [v.k] (or [v?.k]): [undefined] when the property is absent. *)
Definition get_prop (v : value) (k : string) : value :=
  match v with
  | VObj _ _ props => match assoc k props with Some x => x | None => VUndef end
  | _ => VUndef
  end.

(* ================================================================== *)
(** ** TTL normaliser *)

Definition DEFAULT_TTL : Z := 60000.

(** A number literal of the program, where a value is expected, also
    inside a pair or a list. *)
Coercion VNum : Z >-> value.
Arguments pair {A B} & a b.
Arguments cons {A} & a l.

(** The Number nearest to a non-negative integer, ties to the even
    significand.  Integers up to [2^53] are Numbers; above, a Number is a
    53-bit significand times a power of two, and what rounds to [2^1024] or
    beyond is [Infinity]. *)
Definition to_double (z : Z) : value :=
  if z <=? 9007199254740992 then VNum z
  else
    let e := Z.log2 z - 52 in
    let q := Z.shiftr z e in
    let r := z - Z.shiftl q e in
    let half := Z.shiftl 1 (e - 1) in
    let q' := if r <? half then q
              else if half <? r then q + 1
              else if Z.even q then q else q + 1 in
    let d := Z.shiftl q' e in
    if Z.shiftl 1 1024 <=? d then VInf false else VNum d.

(** [value * multiplier], the multiplier a positive integer. *)
Definition mul_double (a : value) (multiplier : Z) : value :=
  match a with
  | VNum n => to_double (n * multiplier)
  | other => other
  end.

(** [s.match(/^(\d+)(ms|s|m|h|d)?$/)]: the two capture groups, the second
    one [None] when the unit is left out. *)
Definition ttl_match (s : string) : option (string * option string) :=
  let (ds, rest) := Str.span Str.is_digit s in
  if String.eqb ds EmptyString then None
  else if String.eqb rest EmptyString then Some (ds, None)
  else if String.eqb rest "ms" || String.eqb rest "s" || String.eqb rest "m"
          || String.eqb rest "h" || String.eqb rest "d"
       then Some (ds, Some rest)
  else None.

(** [normalizeTTL(ttl)].  [parseInt(m[1], 10)] is the Number nearest to the
    value of the digits, and the product with the unit is rounded again. *)
Definition normalizeTTL (ttl : value) : value :=
  match ttl with
  | VNum n => if n <? 0 then 0 else n
  | VStr t =>
      let s := Str.toLowerCase (Str.trim t) in
      match ttl_match s with
      | Some (m1, m2) =>
          let value := to_double (Str.parseInt10 m1) in
          let unit := match m2 with Some u => u | None => "ms" end in
          if String.eqb unit "ms" then value
          else if String.eqb unit "s" then mul_double value 1000
          else if String.eqb unit "m" then mul_double value 60000
          else if String.eqb unit "h" then mul_double value 3600000
          else if String.eqb unit "d" then mul_double value 86400000
          else DEFAULT_TTL
      | None => DEFAULT_TTL
      end
  | _ => DEFAULT_TTL
  end.

(* ================================================================== *)
(** ** Result envelope

    The contract [{ status, data }] of the type declarations
    ([ApiResponse<T>]): [ok d] is [{ status: true, data: d }] and
    [failure e] is [{ status: false, data: e }]. *)

Inductive ApiResponse (T : Type) : Type :=
| ok (data : T)
| failure (err : exn).

Arguments ok {T} data.
Arguments failure {T} err.

Definition status {T : Type} (r : ApiResponse T) : bool :=
  match r with ok _ => true | failure _ => false end.

(* ================================================================== *)
(** ** Hash (djb2 xor) *)

(** [ToInt32]: what the operands of [^] are converted to. *)
Definition to_int32 (x : Z) : Z := (x + 2147483648) mod 4294967296 - 2147483648.

(** [x >>> 0]. *)
Definition to_uint32 (x : Z) : Z := x mod 4294967296.

Definition base36_digit (d : Z) : ascii :=
  if d <? 10 then ascii_of_N (Z.to_N (48 + d)) else ascii_of_N (Z.to_N (87 + d)).

Fixpoint base36_aux (fuel : nat) (n : Z) (acc : string) : string :=
  match fuel with
  | O => acc
  | S f =>
      let acc' := String (base36_digit (n mod 36)) acc in
      if n / 36 =? 0 then acc' else base36_aux f (n / 36) acc'
  end.

(** [n.toString(36)] for [0 <= n < 2^32] (at most seven digits). *)
Definition toString36 (n : Z) : string := base36_aux 7 n EmptyString.

Fixpoint hash_loop (h : Z) (str : string) : Z :=
  match str with
  | EmptyString => h
  | String c r => hash_loop (Z.lxor (to_int32 (h * 33)) (Z.of_N (Str.code c))) r
  end.

Definition hash (str : string) : string :=
  toString36 (to_uint32 (hash_loop 5381 str)).

(* ================================================================== *)
(** ** Stable serialiser *)

Definition dquote : ascii := ascii_of_N 34.
Definition backslash : ascii := ascii_of_N 92.

Definition hex_digit (d : N) : ascii :=
  if (d <? 10)%N then ascii_of_N (48 + d) else ascii_of_N (87 + d).

(** [QuoteJSONString], one code unit. *)
Definition quote_char (c : ascii) : string :=
  let n := Str.code c in
  if (n =? 34)%N then String backslash (String dquote EmptyString)
  else if (n =? 92)%N then String backslash (String backslash EmptyString)
  else if (n =? 8)%N then String backslash "b"
  else if (n =? 9)%N then String backslash "t"
  else if (n =? 10)%N then String backslash "n"
  else if (n =? 12)%N then String backslash "f"
  else if (n =? 13)%N then String backslash "r"
  else if (n <? 32)%N then
    String backslash
      ("u00" ++ String (hex_digit (n / 16)) (String (hex_digit (n mod 16)) EmptyString))
  else String c EmptyString.

Fixpoint quote_body (s : string) : string :=
  match s with
  | EmptyString => EmptyString
  | String c r => quote_char c ++ quote_body r
  end.

Definition quote (s : string) : string :=
  String dquote (quote_body s ++ String dquote EmptyString).

(** [Array.prototype.sort()] on strings: ascending code units. *)
Fixpoint insert_key {A : Type} (kv : string * A) (l : list (string * A)) :=
  match l with
  | [] => [kv]
  | kv' :: r =>
      if String.leb (fst kv) (fst kv') then kv :: l else kv' :: insert_key kv r
  end.

Fixpoint sort_keys {A : Type} (l : list (string * A)) : list (string * A) :=
  match l with
  | [] => []
  | kv :: r => insert_key kv (sort_keys r)
  end.

(** An array index: the canonical decimal form of an integer below
    [2^32 - 1].  Such keys are enumerated first, in numeric order. *)
Definition array_index (k : string) : option Z :=
  match k with
  | EmptyString => None
  | String c r =>
      if Str.all Str.is_digit k
         && (negb (Ascii.eqb c "0"%char) || String.eqb r EmptyString)
      then let n := Str.parseInt10 k in
           if n <=? 4294967294 then Some n else None
      else None
  end.

Fixpoint insert_index {A : Type} (n : Z) (kv : string * A)
  (l : list (Z * (string * A))) : list (Z * (string * A)) :=
  match l with
  | [] => [(n, kv)]
  | x :: r => if n <=? fst x then (n, kv) :: l else x :: insert_index n kv r
  end.

Fixpoint index_part {A : Type} (l : list (string * A)) : list (Z * (string * A)) :=
  match l with
  | [] => []
  | kv :: r =>
      match array_index (fst kv) with
      | Some n => insert_index n kv (index_part r)
      | None => index_part r
      end
  end.

Definition is_index (k : string) : bool :=
  match array_index k with Some _ => true | None => false end.

(** [OrdinaryOwnPropertyKeys]: array indices ascending, then the other
    keys in the order of their creation. *)
Definition own_property_order {A : Type} (l : list (string * A)) : list (string * A) :=
  List.app (map snd (index_part l))
           (filter (fun kv => negb (is_index (fst kv))) l).

(** [o[k] = x]: an existing property keeps its place. *)
Fixpoint set_prop {A : Type} (k : string) (x : A) (o : list (string * A)) :=
  match o with
  | [] => [(k, x)]
  | (k', y) :: r => if String.eqb k k' then (k, x) :: r else (k', y) :: set_prop k x r
  end.

(** [for (const k of names) sorted[k] = val[k]], from the object [sorted]. *)
Definition assign_all {A : Type} (names : list (string * A)) (sorted : list (string * A)) :=
  fold_left (fun o kv => set_prop (fst kv) (snd kv) o) names sorted.

(** The state of one [JSON.stringify] run: the [seen] set. *)
Definition ser_m : Type := list addr -> exn + (option string * list addr).

Definition seen_has (a : option addr) (seen : list addr) : bool :=
  match a with
  | Some x => existsb (N.eqb x) seen
  | None => false
  end.

Definition seen_add (a : option addr) (seen : list addr) : list addr :=
  match a with
  | Some x => x :: seen
  | None => seen
  end.

Definition ser_const (s : string) : ser_m := fun seen => inr (Some s, seen).

(** [SerializeJSONArray]: an element without a rendering is [null]. *)
Fixpoint ser_elems (cs : list ser_m) (seen : list addr) : exn + (list string * list addr) :=
  match cs with
  | [] => inr ([], seen)
  | c :: r =>
      match c seen with
      | inl e => inl e
      | inr (o, seen1) =>
          match ser_elems r seen1 with
          | inl e => inl e
          | inr (l, seen2) =>
              inr ((match o with Some s => s | None => "null" end) :: l, seen2)
          end
      end
  end.

(** [SerializeJSONObject]: a member without a rendering is left out. *)
Fixpoint ser_members (cs : list (string * ser_m)) (seen : list addr)
  : exn + (list string * list addr) :=
  match cs with
  | [] => inr ([], seen)
  | (k, c) :: r =>
      match c seen with
      | inl e => inl e
      | inr (o, seen1) =>
          match ser_members r seen1 with
          | inl e => inl e
          | inr (l, seen2) =>
              inr (List.app (match o with
                             | Some s => [quote k ++ ":" ++ s]
                             | None => []
                             end) l, seen2)
          end
      end
  end.

Definition ser_array (cs : list ser_m) : ser_m := fun seen =>
  match ser_elems cs seen with
  | inl e => inl e
  | inr (l, seen') => inr (Some ("[" ++ String.concat "," l ++ "]"), seen')
  end.

Definition ser_object (cs : list (string * ser_m)) : ser_m := fun seen =>
  match ser_members cs seen with
  | inl e => inl e
  | inr (l, seen') => inr (Some ("{" ++ String.concat "," l ++ "}"), seen')
  end.

Definition cycle_token : string := "__cycle__".

(** The object [sorted] the replacer returns for an object of class [cls]
    with the given own properties. *)
Definition sorted_object {A : Type} (cls : string) (marker : A)
  (props : list (string * A)) : list (string * A) :=
  own_property_order
    (assign_all (sort_keys props)
       (if String.eqb cls "Object" then [] else [("__type", marker)])).

(** One property of the value under [JSON.stringify(value, replacer)]:
    [toJSON] first, then the replacer of [stableStringify], then the
    rendering of what the replacer returned.  An object is one with data
    properties only, and goes through the branch of the replacer for class
    instances or the one for plain objects: the contents of a [Date], a
    [Set] or a [Map], and properties read through a getter, are not part of
    the values of the model. *)
Fixpoint ser (v : value) : ser_m :=
  match v with
  | VUndef => fun seen => inr (None, seen)
  | VNull => ser_const "null"
  | VBool b => ser_const (if b then "true" else "false")
  | VNum n => ser_const (Str.of_Z n)
  | VNaN | VInf _ => ser_const "null"
  | VStr s => ser_const (quote s)
  | VBigInt z => ser_const (quote (Str.of_Z z ++ "n"))
  | VSym d => ser_const (quote ("Symbol(" ++ d ++ ")"))
  | VFun name =>
      ser_const (quote ("[Function:"
                        ++ (if String.eqb name EmptyString then "anonymous" else name)
                        ++ "]"))
  | VThrower err => fun _ => inl (JsError err)
  | VArr a elems => fun seen =>
      if seen_has a seen then inr (Some (quote cycle_token), seen)
      else ser_array (map ser elems) (seen_add a seen)
  | VObj a cls props => fun seen =>
      if seen_has a seen then inr (Some (quote cycle_token), seen)
      else
        ser_object
          (sorted_object cls (ser_const (quote cls))
             (map (fun kv => match kv with (k, x) => (k, ser x) end) props))
          (seen_add a seen)
  end.

(** [stableStringify(value)]: [data] is [None] when [JSON.stringify]
    yields [undefined]. *)
Definition stableStringify (v : value) : ApiResponse (option string) :=
  match ser v [] with
  | inr (str, _) => ok str
  | inl err => failure err
  end.

(** [stableStringify(rest)] for the array [rest] that [buildCacheKey]
    has just allocated: no other reference to it exists. *)
Definition stableStringify_fresh (rest : list value) : ApiResponse (option string) :=
  match ser_array (map ser rest) [] with
  | inr (str, _) => ok str
  | inl err => failure err
  end.

(** [buildCacheKey(fnName, args)], called with an array literal [args]. *)
Definition buildCacheKey (fnName : string) (args : list value) : ApiResponse string :=
  match args with
  | VStr model :: rest =>
      match stableStringify_fresh rest with
      | failure err => failure err
      | ok strRes =>
          let argsKey := hash (match strRes with Some s => s | None => EmptyString end) in
          ok (fnName ++ ":" ++ model ++ ":" ++ argsKey)
      end
  | _ => failure (JsError "Invalid args: first argument must be a model name (string)")
  end.

(** Deep equality of two values, the relation the specification calls
    deeply-equal: same primitives, arrays equal element by element, objects
    of one class with the same keys and deeply-equal values, in whatever
    order the keys were inserted and whatever the addresses. *)
Fixpoint deep_equal (v w : value) {struct v} : bool :=
  match v, w with
  | VUndef, VUndef | VNull, VNull | VNaN, VNaN => true
  | VBool a, VBool b => Bool.eqb a b
  | VNum a, VNum b => a =? b
  | VInf a, VInf b => Bool.eqb a b
  | VStr a, VStr b => String.eqb a b
  | VBigInt a, VBigInt b => a =? b
  | VSym a, VSym b => String.eqb a b
  | VFun a, VFun b => String.eqb a b
  | VThrower a, VThrower b => String.eqb a b
  | VArr _ xs, VArr _ ys =>
      (fix go (xs : list value) (ys : list value) : bool :=
         match xs, ys with
         | [], [] => true
         | x :: xs', y :: ys' => deep_equal x y && go xs' ys'
         | _, _ => false
         end) xs ys
  | VObj _ c ps, VObj _ d qs =>
      String.eqb c d
      && Nat.eqb (List.length ps) (List.length qs)
      && (fix go (ps : list (string * value)) : bool :=
            match ps with
            | [] => true
            | (k, x) :: ps' =>
                match assoc k qs with
                | Some y => deep_equal x y && go ps'
                | None => false
                end
            end) ps
  | _, _ => false
  end.

(* ================================================================== *)
(** ** Write-argument parser *)

Record WriteArg : Type := mkWriteArg {
  options : value;
  invalidateKeys : value;
  invalidatePrefixes : value
}.

Definition _parseWriteArg (arg : value) : WriteArg :=
  if negb (truthy arg) then mkWriteArg VUndef VUndef VUndef
  else if jstype_eqb (typeof arg) TString || isArray arg then
    mkWriteArg VUndef arg VUndef
  else if jstype_eqb (typeof arg) TObject then
    let invalidateKeys :=
      if has_prop "invalidateKeys" arg then get_prop arg "invalidateKeys" else VUndef in
    let invalidatePrefixes :=
      if has_prop "invalidatePrefixes" arg then get_prop arg "invalidatePrefixes" else VUndef in
    let options :=
      if has_prop "options" arg && jstype_eqb (typeof (get_prop arg "options")) TObject
      then get_prop arg "options"
      else if has_prop "session" arg || has_prop "upsert" arg
              || has_prop "writeConcern" arg || has_prop "runValidators" arg
      then arg
      else VUndef in
    mkWriteArg options invalidateKeys invalidatePrefixes
  else mkWriteArg VUndef VUndef VUndef.

(** The own enumerable properties an object spread [...v] copies. *)
Fixpoint indexed {A : Type} (i : Z) (l : list A) : list (string * A) :=
  match l with
  | [] => []
  | x :: r => (Str.of_Z i, x) :: indexed (i + 1) r
  end.

Fixpoint chars (s : string) : list value :=
  match s with
  | EmptyString => []
  | String c r => VStr (String c EmptyString) :: chars r
  end.

Definition own_enumerable (v : value) : list (string * value) :=
  match v with
  | VObj _ _ props => props
  | VArr _ elems => indexed 0 elems
  | VStr s => indexed 0 (chars s)
  | _ => []
  end.

(** [{ ...o, ...v }] where [o] holds the properties written so far. *)
Definition spread (o : list (string * value)) (v : value) : list (string * value) :=
  fold_left (fun o kv => set_prop (fst kv) (snd kv) o) (own_enumerable v) o.

(** [o.k] on an object literal. *)
Definition lit_prop (o : list (string * value)) (k : string) : value :=
  match assoc k o with Some x => x | None => VUndef end.

(* ================================================================== *)
(** ** Conversions used by the cache layer *)

(** [String(v)].  The text of a function is the engine's; its name stands
    for it here. *)
Fixpoint js_String (v : value) : string :=
  match v with
  | VUndef => "undefined"
  | VNull => "null"
  | VBool b => if b then "true" else "false"
  | VNum n => Str.of_Z n
  | VNaN => "NaN"
  | VInf neg => if neg then "-Infinity" else "Infinity"
  | VStr s => s
  | VBigInt z => Str.of_Z z
  | VSym d => "Symbol(" ++ d ++ ")"
  | VFun name => "function " ++ name ++ "() { [native code] }"
  | VThrower _ => "[object Object]"
  | VArr _ elems =>
      String.concat ","
        (map (fun x => if nullish x then EmptyString else js_String x) elems)
  | VObj _ _ _ => "[object Object]"
  end.

(** A symbol, or an array that holds one: what [ToString] cannot convert
    (an array is converted through [join]). *)
Fixpoint holds_symbol (v : value) : bool :=
  match v with
  | VSym _ => true
  | VArr _ elems => existsb holds_symbol elems
  | _ => false
  end.

(** The exception of an operand of [-] or [*] whose other operand is a
    number, if it has one: a symbol cannot be converted and a BigInt cannot
    be mixed with a number. *)
Definition operand_error (v : value) : option exn :=
  match v with
  | VSym _ => Some (JsError "Cannot convert a Symbol value to a number")
  | VBigInt _ =>
      Some (JsError "Cannot mix BigInt and other types, use explicit conversions")
  | _ =>
      if holds_symbol v
      then Some (JsError "Cannot convert a Symbol value to a string")
      else None
  end.

(** The exception of [(page - 1) * limit], if it has one. *)
Definition skip_error (page limit : value) : option exn :=
  match operand_error page with
  | Some e => Some e
  | None => operand_error limit
  end.

(** [SameValueZero], the equality of [Set] and [Map]: objects by address. *)
Definition same_value (v w : value) : bool :=
  match v, w with
  | VUndef, VUndef | VNull, VNull | VNaN, VNaN => true
  | VBool a, VBool b => Bool.eqb a b
  | VNum a, VNum b => a =? b
  | VInf a, VInf b => Bool.eqb a b
  | VStr a, VStr b => String.eqb a b
  | VBigInt a, VBigInt b => a =? b
  | VSym a, VSym b => String.eqb a b
  | VFun a, VFun b => String.eqb a b
  | VThrower a, VThrower b => String.eqb a b
  | VArr (Some a) _, VArr (Some b) _ => N.eqb a b
  | VObj (Some a) _ _, VObj (Some b) _ _ => N.eqb a b
  | _, _ => false
  end.

(** [new Set(l)]: the first occurrence of every element, in order. *)
Fixpoint dedupe (l : list value) : list value :=
  match l with
  | [] => []
  | x :: r => x :: filter (fun y => negb (same_value x y)) (dedupe r)
  end.

(* ================================================================== *)
(** ** Effects

    A computation of the layer reads and writes the module state, may throw,
    and leaves a trace of the calls it made to its collaborators. *)

Inductive outcome (A : Type) : Type :=
| Ret (a : A)
| Throw (e : exn).

Arguments Ret {A} a.
Arguments Throw {A} e.

(** What the cache adapter hands back for a key.  The adapter is taken to
    return what [withCache] stored with it, an envelope, or nothing;
    [withCache] returns a hit to its caller as it is. *)
Definition cached : Type := ApiResponse value.

Definition cache_store : Type := list (value * (cached * value)).

(** The injected cache interface [{ get, put, del, keys }], synchronous;
    every method may throw. *)
Record CacheInterface : Type := mkCache {
  cache_get : cache_store -> value -> outcome (option cached);
  cache_put : cache_store -> value -> cached -> value -> outcome cache_store;
  cache_del : cache_store -> value -> outcome cache_store;
  cache_keys : cache_store -> outcome (list value)
}.

Definition noopCache : CacheInterface :=
  mkCache (fun _ _ => Ret None) (fun st _ _ _ => Ret st)
          (fun st _ => Ret st) (fun _ => Ret []).

Module Metrics.

Record CacheCounters : Type := mkCounters {
  hits : Z; misses : Z; puts : Z; invalidations : Z
}.

Record Bucket : Type := mkBucket {
  count : Z; totalMs : Z;
  minMs : option Z;            (* [None] is [Infinity] *)
  maxMs : Z
}.

Record t : Type := mk {
  cache : CacheCounters;
  perOp : list (string * Bucket)     (* [db.perOp] *)
}.

Definition zero : t := mk (mkCounters 0 0 0 0) [].

End Metrics.

Record TxnOptions : Type := mkTxn {
  readConcern : value;
  writeConcern : value;
  readPreference : value;
  maxCommitRetries : option Z        (* [None]: left out *)
}.

(** The object [txnOptions] handed to [session.withTransaction]; [None]
    is a property that was not set. *)
Record SessionOptions : Type := mkSessionOptions {
  so_readConcern_level : option value;
  so_writeConcern : option value;
  so_readPreference : option value
}.

(** The calls made on a Mongoose model. *)
Inductive store_op : Type :=
| Create (payload options : value)
| InsertMany (docs : list value) (opts : list (string * value))
| FindOne (filter select populate : value)
| Find (filter select sort : value) (limit : option value) (populate : value)
| FindPage (filter select sort : value) (page limit : value) (populate : value)
    (* [find(filter, select).sort(sort).skip((page - 1) * limit).limit(limit)] *)
| CountDocuments (filter : value)
| Aggregate (pipeline : value)
| UpdateOne (filter data : value) (opts : list (string * value))
| UpdateOneRaw (filter data options : value)
| UpdateMany (filter data options : value)
| FindOneAndUpdate (filter data : value) (opts : list (string * value))
| DeleteOne (filter options : value)
| DeleteMany (filter options : value).

Inductive event : Type :=
| EvLog (err : exn) (ctx : string)
| EvProducer
| EvCacheGet (k : value)
| EvCachePut (k : value) (v : cached) (ttlMs : value)
| EvCacheDel (k : value)
| EvCacheKeys
| EvStartSession
| EvTransaction (at_ms : Z) (txnOptions : SessionOptions)
| EvEndSession
| EvRequire (path : string)
| EvStore (model : string) (op : store_op)
| EvCallback (inner : list event).
    (* what a function passed in by the caller did while it ran *)

(** The function injected with [setLogger]: called with an error and the
    context it arose in, it returns, or it throws. *)
Class Logger : Type := {
  logger_call : exn -> string -> outcome unit
}.

(** The collaborators outside the module: Mongoose, the file system, the
    clock. *)
Class Platform : Type := {
  Ext : Type;
  Session : Type;
  MongooseModel : Type;
  date_now : Ext -> Z;                                   (* Date.now() *)
  mongoose_models : Ext -> string -> option MongooseModel;
  model_name : MongooseModel -> string;
  js_require : string -> Ext -> outcome (option MongooseModel) * Ext;
      (* [Some m]: the export itself is a model *)
  env_MODELS_DIR : option string;
  getAppRoot : string;
  path_join : string -> string -> string -> string;
  has_findOneAndUpdate : MongooseModel -> bool;
  db_call : MongooseModel -> store_op -> Ext -> outcome value * Ext;
  doc_toObject : value -> outcome value;
      (* [doc.toObject()] on what the store handed back: the plain object
         of a document, an exception on a value without that method *)
  startSession : Ext -> outcome Session * Ext;
  endSession : Session -> Ext -> outcome unit * Ext
}.

Section Layer.

Context {P : Platform}.

(** The module-level state: [cache], [logger], [METRICS], [MODELS_DIR]. *)
Record World : Type := mkWorld {
  ext : Ext;
  cache : CacheInterface;
  cstore : cache_store;            (* what the adapter holds *)
  logger_set : bool;               (* [logger !== noopLogger] *)
  METRICS : Metrics.t;
  MODELS_DIR : option string
}.

Definition M (A : Type) : Type := World -> outcome A * World * list event.

Definition ret {A} (a : A) : M A := fun w => (Ret a, w, []).

Definition throw {A} (e : exn) : M A := fun w => (Throw e, w, []).

(** An expression evaluated for the exception it may throw. *)
Definition raise (e : option exn) : M unit := fun w =>
  match e with
  | Some e => (Throw e, w, [])
  | None => (Ret tt, w, [])
  end.

Definition bind {A B} (m : M A) (f : A -> M B) : M B := fun w =>
  match m w with
  | (Ret a, w1, t1) =>
      match f a w1 with (r, w2, t2) => (r, w2, List.app t1 t2) end
  | (Throw e, w1, t1) => (Throw e, w1, t1)
  end.

(** [try { m } catch (err) { h err }]. *)
Definition try_catch {A} (m : M A) (h : exn -> M A) : M A := fun w =>
  match m w with
  | (Ret a, w1, t1) => (Ret a, w1, t1)
  | (Throw e, w1, t1) =>
      match h e w1 with (r, w2, t2) => (r, w2, List.app t1 t2) end
  end.

(** [try { m } finally { fin }]: [fin] runs on every outcome, and its own
    exception replaces the outcome of [m]. *)
Definition try_finally {A} (m : M A) (fin : M unit) : M A := fun w =>
  match m w with
  | (r, w1, t1) =>
      match fin w1 with
      | (Ret _, w2, t2) => (r, w2, List.app t1 t2)
      | (Throw e, w2, t2) => (Throw e, w2, List.app t1 t2)
      end
  end.

Definition emit (e : event) : M unit := fun w => (Ret tt, w, [e]).

Definition get_world : M World := fun w => (Ret w, w, []).

Definition put_world (w : World) : M unit := fun _ => (Ret tt, w, []).

(** A call into a collaborator. *)
Definition call_ext {A} (f : Ext -> outcome A * Ext) : M A := fun w =>
  match f (ext w) with
  | (r, e') => (r, mkWorld e' (cache w) (cstore w) (logger_set w) (METRICS w) (MODELS_DIR w), [])
  end.

(** A call of a function the caller passed in.  It may do whatever code of
    the host program can do to the module state; what it did is kept apart
    in the trace. *)
Definition callback (A : Type) : Type := M A.

Definition call_back {A} (f : callback A) : M A := fun w =>
  match f w with (r, w', t) => (r, w', [EvCallback t]) end.

End Layer.

Declare Scope layer_scope.
Delimit Scope layer_scope with layer.
Notation "x <- m ;; k" := (bind m (fun x => k))
  (at level 100, m at next level, right associativity) : layer_scope.
Notation "m ;;; k" := (bind m (fun _ => k))
  (at level 100, right associativity) : layer_scope.

(** An argument that should be a function. *)
Inductive callable (F : Type) : Type :=
| Fn (f : F)
| NotFn (v : value).

Arguments Fn {F} f.
Arguments NotFn {F} v.

Local Open Scope layer_scope.

Section Operations.

Context {P : Platform} {L : Logger}.

Definition set_ext (e : Ext) (w : World) : World :=
  mkWorld e (cache w) (cstore w) (logger_set w) (METRICS w) (MODELS_DIR w).

Definition set_cache (c : CacheInterface) (st : cache_store) (w : World) : World :=
  mkWorld (ext w) c st (logger_set w) (METRICS w) (MODELS_DIR w).

Definition set_cstore (st : cache_store) (w : World) : World :=
  mkWorld (ext w) (cache w) st (logger_set w) (METRICS w) (MODELS_DIR w).

Definition set_logger (b : bool) (w : World) : World :=
  mkWorld (ext w) (cache w) (cstore w) b (METRICS w) (MODELS_DIR w).

Definition set_METRICS (m : Metrics.t) (w : World) : World :=
  mkWorld (ext w) (cache w) (cstore w) (logger_set w) m (MODELS_DIR w).

Definition set_MODELS_DIR (d : option string) (w : World) : World :=
  mkWorld (ext w) (cache w) (cstore w) (logger_set w) (METRICS w) d.

Definition modify (f : World -> World) : M unit := fun w => (Ret tt, f w, []).

(** [fail(err, ctx)]: the logger is called, then the envelope is built.
    The call is not guarded: what the logger throws, [fail] throws.  The
    no-op logger does nothing. *)
Definition fail {T} (err : exn) (ctx : string) : M (ApiResponse T) :=
  w <- get_world ;;
  (if logger_set w
   then (emit (EvLog err ctx) ;;;
         match logger_call err ctx with
         | Ret _ => ret tt
         | Throw e => throw e
         end)
   else ret tt) ;;;
  ret (failure err).

(* ---------------------------------------------------------------- *)
(** *** Configuration and metrics *)

Record Message : Type := mkMessage { message : string }.

Definition setModelsDir (dir : value) : M (ApiResponse Message) :=
  match dir with
  | VStr d =>
      modify (set_MODELS_DIR (Some d)) ;;;
      ret (ok (mkMessage "Models directory set"))
  | _ => fail (JsError "Directory must be a string") "setModelsDir"
  end.

Definition nonempty (o : option string) : option string :=
  match o with
  | Some s => if String.eqb s EmptyString then None else Some s
  | None => None
  end.

Definition getModelsDir : M string :=
  w <- get_world ;;
  match nonempty (MODELS_DIR w) with
  | Some d => ret d
  | None =>
      match nonempty env_MODELS_DIR with
      | Some d => ret d
      | None => ret "./models"
      end
  end.

(** [setLogger(_logger)]; the argument is a function or it is not. *)
Definition setLogger (is_function : bool) : M (ApiResponse Message) :=
  modify (set_logger is_function) ;;;
  ret (ok (mkMessage "Logger set")).

(** [setCache(_cache)]: [Some] is an object with the four methods, given
    with what it holds. *)
Definition setCache (_cache : option (CacheInterface * cache_store))
  : M (ApiResponse Message) :=
  match _cache with
  | Some (c, st) =>
      modify (set_cache c st) ;;;
      ret (ok (mkMessage "Cache interface set successfully"))
  | None =>
      modify (fun w => set_cache noopCache (cstore w) w) ;;;
      fail (JsError "Invalid cache interface: must have get, put, del, and keys methods")
           "setCache"
  end.

Definition _nowMs : M Z := w <- get_world ;; ret (date_now (ext w)).

(** The clock of [_nowNs], in nanoseconds.  One clock of the platform,
    read in milliseconds, stands for [process.hrtime.bigint()] and for the
    fallback on [Date.now()]: a duration is a whole number of milliseconds
    on either. *)
Definition _nowNs : M Z := ms <- _nowMs ;; ret (ms * 1000000).

Definition record_bucket (durMs : Z) (b : Metrics.Bucket) : Metrics.Bucket :=
  Metrics.mkBucket
    (Metrics.count b + 1)
    (Metrics.totalMs b + durMs)
    (match Metrics.minMs b with
     | None => Some durMs
     | Some m => if durMs <? m then Some durMs else Some m
     end)
    (if durMs >? Metrics.maxMs b then durMs else Metrics.maxMs b).

Definition empty_bucket : Metrics.Bucket := Metrics.mkBucket 0 0 None 0.

Definition _recordDb (opName : string) (startNs : Z) : M unit :=
  if startNs =? 0 then ret tt
  else
    endNs <- _nowNs ;;
    let durMs := Z.quot (endNs - startNs) 1000000 in
    modify (fun w =>
      let m := METRICS w in
      let b := match assoc opName (Metrics.perOp m) with
               | Some b => b
               | None => empty_bucket
               end in
      set_METRICS
        (Metrics.mk (Metrics.cache m)
           (set_prop opName (record_bucket durMs b) (Metrics.perOp m))) w).

Definition getMetrics : M (ApiResponse Metrics.t) :=
  w <- get_world ;; ret (ok (METRICS w)).

Definition resetMetrics : M (ApiResponse Message) :=
  modify (set_METRICS Metrics.zero) ;;;
  ret (ok (mkMessage "Metrics reset")).

(* ---------------------------------------------------------------- *)
(** *** Model resolution *)

Definition pluralizeName (model : string) : string :=
  if Str.endsWith model "s"%char
     || negb (match Str.last model with
              | Some c => Str.is_letter c
              | None => false
              end)
  then model
  else model ++ "s".

Definition not_found_message (name candidatePath : string) : string :=
  let q := String dquote EmptyString in
  "Mongoose model " ++ q ++ name ++ q
  ++ " not found (expected registered as mongoose.models[" ++ q ++ name ++ q
  ++ "] or exported by " ++ candidatePath ++ ")".

Definition resolveModel (model : value) : M MongooseModel :=
  match model with
  | VStr m =>
      let name := pluralizeName m in
      w <- get_world ;;
      match mongoose_models (ext w) name with
      | Some found => ret found
      | None =>
          (match nonempty (MODELS_DIR w) with
           | Some _ => ret tt
           | None => d <- getModelsDir ;; _ <- setModelsDir (VStr d) ;; ret tt
           end) ;;;
          w1 <- get_world ;;
          let candidatePath :=
            path_join getAppRoot
              (match MODELS_DIR w1 with Some d => d | None => EmptyString end) name in
          emit (EvRequire candidatePath) ;;;
          exported <- call_ext (js_require candidatePath) ;;
          w2 <- get_world ;;
          match mongoose_models (ext w2) name with
          | Some found => ret found
          | None =>
              match exported with
              | Some m' => ret m'
              | None => throw (JsError (not_found_message name candidatePath))
              end
          end
      end
  | _ => throw (JsError "resolveModel: model must be a string")
  end.

(* ---------------------------------------------------------------- *)
(** *** Cache wrapper *)

(** The adapter methods, called on the injected object. *)
Definition adapter_get (k : value) : M (option cached) :=
  emit (EvCacheGet k) ;;;
  w <- get_world ;;
  match cache_get (cache w) (cstore w) k with
  | Ret h => ret h
  | Throw e => throw e
  end.

Definition adapter_put (k : value) (v : cached) (ttlMs : value) : M unit :=
  emit (EvCachePut k v ttlMs) ;;;
  w <- get_world ;;
  match cache_put (cache w) (cstore w) k v ttlMs with
  | Ret st => modify (set_cstore st)
  | Throw e => throw e
  end.

Definition adapter_del (k : value) : M unit :=
  emit (EvCacheDel k) ;;;
  w <- get_world ;;
  match cache_del (cache w) (cstore w) k with
  | Ret st => modify (set_cstore st)
  | Throw e => throw e
  end.

Definition adapter_keys : M (list value) :=
  emit EvCacheKeys ;;;
  w <- get_world ;;
  match cache_keys (cache w) (cstore w) with
  | Ret l => ret l
  | Throw e => throw e
  end.

(** What a producer hands back: an envelope of the layer, or any value. *)
Inductive produced : Type :=
| Enveloped (r : ApiResponse value)
| Bare (v : value).

(** [res && typeof res.status === "boolean" ? res : ok(res)]. *)
Definition normalize (res : produced) : ApiResponse value :=
  match res with
  | Enveloped r => r
  | Bare v =>
      match get_prop v "status" with
      | VBool true => ok (get_prop v "data")
      | VBool false => failure (Raised (get_prop v "data"))
      | _ => ok v
      end
  end.

Record CacheOptions : Type := mkCacheOptions {
  enabled : value;                            (* [VUndef]: left out *)
  key : value;
  ttl : value;
  cacheIf : option (ApiResponse value -> bool)
}.

Definition run_producer (runFn : callback produced) : M produced :=
  emit EvProducer ;;; call_back runFn.

(** [withCache(fnName, args, cacheOpts, runFn)]; [cacheOpts] is [None]
    when the argument is falsy. *)
Definition withCache (fnName : string) (args : list value)
  (cacheOpts : option CacheOptions) (runFn : callback produced)
  : M (ApiResponse value) :=
  let opts := match cacheOpts with
              | Some o => o
              | None => mkCacheOptions VUndef VUndef VUndef None
              end in
  let enabled := match enabled opts with VUndef => VBool true | e => e end in
  let key := key opts in
  let ttl := match ttl opts with VUndef => VNum DEFAULT_TTL | t => t end in
  let cacheIf := match cacheIf opts with
                 | Some f => f
                 | None => fun r => status r
                 end in
  let normalizedTTL := normalizeTTL ttl in
  if negb (truthy enabled) then
    res <- run_producer runFn ;; ret (normalize res)
  else
    (* k = key ?? buildCacheKey(fnName, args): [k.status === false], [k.data] *)
    let k_status_false :=
      if nullish key
      then negb (status (buildCacheKey fnName args))
      else match get_prop key "status" with VBool false => true | _ => false end in
    let k_data :=
      if nullish key
      then match buildCacheKey fnName args with
           | ok d => VStr d
           | failure _ => VUndef
           end
      else get_prop key "data" in
    if k_status_false then
      res <- run_producer runFn ;; ret (normalize res)
    else
      let cacheKey := k_data in
      hit <- adapter_get cacheKey ;;
      match hit with
      | Some h => ret h
      | None =>
          res <- run_producer runFn ;;
          let normalized := normalize res in
          (if cacheIf normalized
           then adapter_put cacheKey normalized normalizedTTL
           else ret tt) ;;;
          ret normalized
      end.

(* ---------------------------------------------------------------- *)
(** *** Transactions *)

(** The callback of [withTransaction], run by the driver's
    [session.withTransaction], whose commit is part of it. *)
Definition work_fn : Type := Session -> callback value.

(** The first argument of [withTransaction]: the work itself, or an object
    [{ work, txOptions }]. *)
Inductive WorkOrObj : Type :=
| Positional (work : callable work_fn)
| Named (work : callable work_fn) (txOptions : option TxnOptions).

Definition maxAttempts : Z := 10.
Definition maxDurationMs : Z := 30000.

Definition retry_limit_message : string :=
  "Transaction retry limit exceeded: max attempts (10) or duration (30000ms) reached".

(** One attempt, the body of the inner [try]: the driver runs the work in
    a transaction of the session, and the timing is recorded. *)
Definition tx_attempt (work : work_fn) (session : Session)
  (txnOptions : SessionOptions) (start now : Z) : M value :=
  emit (EvTransaction now txnOptions) ;;;
  result <- call_back (work session) ;;
  _recordDb "withTransaction" start ;;;
  ret result.

(** The [while (true)] loop.  [fuel] bounds the iterations left; the
    attempt counter is the one of the source. *)
Fixpoint tx_loop (fuel : nat) (work : work_fn) (session : Session)
  (txnOptions : SessionOptions) (maxCommitRetries : Z)
  (startTime start : Z) (attempt : Z) : M value :=
  now <- _nowMs ;;
  if (attempt >=? maxAttempts) || (now - startTime >? maxDurationMs)
  then throw (JsError retry_limit_message)
  else
    try_catch
      (tx_attempt work session txnOptions start now)
      (fun err =>
         if attempt <? maxCommitRetries then
           match fuel with
           | S fuel' =>
               tx_loop fuel' work session txnOptions maxCommitRetries
                       startTime start (attempt + 1)
           | O => throw (JsError "unreachable")
           end
         else throw err).

Definition truthy_opt (v : value) : option value :=
  if truthy v then Some v else None.

(** [work] and [resolvedTxOptions]: from the object form
    ([workOrObj.work], [workOrObj.txOptions ?? txOptions]) or from the
    positional arguments. *)
Definition work_of (workOrObj : WorkOrObj) : callable work_fn :=
  match workOrObj with
  | Named work _ => work
  | Positional work => work
  end.

Definition resolved_options (workOrObj : WorkOrObj) (txOptions : option TxnOptions)
  : TxnOptions :=
  match (match workOrObj with
         | Named _ (Some o) => Some o
         | Named _ None => txOptions
         | Positional _ => txOptions
         end) with
  | Some o => o
  | None => mkTxn VUndef VUndef VUndef None
  end.

(** [maxCommitRetries = 0] when left out. *)
Definition retries_of (o : TxnOptions) : Z :=
  match maxCommitRetries o with Some n => n | None => 0 end.

Definition session_options (o : TxnOptions) : SessionOptions :=
  mkSessionOptions (truthy_opt (readConcern o)) (truthy_opt (writeConcern o))
                   (truthy_opt (readPreference o)).

Definition withTransaction (workOrObj : WorkOrObj) (txOptions : option TxnOptions)
  : M (ApiResponse value) :=
  match work_of workOrObj with
  | NotFn _ => throw (JsError "withTransaction: work must be a function")
  | Fn work =>
      let o := resolved_options workOrObj txOptions in
      emit EvStartSession ;;;
      session <- call_ext startSession ;;
      let maxCommitRetries := retries_of o in
      let txnOptions := session_options o in
      startTime <- _nowMs ;;
      try_finally
        (try_catch
           (start <- _nowNs ;;
            result <- tx_loop 10 work session txnOptions maxCommitRetries
                              startTime start 0 ;;
            ret (ok result))
           (fun err => fail err "withTransaction"))
        (emit EvEndSession ;;; call_ext (endSession session))
  end.

(* ---------------------------------------------------------------- *)
(** *** Invalidation *)

Record Invalidated : Type := mkInvalidated { invalidated : Z }.

(** [Array.isArray(x) ? x : [x]]. *)
Definition as_list (x : value) : list value :=
  match x with
  | VArr _ l => l
  | _ => [x]
  end.

(** [try { cache.del(k); count++ } catch (_) {}]. *)
Definition del_and_count (k : value) (count : Z) : M Z :=
  try_catch (adapter_del k ;;; ret (count + 1)) (fun _ => ret count).

Fixpoint del_each (ks : list value) (count : Z) : M Z :=
  match ks with
  | [] => ret count
  | k :: r => c <- del_and_count k count ;; del_each r c
  end.

(** [String(key).startsWith(p)]; a symbol cannot be converted. *)
Definition starts_with (key p : value) : M bool :=
  match p with
  | VSym _ => throw (JsError "Cannot convert a Symbol value to a string")
  | _ => ret (Str.startsWith (js_String key) (js_String p))
  end.

Fixpoint del_matching (p : value) (all : list value) (count : Z) : M Z :=
  match all with
  | [] => ret count
  | key :: r =>
      b <- starts_with key p ;;
      c <- (if b then del_and_count key count else ret count) ;;
      del_matching p r c
  end.

Fixpoint del_prefixes (ps : list value) (all : list value) (count : Z) : M Z :=
  match ps with
  | [] => ret count
  | p :: r => c <- del_matching p all count ;; del_prefixes r all c
  end.

(** [keys] and [prefixes] as the input gives them: a string or an array is
    a list of keys, an object may carry [keys] and [prefixes]. *)
Definition input_keys (input : value) : list value :=
  if jstype_eqb (typeof input) TString || isArray input then as_list input
  else if jstype_eqb (typeof input) TObject then
    if truthy (get_prop input "keys") then as_list (get_prop input "keys") else []
  else [].

Definition input_prefixes (input : value) : list value :=
  if jstype_eqb (typeof input) TString || isArray input then []
  else if jstype_eqb (typeof input) TObject then
    if truthy (get_prop input "prefixes")
    then as_list (get_prop input "prefixes") else []
  else [].

(** [METRICS.cache.invalidations += count]. *)
Definition add_invalidations (count : Z) (m : Metrics.t) : Metrics.t :=
  let c := Metrics.cache m in
  Metrics.mk
    (Metrics.mkCounters (Metrics.hits c) (Metrics.misses c) (Metrics.puts c)
                        (Metrics.invalidations c + count))
    (Metrics.perOp m).

Definition invalidateCache (input : value) : M (ApiResponse Invalidated) :=
  try_catch
    (if negb (truthy input) then ret (ok (mkInvalidated 0))
     else
       let keys := input_keys input in
       let prefixes := input_prefixes input in
       count <- del_each (dedupe (filter truthy keys)) 0 ;;
       count <- (match prefixes with
                 | [] => ret count
                 | _ :: _ =>
                     all <- adapter_keys ;;
                     del_prefixes (filter truthy prefixes) all count
                 end) ;;
       modify (fun w => set_METRICS (add_invalidations count (METRICS w)) w) ;;;
       ret (ok (mkInvalidated count)))
    (fun err => fail err "invalidateCache").

(* ---------------------------------------------------------------- *)
(** *** Exported operations *)

(** [typeof v === "object" && v !== null]. *)
Definition is_object_arg (v : value) : bool :=
  jstype_eqb (typeof v) TObject && negb (nullish v).

(** [a ?? b]. *)
Definition or_else (a b : value) : value := if nullish a then b else a.

(** A parameter with a default value. *)
Definition default_param (v d : value) : value :=
  match v with VUndef => d | _ => v end.

(** [modelOrObj.k ?? k] in the object form, the positional [k] otherwise. *)
Definition pick (modelOrObj : value) (k : string) (positional : value) : value :=
  if is_object_arg modelOrObj then or_else (get_prop modelOrObj k) positional
  else positional.

Definition pick_model (modelOrObj : value) : value :=
  if is_object_arg modelOrObj then get_prop modelOrObj "model" else modelOrObj.

(** [modelOrObj.cacheOpts ?? cacheOpts]; [named] is what the property
    holds in the object form, when it is not nullish. *)
Definition pick_cacheOpts (modelOrObj : value) (named cacheOpts : option CacheOptions)
  : option CacheOptions :=
  if is_object_arg modelOrObj
  then match named with Some o => Some o | None => cacheOpts end
  else cacheOpts.

(** [resolvedCacheOpts?.enabled]. *)
Definition cache_enabled (o : option CacheOptions) : bool :=
  match o with Some c => truthy (enabled c) | None => false end.

Definition invalid_model (model : value) : bool :=
  negb (truthy model) || negb (jstype_eqb (typeof model) TString).

Definition not_an_object (v : value) : bool :=
  negb (truthy v) || negb (jstype_eqb (typeof v) TObject).

Definition model_required : exn :=
  JsError "Model name is required and must be a string".

Definition store (Model : MongooseModel) (op : store_op) : M value :=
  emit (EvStore (model_name Model) op) ;;; call_ext (db_call Model op).

(** [if (invalidateKeys || invalidatePrefixes) invalidateCache({ keys, prefixes })]. *)
Definition invalidate_hints (parsed : WriteArg) : M unit :=
  if truthy (invalidateKeys parsed) || truthy (invalidatePrefixes parsed)
  then _ <- invalidateCache
              (obj [("keys", invalidateKeys parsed);
                    ("prefixes", invalidatePrefixes parsed)]) ;;
       ret tt
  else ret tt.

(** [doc.toObject()]. *)
Definition toObject (doc : value) : M value :=
  match doc_toObject doc with
  | Ret plain => ret plain
  | Throw e => throw e
  end.

Fixpoint toObjects (docs : list value) : M (list value) :=
  match docs with
  | [] => ret []
  | doc :: r => plain <- toObject doc ;; rest <- toObjects r ;; ret (plain :: rest)
  end.

(** [res.map((doc) => doc.toObject())]: [res] is the array [insertMany]
    resolved with; on anything else the call of [map] throws. *)
Definition map_toObject (res : value) : M value :=
  match res with
  | VArr _ docs => plain <- toObjects docs ;; ret (arr plain)
  | VUndef =>
      throw (JsError "Cannot read properties of undefined (reading 'map')")
  | VNull => throw (JsError "Cannot read properties of null (reading 'map')")
  | _ => throw (JsError "res.map is not a function")
  end.

Definition createOne (modelOrObj payload writeArg : value) : M (ApiResponse value) :=
  try_catch
    (let model := pick_model modelOrObj in
     let resolvedPayload := pick modelOrObj "payload" payload in
     let resolvedWriteArg := pick modelOrObj "writeArg" writeArg in
     if nullish modelOrObj then
       fail (JsError "First argument must be a model name (string) or options object")
            "createOne/validation"
     else if invalid_model model then fail model_required "createOne/validation"
     else if not_an_object resolvedPayload then
       fail (JsError "Payload is required and must be an object") "createOne/validation"
     else
       Model <- resolveModel model ;;
       let opName := "createOne:" ++ js_String model in
       start <- _nowNs ;;
       let parsed := _parseWriteArg resolvedWriteArg in
       doc <- store Model (Create resolvedPayload (options parsed)) ;;
       invalidate_hints parsed ;;;
       _recordDb opName start ;;;
       plain <- toObject doc ;;
       ret (ok plain))
    (fun err => fail err "createOne").

(** [{ ordered = true, ...rest } = options || {}], then [{ ordered, ...rest }]. *)
Definition insert_options (options : value) : list (string * value) :=
  let o := if truthy options then options else obj [] in
  ("ordered", default_param (get_prop o "ordered") (VBool true))
  :: filter (fun kv => negb (String.eqb (fst kv) "ordered")) (own_enumerable o).

Definition createMany (modelOrObj docs writeArg : value) : M (ApiResponse value) :=
  try_catch
    (let model := pick_model modelOrObj in
     let resolvedDocs := pick modelOrObj "docs" docs in
     let resolvedWriteArg := pick modelOrObj "writeArg" writeArg in
     if nullish modelOrObj then
       fail (JsError "First argument must be a model name (string) or options object")
            "createMany/validation"
     else if invalid_model model then fail model_required "createMany/validation"
     else if negb (truthy resolvedDocs) then
       fail (JsError "Docs are required (array or single object)") "createMany/validation"
     else
       Model <- resolveModel model ;;
       let opName := "createMany:" ++ js_String model in
       start <- _nowNs ;;
       let parsed := _parseWriteArg resolvedWriteArg in
       let docsToInsert := as_list resolvedDocs in
       res <- store Model (InsertMany docsToInsert (insert_options (options parsed))) ;;
       invalidate_hints parsed ;;;
       _recordDb opName start ;;;
       plain <- map_toObject res ;;
       ret (ok plain))
    (fun err => fail err "createMany").

(** A read: the query runs through [withCache] when caching is asked for. *)
Definition cached_read (fnName : string) (args : list value)
  (resolvedCacheOpts : option CacheOptions) (runQuery : M (ApiResponse value))
  : M (ApiResponse value) :=
  if cache_enabled resolvedCacheOpts then
    withCache fnName args resolvedCacheOpts (r <- runQuery ;; ret (Enveloped r))
  else runQuery.

Definition run_query (Model : MongooseModel) (op : store_op) (opName : string)
  (start : Z) : M (ApiResponse value) :=
  res <- store Model op ;;
  _recordDb opName start ;;;
  ret (ok res).

Definition getOne (modelOrObj filter select populate : value)
  (named_cacheOpts cacheOpts : option CacheOptions) : M (ApiResponse value) :=
  try_catch
    (let model := pick_model modelOrObj in
     let resolvedFilter := pick modelOrObj "filter" filter in
     let resolvedSelect := pick modelOrObj "select" select in
     let resolvedPopulate := pick modelOrObj "populate" populate in
     let resolvedCacheOpts := pick_cacheOpts modelOrObj named_cacheOpts cacheOpts in
     if invalid_model model then fail model_required "getOne/validation"
     else if not_an_object resolvedFilter then
       fail (JsError "Filter is required and must be an object") "getOne/validation"
     else
       Model <- resolveModel model ;;
       let opName := "getOne:" ++ js_String model in
       start <- _nowNs ;;
       cached_read "getOne" [model; resolvedFilter; resolvedSelect; resolvedPopulate]
         resolvedCacheOpts
         (run_query Model (FindOne resolvedFilter resolvedSelect resolvedPopulate)
                    opName start))
    (fun err => fail err "getOne").

Definition getMany (modelOrObj filter select sort populate : value)
  (named_cacheOpts cacheOpts : option CacheOptions) : M (ApiResponse value) :=
  try_catch
    (let select := default_param select (arr []) in
     let sort := default_param sort (obj []) in
     let model := pick_model modelOrObj in
     let resolvedFilter := pick modelOrObj "filter" filter in
     let resolvedSelect := pick modelOrObj "select" select in
     let resolvedSort := pick modelOrObj "sort" sort in
     let resolvedPopulate := pick modelOrObj "populate" populate in
     let resolvedCacheOpts := pick_cacheOpts modelOrObj named_cacheOpts cacheOpts in
     if invalid_model model then fail model_required "getMany/validation"
     else
       Model <- resolveModel model ;;
       let opName := "getMany:" ++ js_String model in
       start <- _nowNs ;;
       cached_read "getMany"
         [model; resolvedFilter; resolvedSelect; resolvedSort; resolvedPopulate]
         resolvedCacheOpts
         (run_query Model
            (Find resolvedFilter resolvedSelect resolvedSort None resolvedPopulate)
            opName start))
    (fun err => fail err "getMany").

(** [resolvedLimit && typeof resolvedLimit === "number" && resolvedLimit > 0]. *)
Definition usable_limit (limit : value) : option value :=
  match limit with
  | VNum n => if n >? 0 then Some limit else None
  | VInf false => Some limit
  | _ => None
  end.

Definition getManyWithLimit (modelOrObj filter select sort limit populate : value)
  (named_cacheOpts cacheOpts : option CacheOptions) : M (ApiResponse value) :=
  try_catch
    (let select := default_param select (arr []) in
     let sort := default_param sort (obj []) in
     let model := pick_model modelOrObj in
     let resolvedFilter := pick modelOrObj "filter" filter in
     let resolvedSelect := pick modelOrObj "select" select in
     let resolvedSort := pick modelOrObj "sort" sort in
     let resolvedLimit := pick modelOrObj "limit" limit in
     let resolvedPopulate := pick modelOrObj "populate" populate in
     let resolvedCacheOpts := pick_cacheOpts modelOrObj named_cacheOpts cacheOpts in
     if invalid_model model then fail model_required "getMany/validation"
     else
       Model <- resolveModel model ;;
       let opName := "getManyWithLimit:" ++ js_String model in
       start <- _nowNs ;;
       cached_read "getManyWithLimit"
         [model; resolvedFilter; resolvedSelect; resolvedSort; resolvedLimit;
          resolvedPopulate]
         resolvedCacheOpts
         (run_query Model
            (Find resolvedFilter resolvedSelect resolvedSort
                  (usable_limit resolvedLimit) resolvedPopulate)
            opName start))
    (fun err => fail err "getManyWithLimit").

Definition getManyWithPagination
  (modelOrObj filter select sort page limit populate : value)
  (named_cacheOpts cacheOpts : option CacheOptions) : M (ApiResponse value) :=
  try_catch
    (let select := default_param select (arr []) in
     let sort := default_param sort (obj []) in
     let page := default_param page (VNum 1) in
     let limit := default_param limit (VNum 100) in
     let model := pick_model modelOrObj in
     let resolvedFilter := pick modelOrObj "filter" filter in
     let resolvedSelect := or_else (pick modelOrObj "select" select) (arr []) in
     let resolvedSort := or_else (pick modelOrObj "sort" sort) (obj []) in
     let resolvedPage := or_else (pick modelOrObj "page" page) (VNum 1) in
     let resolvedLimit := or_else (pick modelOrObj "limit" limit) (VNum 100) in
     let resolvedPopulate := pick modelOrObj "populate" populate in
     let resolvedCacheOpts := pick_cacheOpts modelOrObj named_cacheOpts cacheOpts in
     Model <- resolveModel model ;;
     let opName := "getManyWithPagination:" ++ js_String model in
     start <- _nowNs ;;
     cached_read "getManyWithPagination"
       [model; resolvedFilter; resolvedSelect; resolvedSort; resolvedPage;
        resolvedLimit; resolvedPopulate]
       resolvedCacheOpts
       (total <- store Model (CountDocuments resolvedFilter) ;;
        raise (skip_error resolvedPage resolvedLimit) ;;;
        docs <- store Model
                  (FindPage resolvedFilter resolvedSelect resolvedSort
                            resolvedPage resolvedLimit resolvedPopulate) ;;
        _recordDb opName start ;;;
        ret (ok (obj [("data", docs); ("total", total);
                      ("page", resolvedPage); ("limit", resolvedLimit)]))))
    (fun err => fail err "getManyWithPagination").

Definition aggregate (modelOrObj pipeline : value)
  (named_cacheOpts cacheOpts : option CacheOptions) : M (ApiResponse value) :=
  try_catch
    (let model := pick_model modelOrObj in
     let resolvedPipeline := pick modelOrObj "pipeline" pipeline in
     let resolvedCacheOpts := pick_cacheOpts modelOrObj named_cacheOpts cacheOpts in
     if invalid_model model then fail model_required "aggregate/validation"
     else if negb (truthy resolvedPipeline) || negb (isArray resolvedPipeline) then
       fail (JsError "Pipeline is required and must be an array of stages")
            "aggregate/validation"
     else
       Model <- resolveModel model ;;
       let opName := "aggregate:" ++ js_String model in
       start <- _nowNs ;;
       cached_read "aggregate" [model; resolvedPipeline] resolvedCacheOpts
         (run_query Model (Aggregate resolvedPipeline) opName start))
    (fun err => fail err "aggregate").

Definition updateOne (modelOrObj filter data writeArg : value) : M (ApiResponse value) :=
  try_catch
    (let model := pick_model modelOrObj in
     let resolvedFilter := pick modelOrObj "filter" filter in
     let resolvedData := pick modelOrObj "data" data in
     let resolvedWriteArg := pick modelOrObj "writeArg" writeArg in
     if invalid_model model then fail model_required "updateOne/validation"
     else if not_an_object resolvedFilter then
       fail (JsError "Filter is required and must be an object") "updateOne/validation"
     else if not_an_object resolvedData then
       fail (JsError "Data is required and must be an object") "updateOne/validation"
     else
       Model <- resolveModel model ;;
       let opName := "updateOne:" ++ js_String model in
       start <- _nowNs ;;
       let parsed := _parseWriteArg resolvedWriteArg in
       res <- store Model (UpdateOneRaw resolvedFilter resolvedData (options parsed)) ;;
       invalidate_hints parsed ;;;
       _recordDb opName start ;;;
       ret (ok res))
    (fun err => fail err "updateOne").

(** The writes without validation of their own: [updateMany], [deleteOne],
    [deleteMany] differ in the call they make and in their name. *)
Definition plain_write (name : string) (modelOrObj : value)
  (resolvedWriteArg : value) (op : value -> store_op) : M (ApiResponse value) :=
  try_catch
    (let model := pick_model modelOrObj in
     Model <- resolveModel model ;;
     let opName := name ++ ":" ++ js_String model in
     start <- _nowNs ;;
     let parsed := _parseWriteArg resolvedWriteArg in
     res <- store Model (op (options parsed)) ;;
     invalidate_hints parsed ;;;
     _recordDb opName start ;;;
     ret (ok res))
    (fun err => fail err name).

Definition updateMany (modelOrObj filter data writeArg : value) : M (ApiResponse value) :=
  plain_write "updateMany" modelOrObj (pick modelOrObj "writeArg" writeArg)
    (UpdateMany (pick modelOrObj "filter" filter) (pick modelOrObj "data" data)).

Definition deleteOne (modelOrObj filter writeArg : value) : M (ApiResponse value) :=
  plain_write "deleteOne" modelOrObj (pick modelOrObj "writeArg" writeArg)
    (DeleteOne (pick modelOrObj "filter" filter)).

Definition deleteMany (modelOrObj filter writeArg : value) : M (ApiResponse value) :=
  plain_write "deleteMany" modelOrObj (pick modelOrObj "writeArg" writeArg)
    (DeleteMany (pick modelOrObj "filter" filter)).

Definition wantsDoc (opts : list (string * value)) : bool :=
  same_value (lit_prop opts "new") (VBool true)
  || same_value (lit_prop opts "returnDocument") (VStr "after")
  || same_value (lit_prop opts "returnDocument") (VBool true).

(** The options [upsertOne] hands to the store:
    [{ upsert: true, ...options }]. *)
Definition upsert_opts (options : value) : list (string * value) :=
  spread [("upsert", VBool true)] options.

Definition upsertOne (modelOrObj filter data writeArg : value) : M (ApiResponse value) :=
  try_catch
    (let model := pick_model modelOrObj in
     let resolvedFilter := pick modelOrObj "filter" filter in
     let resolvedData := pick modelOrObj "data" data in
     let resolvedWriteArg := pick modelOrObj "writeArg" writeArg in
     Model <- resolveModel model ;;
     let opName := "upsertOne:" ++ js_String model in
     start <- _nowNs ;;
     let parsed := _parseWriteArg resolvedWriteArg in
     let opts := upsert_opts (options parsed) in
     res <- (if wantsDoc opts && has_findOneAndUpdate Model
             then store Model (FindOneAndUpdate resolvedFilter resolvedData opts)
             else store Model (UpdateOne resolvedFilter resolvedData opts)) ;;
     invalidate_hints parsed ;;;
     _recordDb opName start ;;;
     ret (ok res))
    (fun err => fail err "upsertOne").

Definition countDocuments (modelOrObj filter : value)
  (named_cacheOpts cacheOpts : option CacheOptions) : M (ApiResponse value) :=
  try_catch
    (let model := pick_model modelOrObj in
     let resolvedFilter := or_else (pick modelOrObj "filter" filter) (obj []) in
     let resolvedCacheOpts := pick_cacheOpts modelOrObj named_cacheOpts cacheOpts in
     Model <- resolveModel model ;;
     let opName := "countDocuments:" ++ js_String model in
     start <- _nowNs ;;
     cached_read "countDocuments" [model; resolvedFilter] resolvedCacheOpts
       (run_query Model (CountDocuments resolvedFilter) opName start))
    (fun err => fail err "countDocuments").

(* ---------------------------------------------------------------- *)
(** *** The public boundary *)

(** What an exported function hands back: an envelope, or, for
    [resolveModel], the model itself. *)
Inductive payload : Type :=
| PValue (v : value)
| PMessage (m : Message)
| PMetrics (m : Metrics.t)
| PModel (m : MongooseModel).

Inductive public_result : Type :=
| Envelope (r : ApiResponse payload)
| BareModel (m : MongooseModel).

Definition envelope_of {T} (f : T -> payload) (r : ApiResponse T) : public_result :=
  Envelope (match r with ok d => ok (f d) | failure e => failure e end).

(** The functions of [module.exports]. *)
Inductive export : Type :=
| ExpResolveModel
| ExpCreateOne | ExpCreateMany
| ExpGetOne | ExpGetMany | ExpGetManyWithLimit | ExpGetManyWithPagination
| ExpAggregate
| ExpUpdateOne | ExpUpdateMany | ExpDeleteOne | ExpDeleteMany | ExpUpsertOne
| ExpCountDocuments
| ExpSafeQuery | ExpWithTransaction
| ExpGetMetrics | ExpResetMetrics
| ExpSetLogger | ExpSetModelsDir | ExpSetCache.

(** The object [module.exports]: its own properties. *)
Definition module_exports : list (string * export) :=
  [("resolveModel", ExpResolveModel);
   ("createOne", ExpCreateOne);
   ("createMany", ExpCreateMany);
   ("getOne", ExpGetOne);
   ("getMany", ExpGetMany);
   ("getManyWithLimit", ExpGetManyWithLimit);
   ("getManyWithPagination", ExpGetManyWithPagination);
   ("aggregate", ExpAggregate);
   ("updateOne", ExpUpdateOne);
   ("updateMany", ExpUpdateMany);
   ("deleteOne", ExpDeleteOne);
   ("deleteMany", ExpDeleteMany);
   ("upsertOne", ExpUpsertOne);
   ("countDocuments", ExpCountDocuments);
   ("safeQuery", ExpSafeQuery);
   ("withTransaction", ExpWithTransaction);
   ("getMetrics", ExpGetMetrics);
   ("resetMetrics", ExpResetMetrics);
   ("setLogger", ExpSetLogger);
   ("setModelsDir", ExpSetModelsDir);
   ("setCache", ExpSetCache)].

(** The properties [module.exports] inherits from [Object.prototype] that
    are functions. *)
Definition object_prototype_functions : list string :=
  ["constructor"; "hasOwnProperty"; "isPrototypeOf"; "propertyIsEnumerable";
   "toLocaleString"; "toString"; "valueOf";
   "__defineGetter__"; "__defineSetter__"; "__lookupGetter__"; "__lookupSetter__"].

(** What [module.exports?.[fn]] finds under a string key. *)
Inductive looked_up : Type :=
| OwnExport (e : export)
| InheritedFunction
| NoFunction.

Definition lookup_export (key : string) : looked_up :=
  match assoc key module_exports with
  | Some e => OwnExport e
  | None =>
      if existsb (String.eqb key) object_prototype_functions
      then InheritedFunction else NoFunction
  end.

(** A call of one of the functions of [module.exports].

    [safeQuery(fn, ...args)] carries [fn] as it is passed.  The rest
    arguments are carried by what they make of each function they can be
    handed to: [args e] is the call of the exported function [e] with them,
    and [foreign] is the call with them of a function that is not of this
    module ([fn] itself when it is a function, or the function of
    [Object.prototype] it names). *)
Inductive public_call : Type :=
| CallResolveModel (model : value)
| CallCreateOne (modelOrObj payload writeArg : value)
| CallCreateMany (modelOrObj docs writeArg : value)
| CallGetOne (modelOrObj filter select populate : value)
             (named_cacheOpts cacheOpts : option CacheOptions)
| CallGetMany (modelOrObj filter select sort populate : value)
              (named_cacheOpts cacheOpts : option CacheOptions)
| CallGetManyWithLimit (modelOrObj filter select sort limit populate : value)
                       (named_cacheOpts cacheOpts : option CacheOptions)
| CallGetManyWithPagination (modelOrObj filter select sort page limit populate : value)
                            (named_cacheOpts cacheOpts : option CacheOptions)
| CallAggregate (modelOrObj pipeline : value)
                (named_cacheOpts cacheOpts : option CacheOptions)
| CallUpdateOne (modelOrObj filter data writeArg : value)
| CallUpdateMany (modelOrObj filter data writeArg : value)
| CallDeleteOne (modelOrObj filter writeArg : value)
| CallDeleteMany (modelOrObj filter writeArg : value)
| CallUpsertOne (modelOrObj filter data writeArg : value)
| CallCountDocuments (modelOrObj filter : value)
                     (named_cacheOpts cacheOpts : option CacheOptions)
| CallSafeQuery (fn : value) (args : export -> public_call)
                (foreign : callback produced)
| CallWithTransaction (workOrObj : WorkOrObj) (txOptions : option TxnOptions)
| CallGetMetrics
| CallResetMetrics
| CallSetLogger (is_function : bool)
| CallSetModelsDir (dir : value)
| CallSetCache (_cache : option (CacheInterface * cache_store)).


(** [res && typeof res.status === "boolean" && "data" in res ? res : ok(res)]. *)
Definition normalize_query (res : produced) : ApiResponse value :=
  match res with
  | Enveloped r => r
  | Bare v =>
      if has_prop "data" v then normalize (Bare v) else ok v
  end.

Definition safeQuery_ctx : string := "/mongo/repo/index.js/safeQuery/".

Fixpoint run_public (c : public_call) : M public_result :=
  match c with
  | CallResolveModel model => m <- resolveModel model ;; ret (BareModel m)
  | CallCreateOne a b d => r <- createOne a b d ;; ret (envelope_of PValue r)
  | CallCreateMany a b d => r <- createMany a b d ;; ret (envelope_of PValue r)
  | CallGetOne a b d e n o => r <- getOne a b d e n o ;; ret (envelope_of PValue r)
  | CallGetMany a b d e f n o =>
      r <- getMany a b d e f n o ;; ret (envelope_of PValue r)
  | CallGetManyWithLimit a b d e f g n o =>
      r <- getManyWithLimit a b d e f g n o ;; ret (envelope_of PValue r)
  | CallGetManyWithPagination a b d e f g h n o =>
      r <- getManyWithPagination a b d e f g h n o ;; ret (envelope_of PValue r)
  | CallAggregate a b n o => r <- aggregate a b n o ;; ret (envelope_of PValue r)
  | CallUpdateOne a b d e => r <- updateOne a b d e ;; ret (envelope_of PValue r)
  | CallUpdateMany a b d e => r <- updateMany a b d e ;; ret (envelope_of PValue r)
  | CallDeleteOne a b d => r <- deleteOne a b d ;; ret (envelope_of PValue r)
  | CallDeleteMany a b d => r <- deleteMany a b d ;; ret (envelope_of PValue r)
  | CallUpsertOne a b d e => r <- upsertOne a b d e ;; ret (envelope_of PValue r)
  | CallCountDocuments a b n o =>
      r <- countDocuments a b n o ;; ret (envelope_of PValue r)
  | CallSafeQuery fn args foreign =>
      try_catch
        (let call_foreign :=
           res <- call_back foreign ;;
           ret (envelope_of PValue (normalize_query res)) in
         match fn with
         | VFun _ => call_foreign
         | _ =>
             if holds_symbol fn then
               (* a symbol is the key of no property, and the message of the
                  error cannot be built; an array that holds one cannot be
                  made a key *)
               throw (JsError "Cannot convert a Symbol value to a string")
             else
             match lookup_export (js_String fn) with
             | OwnExport e =>
                 res <- run_public (args e) ;;
                 match res with
                 | Envelope r => ret (Envelope r)
                 | BareModel m => ret (Envelope (ok (PModel m)))
                 end
             | InheritedFunction => call_foreign
             | NoFunction =>
                 r <- fail (T := value)
                        (JsError ("Function " ++ String dquote (js_String fn)
                                  ++ String dquote " not found"))
                        (safeQuery_ctx ++ js_String fn) ;;
                 ret (envelope_of PValue r)
             end
         end)
        (fun err =>
           r <- fail (T := value) err (safeQuery_ctx ++ "catch") ;;
           ret (envelope_of PValue r))
  | CallWithTransaction w o =>
      r <- withTransaction w o ;; ret (envelope_of PValue r)
  | CallGetMetrics => r <- getMetrics ;; ret (envelope_of PMetrics r)
  | CallResetMetrics => r <- resetMetrics ;; ret (envelope_of PMessage r)
  | CallSetLogger b => r <- setLogger b ;; ret (envelope_of PMessage r)
  | CallSetModelsDir d => r <- setModelsDir d ;; ret (envelope_of PMessage r)
  | CallSetCache c => r <- setCache c ;; ret (envelope_of PMessage r)
  end.

End Operations.

(** A logger that returns.  Where a property does not name the logger, it
    is stated for this one. *)
#[export] Instance quiet_logger : Logger := {| logger_call := fun _ _ => Ret tt |}.

(* ================================================================== *)
(** ** Reference notions the properties are stated with *)



(** A Number of the model: a significand of at most 53 bits times a power
    of two, below [2^1024]. *)
Definition is_double (d : Z) : Prop :=
  exists q e, 0 <= e /\ 0 <= q < 2 ^ 53 /\ d = q * 2 ^ e /\ d < 2 ^ 1024.

(** One of the option keys the write-argument parser recognises at top
    level. *)
Definition has_recognized_key (arg : value) : bool :=
  has_prop "session" arg || has_prop "upsert" arg
  || has_prop "writeConcern" arg || has_prop "runValidators" arg.

(** A nested [options] property that is an object. *)
Definition has_nested_options (arg : value) : bool :=
  has_prop "options" arg && jstype_eqb (typeof (get_prop arg "options")) TObject.

(** The trace of a run. *)
Definition trace_of {W A : Type} (r : A * W * list event) : list event := snd r.
Definition world_of {W A : Type} (r : A * W * list event) : W := snd (fst r).
Definition result_of {W A : Type} (r : A * W * list event) : A := fst (fst r).



Lemma last_cons c s :
  Str.last (String c s) = match Str.last s with Some x => Some x | None => Some c end.
Proof.
  destruct s as [|d t]; [reflexivity|].
  change (Str.last (String c (String d t))) with (Str.last (String d t)).
  destruct (Str.last (String d t)) eqn:E; [reflexivity|].
  exfalso. revert d E. induction t as [|e t IH]; intros d E; [discriminate E|].
  change (Str.last (String d (String e t))) with (Str.last (String e t)) in E.
  exact (IH _ E).
Qed.

(** A computation that leaves [METRICS] as it found it. *)
Definition keeps_metrics {P : Platform} {A} (m : M A) : Prop :=
  forall w, METRICS (world_of (m w)) = METRICS w.

(** The injected logger returns whenever it is called. *)
Definition logger_returns {L : Logger} : Prop :=
  forall err ctx, logger_call err ctx = Ret tt.

(** The sessions of the driver can be opened and released. *)
Definition sessions_reliable {P : Platform} : Prop :=
  (forall e, exists s e', startSession e = (Ret s, e'))
  /\ (forall s e, exists e', endSession s e = (Ret tt, e')).

Definition work_is_function {P : Platform} (workOrObj : WorkOrObj) : Prop :=
  exists work, work_of workOrObj = Fn work.

(** The calls that answer with an envelope. *)
Definition envelope_call {P : Platform} (c : public_call) : Prop :=
  match c with
  | CallResolveModel _ => False
  | CallWithTransaction workOrObj _ =>
      work_is_function workOrObj /\ sessions_reliable
  | _ => True
  end.

(** Two values that are the same graph of objects, up to the order in
    which the keys of each object were inserted: the same addresses, the
    same array elements, and for every object a permutation of its
    properties. *)
Inductive reordered : value -> value -> Prop :=
| ro_same v : reordered v v
| ro_arr a xs ys :
    reordered_list xs ys -> reordered (VArr a xs) (VArr a ys)
| ro_obj a cls ps ps' qs :
    NoDup (map fst ps) -> Permutation ps ps' -> reordered_props ps' qs ->
    reordered (VObj a cls ps) (VObj a cls qs)
with reordered_list : list value -> list value -> Prop :=
| rl_nil : reordered_list [] []
| rl_cons x y xs ys :
    reordered x y -> reordered_list xs ys -> reordered_list (x :: xs) (y :: ys)
with reordered_props : list (string * value) -> list (string * value) -> Prop :=
| rp_nil : reordered_props [] []
| rp_cons k x y ps qs :
    reordered x y -> reordered_props ps qs ->
    reordered_props ((k, x) :: ps) ((k, y) :: qs).

Scheme reordered_min := Minimality for reordered Sort Prop
  with reordered_list_min := Minimality for reordered_list Sort Prop
  with reordered_props_min := Minimality for reordered_props Sort Prop.

Combined Scheme reordered_mutual
  from reordered_min, reordered_list_min, reordered_props_min.

(** The member the serialiser makes of a property. *)
Definition member (kv : string * value) : string * ser_m :=
  match kv with (k, x) => (k, ser x) end.

(* ================================================================== *)
(** ** Sample data and a sample platform *)

Definition sample_session : value := VObj (Some 7%N) "ClientSession" [].

Definition nested_and_flat : value :=
  obj [("options", obj [("session", sample_session)]);
       ("upsert", VBool true);
       ("invalidateKeys", VStr "k")].

Definition flat_only : value :=
  obj [("session", sample_session); ("invalidatePrefixes", VStr "p:")].

(** Modelled from the spec: a working cache adapter, an in-memory map with
    the capability set [{ get, put, del, keys }] of the Cache Adapter
    interface.  [put] replaces, [get] returns what was put, [del] removes,
    [keys] lists the keys held; [del_fails] picks the keys whose deletion
    throws.  Expiry is not modelled: no time passes between the calls the
    properties are about. *)
Fixpoint mem_lookup (k : value) (st : cache_store) : option cached :=
  match st with
  | [] => None
  | (k', (v, _)) :: r => if same_value k k' then Some v else mem_lookup k r
  end.

Definition mem_remove (k : value) (st : cache_store) : cache_store :=
  filter (fun e => negb (same_value k (fst e))) st.

Definition memCache (del_fails : value -> bool) : CacheInterface :=
  mkCache
    (fun st k => Ret (mem_lookup k st))
    (fun st k v ttlMs => Ret ((k, (v, ttlMs)) :: mem_remove k st))
    (fun st k => if del_fails k then Throw (JsError "del failed")
                 else Ret (mem_remove k st))
    (fun st => Ret (map fst st)).

(** A platform to run examples on: the outside world is the clock, in
    milliseconds; the model [users] is registered; every store call takes
    five milliseconds and answers with one document. *)
Definition demo : Platform :=
  {| Ext := Z;
     Session := unit;
     MongooseModel := string;
     date_now := fun e => e;
     mongoose_models := fun _ name => if String.eqb name "users" then Some name else None;
     model_name := fun m => m;
     js_require := fun _ e => (Throw (JsError "Cannot find module"), e);
     env_MODELS_DIR := None;
     getAppRoot := "/app";
     path_join := fun a b c => a ++ "/" ++ b ++ "/" ++ c;
     has_findOneAndUpdate := fun _ => true;
     db_call := fun _ _ e => (Ret (obj [("acknowledged", VBool true)]), e + 5);
     doc_toObject := fun v =>
       match v with
       | VObj _ _ _ => Ret v
       | _ => Throw (JsError "doc.toObject is not a function")
       end;
     startSession := fun e => (Ret tt, e);
     endSession := fun _ e => (Ret tt, e) |}.

Definition demo_world (now : Z) (c : CacheInterface) (st : cache_store)
  : @World demo :=
  @mkWorld demo now c st false Metrics.zero None.

Definition sample_world : @World demo :=
  demo_world 1000 (memCache (fun _ => false)) [].

Definition upsert_false_arg : value :=
  obj [("upsert", VBool false); ("invalidateKeys", VStr "k")].

(** A work function that fails after [ms] milliseconds. *)
Definition slow_failing_work (ms : Z) : @work_fn demo :=
  fun _ w => (Throw (JsError "boom"), @set_ext demo (@ext demo w + ms) w, []).

Definition failing_work : @work_fn demo := slow_failing_work 2.

Definition retries (n : Z) : TxnOptions := mkTxn VUndef VUndef VUndef (Some n).

(** Counting in traces: the producer calls and the transaction attempts
    the layer itself made (what a callback did is inside [EvCallback]). *)
Definition is_producer (ev : event) : bool :=
  match ev with EvProducer => true | _ => false end.

Definition producer_calls (t : list event) : nat :=
  List.length (filter is_producer t).

Definition is_attempt (ev : event) : bool :=
  match ev with EvTransaction _ _ => true | _ => false end.

Definition attempts (t : list event) : nat :=
  List.length (filter is_attempt t).

(** Sample producers: one that answers with a bare value, one that answers
    with a failure envelope. *)
Definition bare_producer (v : value) : @callback demo produced :=
  fun w => (Ret (Bare v), w, []).

Definition failing_producer : @callback demo produced :=
  fun w => (Ret (Enveloped (failure (JsError "not found"))), w, []).

Definition keyed (k : string) : CacheOptions :=
  mkCacheOptions (VBool true) (VStr k) VUndef None.

Definition unkeyed (ttl : value) : CacheOptions :=
  mkCacheOptions (VBool true) VUndef ttl None.

Definition sample_args : list value := [VStr "users"; obj [("id", VNum 1)]].

(** Two successive reads through the cache, as sample runs. *)
Definition first_read (o : CacheOptions) (runFn : @callback demo produced) :=
  @withCache demo "getOne" sample_args (Some o) runFn sample_world.

Definition second_read (o : CacheOptions) (runFn : @callback demo produced) :=
  @withCache demo "getOne" sample_args (Some o) runFn (world_of (first_read o runFn)).

(** An attempt that started within the deadline counted from [t0]. *)
Definition started_in_time (t0 : Z) (ev : event) : Prop :=
  match ev with
  | EvTransaction at_ms _ => at_ms - t0 <= maxDurationMs
  | _ => True
  end.

(** A transaction whose work fails after 20 seconds, with two retries
    configured. *)
Definition slow_transaction :=
  @withTransaction demo _ (Positional (Fn (slow_failing_work 20000)))
                   (Some (retries 2)) sample_world.

(** A work function that always throws [err], every attempt taking at
    most [d] milliseconds. *)
Definition fails_within {P : Platform} (work : work_fn) (session : Session)
  (err : exn) (d : Z) : Prop :=
  forall w, exists w' t,
    work session w = (Throw err, w', t)
    /\ date_now (ext w') <= date_now (ext w) + d.

(** The loop [withTransaction] runs once the session [s] is open and the
    outside world is [e1]. *)
Definition transaction_loop {P : Platform} (work : work_fn) (s : Session)
  (o : TxnOptions) (e1 : Ext) (w : World) :=
  tx_loop 10 work s (session_options o) (retries_of o)
          (date_now e1) (date_now e1 * 1000000) 0 (set_ext e1 w).

Definition is_log (ev : event) : Prop :=
  match ev with EvLog _ _ => True | _ => False end.

(** A transaction whose work fails at once (after 2 ms), with two retries
    configured. *)
Definition quick_transaction :=
  @withTransaction demo _ (Positional (Fn failing_work)) (Some (retries 2)) sample_world.

(** The closed forms the invalidation engine is compared with.  [ok_count]
    counts the keys whose deletion does not fail; [remove_all] is the store
    without the entries under such a key; [prefix_matches] lists, prefix
    after prefix, the listed keys that start with it. *)
Definition ok_count (fails : value -> bool) (ks : list value) : nat :=
  List.length (filter (fun k => negb (fails k)) ks).

Definition removed_by (fails : value -> bool) (ks : list value) (key : value) : bool :=
  existsb (fun k => negb (fails k) && same_value k key) ks.

Definition remove_all (fails : value -> bool) (ks : list value) (st : cache_store)
  : cache_store :=
  filter (fun e => negb (removed_by fails ks (fst e))) st.

Definition matches (p : string) (key : value) : bool :=
  Str.startsWith (js_String key) p.

Definition prefix_matches (ps : list string) (all : list value) : list value :=
  flat_map (fun p => filter (matches p) all) ps.

(** Two worlds that differ at most in what the adapter holds. *)
Definition same_but_store {P : Platform} (w w' : World) : Prop :=
  ext w' = ext w /\ cache w' = cache w /\ logger_set w' = logger_set w
  /\ METRICS w' = METRICS w /\ MODELS_DIR w' = MODELS_DIR w.

Definition x_store : cache_store :=
  [(VStr "x:1", (ok VNull, 60000)); (VStr "x:2", (ok VNull, 60000));
   (VStr "y", (ok VNull, 60000))].

Definition x_world : @World demo := demo_world 1000 (memCache (fun _ => false)) x_store.

(** A value that is not an object: [SameValueZero] is equality on these. *)
Definition primitive (v : value) : bool :=
  match v with
  | VArr _ _ | VObj _ _ _ => false
  | _ => true
  end.

Definition is_del (ev : event) : bool :=
  match ev with EvCacheDel _ => true | _ => false end.

Definition both_input : value :=
  obj [("keys", arr [VStr "x:1"]); ("prefixes", arr [VStr "x:"])].

Definition empty_prefix_input : value :=
  obj [("prefixes", arr [VStr EmptyString])].

Definition overlapping_prefixes_input : value :=
  obj [("keys", arr [VStr "y"; VStr "y"]); ("prefixes", arr [VStr "x"; VStr "x:"])].

(** JSON text written by hand, to state what the serialiser yields. *)
Definition json_member (kv : string * string) : string :=
  quote (fst kv) ++ ":" ++ snd kv.

Definition json_object (members : list (string * string)) : string :=
  "{" ++ String.concat "," (map json_member members) ++ "}".

(** One object referred to twice, and a deeply-equal value built from two
    copies of it (with the keys inserted the other way round). *)
Definition shared_child : value := VObj (Some 2%N) "Object" [("k", VNum 1)].

Definition aliased : value :=
  VObj (Some 1%N) "Object" [("p", shared_child); ("q", shared_child)].

Definition copied : value :=
  VObj (Some 3%N) "Object"
    [("q", VObj (Some 4%N) "Object" [("k", VNum 1)]);
     ("p", VObj (Some 5%N) "Object" [("k", VNum 1)])].

(** The same object as [aliased], its keys inserted the other way round. *)
Definition aliased_reordered : value :=
  VObj (Some 1%N) "Object" [("q", shared_child); ("p", shared_child)].

(** An object that refers to itself: the inner node is the reference back. *)
Definition cyclic : value :=
  VObj (Some 1%N) "Object" [("name", VStr "a"); ("self", VObj (Some 1%N) "Object" [])].

(* ================================================================== *)
(** ** Notions for the further properties *)

(** A digit of base 36, as [Number.prototype.toString(36)] writes it. *)
Definition is_base36 (c : ascii) : bool :=
  let n := Str.code c in
  ((48 <=? n) && (n <=? 57) || (97 <=? n) && (n <=? 122))%N.

(** [parseInt(s, 36)] on a string of such digits. *)
Definition digit36_value (c : ascii) : Z :=
  let n := Z.of_N (Str.code c) in if n <? 58 then n - 48 else n - 87.

Fixpoint parseInt36_aux (acc : Z) (s : string) : Z :=
  match s with
  | EmptyString => acc
  | String c r => parseInt36_aux (36 * acc + digit36_value c) r
  end.

Definition parseInt36 (s : string) : Z := parseInt36_aux 0 s.

(** A name without a colon, the separator of the cache keys. *)
Definition colon_free (s : string) : bool :=
  Str.all (fun c => negb (Ascii.eqb c ":"%char)) s.

(** Two ways to write one argument list: the keys of an object in either
    order. *)
Definition filter_ab : value := obj [("a", VNum 1); ("b", VNum 2)].
Definition filter_ba : value := obj [("b", VNum 2); ("a", VNum 1)].

(** A timing bucket whose figures agree with one another: empty, or holding
    at least one sample with [minMs <= maxMs] and a total between
    [count * minMs] and [count * maxMs]. *)
Definition bucket_consistent (b : Metrics.Bucket) : Prop :=
  match Metrics.minMs b with
  | None => Metrics.count b = 0 /\ Metrics.totalMs b = 0 /\ Metrics.maxMs b = 0
  | Some m =>
      1 <= Metrics.count b
      /\ 0 <= m <= Metrics.maxMs b
      /\ Metrics.count b * m <= Metrics.totalMs b <= Metrics.count b * Metrics.maxMs b
  end.

Definition metrics_consistent (m : Metrics.t) : Prop :=
  Forall (fun kb => bucket_consistent (snd kb)) (Metrics.perOp m).

(** The number of samples recorded under an operation name. *)
Definition samples (opName : string) (m : Metrics.t) : Z :=
  match assoc opName (Metrics.perOp m) with
  | Some b => Metrics.count b
  | None => 0
  end.

(** Classes of events. *)
Definition is_store_event (ev : event) : bool :=
  match ev with EvStore _ _ => true | _ => false end.

Definition is_cache_event (ev : event) : bool :=
  match ev with
  | EvCacheGet _ | EvCachePut _ _ _ | EvCacheDel _ | EvCacheKeys => true
  | _ => false
  end.

Definition is_cache_get (ev : event) : bool :=
  match ev with EvCacheGet _ => true | _ => false end.

(** The prefix shared by the cache keys built for one operation on one
    model. *)
Definition operation_prefix (fnName model : string) : string :=
  fnName ++ ":" ++ model ++ ":".

(** A work function that succeeds at once. *)
Definition committing_work (v : value) : @work_fn demo :=
  fun _ w => (Ret v, w, []).

(** The sample platform with a driver whose sessions cannot be released. *)
Definition demo_stuck_session : Platform :=
  {| Ext := Z;
     Session := unit;
     MongooseModel := string;
     date_now := fun e => e;
     mongoose_models := fun _ name => if String.eqb name "users" then Some name else None;
     model_name := fun m => m;
     js_require := fun _ e => (Throw (JsError "Cannot find module"), e);
     env_MODELS_DIR := None;
     getAppRoot := "/app";
     path_join := fun a b c => a ++ "/" ++ b ++ "/" ++ c;
     has_findOneAndUpdate := fun _ => true;
     db_call := fun _ _ e => (Ret (obj [("acknowledged", VBool true)]), e + 5);
     doc_toObject := fun v =>
       match v with
       | VObj _ _ _ => Ret v
       | _ => Throw (JsError "doc.toObject is not a function")
       end;
     startSession := fun e => (Ret tt, e);
     endSession := fun _ e => (Throw (JsError "session lost"), e) |}.

Definition stuck_world : @World demo_stuck_session :=
  @mkWorld demo_stuck_session 1000 noopCache [] false Metrics.zero None.

(** An adapter that holds entries but cannot list its keys. *)
Definition unlistable : CacheInterface :=
  mkCache
    (fun st k => Ret (mem_lookup k st))
    (fun st k v ttlMs => Ret ((k, (v, ttlMs)) :: mem_remove k st))
    (fun st k => Ret (mem_remove k st))
    (fun _ => Throw (JsError "keys is not supported")).

(** A store holding entries of two operations on [users] and one on
    [orders], under keys as [buildCacheKey] builds them. *)
Definition keyed_store : cache_store :=
  [(VStr "getOne:users:iduull", (ok (VNum 1), 60000));
   (VStr "getMany:users:iduull", (ok (VNum 2), 60000));
   (VStr "getOne:orders:iduull", (ok (VNum 3), 60000))].

Definition keyed_world : @World demo :=
  demo_world 1000 (memCache (fun _ => false)) keyed_store.

(** The model argument of a call of one of the thirteen operations on a
    model: [modelOrObj.model] in the object form, the first argument
    otherwise. *)
Definition crud_model {P : Platform} (c : public_call) : option value :=
  match c with
  | CallCreateOne a _ _ | CallCreateMany a _ _
  | CallGetOne a _ _ _ _ _ | CallGetMany a _ _ _ _ _ _
  | CallGetManyWithLimit a _ _ _ _ _ _ _
  | CallGetManyWithPagination a _ _ _ _ _ _ _ _
  | CallAggregate a _ _ _
  | CallUpdateOne a _ _ _ | CallUpdateMany a _ _ _
  | CallDeleteOne a _ _ | CallDeleteMany a _ _
  | CallUpsertOne a _ _ _
  | CallCountDocuments a _ _ _ => Some (pick_model a)
  | _ => None
  end.

(** The seven operations that write, the six that read. *)
Definition is_write {P : Platform} (c : public_call) : bool :=
  match c with
  | CallCreateOne _ _ _ | CallCreateMany _ _ _
  | CallUpdateOne _ _ _ _ | CallUpdateMany _ _ _ _
  | CallDeleteOne _ _ _ | CallDeleteMany _ _ _
  | CallUpsertOne _ _ _ _ => true
  | _ => false
  end.

Definition is_read {P : Platform} (c : public_call) : bool :=
  match c with
  | CallGetOne _ _ _ _ _ _ | CallGetMany _ _ _ _ _ _ _
  | CallGetManyWithLimit _ _ _ _ _ _ _ _
  | CallGetManyWithPagination _ _ _ _ _ _ _ _ _
  | CallAggregate _ _ _ _
  | CallCountDocuments _ _ _ _ => true
  | _ => false
  end.

(** What the logger is handed when [fail(err, ctx)] runs in the world [w]. *)
Definition logged {P : Platform} (w : World) (err : exn) (ctx : string) : list event :=
  if logger_set w then [EvLog err ctx] else [].

Definition count_events (p : event -> bool) (t : list event) : nat :=
  List.length (filter p t).

(** The write argument of a call of one of the seven writes:
    [modelOrObj.writeArg ?? writeArg] in the object form, the positional
    argument otherwise. *)
Definition write_arg {P : Platform} (c : public_call) : option value :=
  match c with
  | CallCreateOne a _ wa | CallCreateMany a _ wa
  | CallUpdateOne a _ _ wa | CallUpdateMany a _ _ wa
  | CallDeleteOne a _ wa | CallDeleteMany a _ wa
  | CallUpsertOne a _ _ wa => Some (pick a "writeArg" wa)
  | _ => None
  end.

(** What a write makes of what the store returned before it answers:
    [createOne] and [createMany] turn the documents into plain objects,
    the other writes hand the result on. *)
Definition plain_result {P : Platform} (c : public_call) (res : value) : M value :=
  match c with
  | CallCreateOne _ _ _ => toObject res
  | CallCreateMany _ _ _ => map_toObject res
  | _ => ret res
  end.

Definition is_create {P : Platform} (c : public_call) : bool :=
  match c with
  | CallCreateOne _ _ _ | CallCreateMany _ _ _ => true
  | _ => false
  end.

(** The envelope a write answers with once the store has returned [res]:
    the plain result, or the exception of [toObject]. *)
Definition write_answer {P : Platform} (c : public_call) (res : value) (w : World)
  : ApiResponse payload :=
  match result_of (plain_result c res w) with
  | Ret plain => ok (PValue plain)
  | Throw e => failure e
  end.

(** A computation all of whose own events satisfy [Q], whatever the state
    it starts from and whatever its outcome. *)
Definition confined {P : Platform} {A} (Q : event -> Prop) (m : M A) : Prop :=
  forall w, Forall Q (trace_of (m w)).

(** An event of the cache adapter or of the logger. *)
Definition cache_or_log (ev : event) : Prop :=
  is_cache_event ev = true \/ is_log ev.

(** A value that holds no object whose [toJSON] throws. *)
Fixpoint throw_free (v : value) : bool :=
  match v with
  | VThrower _ => false
  | VArr _ elems => forallb throw_free elems
  | VObj _ _ props => forallb (fun kv => throw_free (snd kv)) props
  | _ => true
  end.

(** Plain data: primitives, functions, arrays and the objects an object
    literal makes, none with a [toJSON] that throws. *)
Fixpoint plain (v : value) : bool :=
  match v with
  | VThrower _ => false
  | VArr _ elems => forallb plain elems
  | VObj _ cls props =>
      String.eqb cls "Object" && forallb (fun kv => plain (snd kv)) props
  | _ => true
  end.

(** An object that refers to itself, beside [aliased]. *)
Definition self_referring : value :=
  VObj (Some 6%N) "Object"
    [("name", VStr "a"); ("self", VObj (Some 6%N) "Object" [])].

(** A step of the serialiser that does not throw, whatever has been seen. *)
Definition ser_succeeds (c : ser_m) : Prop :=
  forall seen, exists o seen', c seen = inr (o, seen').

(** The sample platform with a store that cannot be reached. *)
Definition demo_store_down : Platform :=
  {| Ext := Z;
     Session := unit;
     MongooseModel := string;
     date_now := fun e => e;
     mongoose_models := fun _ name => if String.eqb name "users" then Some name else None;
     model_name := fun m => m;
     js_require := fun _ e => (Throw (JsError "Cannot find module"), e);
     env_MODELS_DIR := None;
     getAppRoot := "/app";
     path_join := fun a b c => a ++ "/" ++ b ++ "/" ++ c;
     has_findOneAndUpdate := fun _ => true;
     db_call := fun _ _ e => (Throw (JsError "connection lost"), e + 5);
     doc_toObject := fun v =>
       match v with
       | VObj _ _ _ => Ret v
       | _ => Throw (JsError "doc.toObject is not a function")
       end;
     startSession := fun e => (Ret tt, e);
     endSession := fun _ e => (Ret tt, e) |}.

(** A write argument in the flat form that names none of the recognised
    options. *)
Definition new_only_arg : value := obj [("new", VBool true)].

(** An adapter whose lookups throw. *)
Definition broken_get : CacheInterface :=
  mkCache
    (fun _ _ => Throw (JsError "cache unreachable"))
    (fun st _ _ _ => Ret st)
    (fun st _ => Ret st)
    (fun _ => Ret []).

(** Cache options that ask for caching, and nothing else. *)
Definition caching_on : CacheOptions := unkeyed VUndef.

(** Sample worlds and calls for the operations on a model. *)
Definition store_down_world : @World demo_store_down :=
  @mkWorld demo_store_down 1000 (memCache (fun _ => false)) keyed_store false
           Metrics.zero None.

(** A world whose adapter cannot delete. *)
Definition stubborn_world : @World demo :=
  demo_world 1000 (memCache (fun _ => true)) keyed_store.

(** A world whose adapter holds the answer to [getOne("users", filter_ab)]. *)
Definition answered_world : @World demo :=
  demo_world 1000 (memCache (fun _ => false))
    [(VStr "getOne:users:1fejte1", (ok (VNum 1), 60000))].

Definition broken_get_world : @World demo := demo_world 1000 broken_get [].

Definition sample_update (P : Platform) : @public_call P :=
  CallUpdateOne (VStr "users") filter_ab (obj [("n", VNum 1)])
                (obj [("invalidatePrefixes", VStr "getOne:users:")]).

Definition sample_getOne : @public_call demo :=
  CallGetOne (VStr "users") filter_ab VUndef VUndef None (Some caching_on).

Definition sample_delete : @public_call demo :=
  CallDeleteOne (VStr "users") filter_ab (VStr "getOne:users:iduull").

(** The directory [getModelsDir] answers with when none has been set. *)
Definition fallback_dir {P : Platform} : string :=
  match nonempty env_MODELS_DIR with
  | Some e => e
  | None => "./models"
  end.

(** What an operation on a model may have done to the module state when it
    is over: the adapter installed, the logger and the counters of hits,
    misses and puts are as they were; a models directory that was set is as
    it was, one that was not may have been fixed to the fallback; the
    counter of invalidations and the number of samples of every timing
    bucket have not gone down. *)
Definition footprint {P : Platform} (w w' : World) : Prop :=
  cache w' = cache w
  /\ logger_set w' = logger_set w
  /\ (MODELS_DIR w' = MODELS_DIR w
      \/ (nonempty (MODELS_DIR w) = None /\ MODELS_DIR w' = Some fallback_dir))
  /\ Metrics.hits (Metrics.cache (METRICS w')) = Metrics.hits (Metrics.cache (METRICS w))
  /\ Metrics.misses (Metrics.cache (METRICS w'))
     = Metrics.misses (Metrics.cache (METRICS w))
  /\ Metrics.puts (Metrics.cache (METRICS w')) = Metrics.puts (Metrics.cache (METRICS w))
  /\ Metrics.invalidations (Metrics.cache (METRICS w))
     <= Metrics.invalidations (Metrics.cache (METRICS w'))
  /\ (forall opName, samples opName (METRICS w) <= samples opName (METRICS w')).

(** A computation that preserves a property of the module state, whatever its
    outcome. *)
Definition preserves {P : Platform} {A} (I : World -> Prop) (m : M A) : Prop :=
  forall w, I w -> I (world_of (m w)).

(** A store whose calls never move the clock backwards. *)
Definition clock_monotone {P : Platform} : Prop :=
  forall Model op x, date_now x <= date_now (snd (db_call Model op x)).

(** A call on a model that is not registered and cannot be loaded. *)
Definition sample_orders : @public_call demo :=
  CallGetOne (VStr "orders") filter_ab VUndef VUndef None None.

(** The calls of the store in a trace, those made inside a producer
    included. *)
Fixpoint store_calls_of (ev : event) : nat :=
  match ev with
  | EvStore _ _ => 1
  | EvCallback inner => list_sum (map store_calls_of inner)
  | _ => 0
  end.

Definition store_calls (t : list event) : nat := list_sum (map store_calls_of t).

Definition is_put (ev : event) : bool :=
  match ev with EvCachePut _ _ _ => true | _ => false end.

(** The name an operation on a model gives to its timings, before the colon
    and the model name. *)
Definition operation_name {P : Platform} (c : public_call) : string :=
  match c with
  | CallCreateOne _ _ _ => "createOne"
  | CallCreateMany _ _ _ => "createMany"
  | CallGetOne _ _ _ _ _ _ => "getOne"
  | CallGetMany _ _ _ _ _ _ _ => "getMany"
  | CallGetManyWithLimit _ _ _ _ _ _ _ _ => "getManyWithLimit"
  | CallGetManyWithPagination _ _ _ _ _ _ _ _ _ => "getManyWithPagination"
  | CallAggregate _ _ _ _ => "aggregate"
  | CallUpdateOne _ _ _ _ => "updateOne"
  | CallUpdateMany _ _ _ _ => "updateMany"
  | CallDeleteOne _ _ _ => "deleteOne"
  | CallDeleteMany _ _ _ => "deleteMany"
  | CallUpsertOne _ _ _ _ => "upsertOne"
  | CallCountDocuments _ _ _ _ => "countDocuments"
  | _ => EmptyString
  end.

(** The timings [m'] are the timings [m] with one more sample under
    [opName], and nothing else changed. *)
Definition timed_once (opName : string) (m m' : Metrics.t) : Prop :=
  samples opName m' = samples opName m + 1
  /\ (forall other, other <> opName ->
        assoc other (Metrics.perOp m') = assoc other (Metrics.perOp m)).

(** The exception of the page arithmetic of a call, if it has one: that of
    [getManyWithPagination] on a page or a limit that is a BigInt or holds a
    symbol. *)
Definition paging_error {P : Platform} (c : public_call) : option exn :=
  match c with
  | CallGetManyWithPagination modelOrObj _ _ _ page limit _ _ _ =>
      skip_error
        (or_else (pick modelOrObj "page" (default_param page (VNum 1))) (VNum 1))
        (or_else (pick modelOrObj "limit" (default_param limit (VNum 100)))
                 (VNum 100))
  | _ => None
  end.

(** The query of a read: one call of the store, or the two calls of
    [getManyWithPagination] with the page arithmetic between them, then the
    timing. *)
Definition query_of {P : Platform} (Model : MongooseModel) (opName : string)
  (start : Z) (arithmetic : option exn) (rq : M (ApiResponse value)) : Prop :=
  (arithmetic = None /\ exists op, rq = run_query Model op opName start)
  \/ (exists op1 op2 page,
        rq = (total <- store Model op1 ;;
              raise arithmetic ;;;
              docs <- store Model op2 ;;
              _recordDb opName start ;;;
              ret (ok (page docs total)))).

(** A cached read of one document, on any platform. *)
Definition sample_read (P : Platform) : @public_call P :=
  CallGetOne (VStr "users") filter_ab VUndef VUndef None (Some caching_on).

(** A write whose store result is not an array of documents. *)
Definition sample_createMany : @public_call demo :=
  CallCreateMany (VStr "users") (arr [obj [("n", VNum 1)]]) VUndef.

(** An injected logger that throws, and a world in which a logger has
    been injected. *)
Definition failing_logger : Logger :=
  {| logger_call := fun _ _ => Throw (JsError "logger down") |}.

Definition logging_world : @World demo :=
  @mkWorld demo 1000 noopCache [] true Metrics.zero None.

(* ================================================================== *)
(** A page asked for with a BigInt. *)
Definition sample_bigint_page : @public_call demo :=
  CallGetManyWithPagination (VStr "users") filter_ab VUndef VUndef (VBigInt 2)
    VUndef VUndef None None.

(* ==== END OF DEFINITIONS ==== *)

(* ================================================================== *)
(** * Properties *)

Example normalizeTTL_ex1 : normalizeTTL (VNum (-5)) = 0. Proof. reflexivity. Qed.
Example normalizeTTL_ex2 : normalizeTTL (VStr "5m") = 300000. Proof. reflexivity. Qed.
Example normalizeTTL_ex3 : normalizeTTL (VStr " 5M ") = 300000. Proof. reflexivity. Qed.
Example normalizeTTL_ex4 : normalizeTTL (VStr "bogus") = 60000. Proof. reflexivity. Qed.
Example of_Z_ex : Str.of_Z (-120) = "-120". Proof. reflexivity. Qed.

Example hash_ex : hash "[]" = "3hntv". Proof. vm_compute. reflexivity. Qed.


(* ------------------------------------------------------------------ *)
(** ** Facts about strings *)

Module StrFacts.







Lemma span_spec p s a b :
  Str.span p s = (a, b) -> s = a ++ b /\ Str.all p a = true.
Proof.
  revert a b. induction s as [|c r IH]; simpl; intros a b H.
  - inversion H; subst. split; reflexivity.
  - destruct (p c) eqn:Hc.
    + destruct (Str.span p r) as [a' b'] eqn:Hs. inversion H; subst.
      destruct (IH _ _ eq_refl) as [-> Hall]. simpl. rewrite Hc. now split.
    + inversion H; subst. split; reflexivity.
Qed.





Lemma last_app a b :
  Str.last (a ++ b) = match Str.last b with Some c => Some c | None => Str.last a end.
Proof.
  induction a as [|c r IH].
  - simpl. destruct (Str.last b); reflexivity.
  - change (String c r ++ b) with (String c (r ++ b)).
    rewrite !last_cons, IH. destruct (Str.last b); reflexivity.
Qed.



End StrFacts.

(* ------------------------------------------------------------------ *)
(** ** TTL normaliser *)

Section TTL.

Import StrFacts.






Lemma digits_value_nonneg s : forall acc,
  Str.all Str.is_digit s = true -> 0 <= acc -> 0 <= Str.digits_value acc s.
Proof.
  induction s as [|c r IH]; intros acc Hs Hacc; cbn [Str.digits_value];
    [exact Hacc|].
  cbn [Str.all] in Hs. apply andb_true_iff in Hs. destruct Hs as [Hc Hr].
  apply IH; [exact Hr|].
  unfold Str.is_digit in Hc. apply andb_true_iff in Hc. destruct Hc as [Hlo _].
  apply N.leb_le in Hlo. lia.
Qed.

Lemma ttl_match_digits s m1 m2 :
  ttl_match s = Some (m1, m2) -> Str.all Str.is_digit m1 = true.
Proof.
  unfold ttl_match. destruct (Str.span Str.is_digit s) as [ds rest] eqn:Hs.
  destruct (span_spec _ _ Hs) as [_ Hall].
  destruct (String.eqb ds EmptyString); [discriminate|].
  destruct (String.eqb rest EmptyString); [intro H; inversion H; now subst|].
  match goal with
  | |- (if ?c then _ else _) = _ -> _ => destruct c
  end; [intro H; inversion H; now subst | discriminate].
Qed.

Lemma to_double_small z : z <= 2 ^ 53 -> to_double z = VNum z.
Proof.
  intro H. unfold to_double. change (2 ^ 53) with 9007199254740992 in H.
  destruct (Z.leb_spec z 9007199254740992); [reflexivity | lia].
Qed.

Lemma big_exponent z :
  2 ^ 53 < z ->
  1 <= Z.log2 z - 52
  /\ 2 ^ 52 * 2 ^ (Z.log2 z - 52) <= z < 2 ^ 53 * 2 ^ (Z.log2 z - 52).
Proof.
  intro H.
  assert (Hl : 53 <= Z.log2 z).
  { rewrite <- (Z.log2_pow2 53) by lia. apply Z.log2_le_mono. lia. }
  split; [lia|].
  assert (Hz : 0 < z) by (pose proof (Z.pow_pos_nonneg 2 53); lia).
  destruct (Z.log2_spec z Hz) as [H1 H2].
  rewrite <- !Z.pow_add_r by lia.
  replace (52 + (Z.log2 z - 52)) with (Z.log2 z) by lia.
  replace (53 + (Z.log2 z - 52)) with (Z.succ (Z.log2 z)) by lia.
  split; assumption.
Qed.

(** What [to_double] computes above [2^53]. *)
Lemma to_double_big z :
  2 ^ 53 < z ->
  exists q e,
    1 <= e /\ 2 ^ 52 <= q <= 2 ^ 53
    /\ to_double z = (if 2 ^ 1024 <=? q * 2 ^ e then VInf false else VNum (q * 2 ^ e)).
Proof.
  intro H. destruct (big_exponent H) as (He & Hlo & Hhi).
  unfold to_double. change (2 ^ 53) with 9007199254740992 in H.
  destruct (Z.leb_spec z 9007199254740992); [lia|].
  cbv zeta.
  set (e := Z.log2 z - 52) in *.
  assert (Hp : 0 < 2 ^ e) by (apply Z.pow_pos_nonneg; lia).
  assert (Hq : 2 ^ 52 <= Z.shiftr z e < 2 ^ 53).
  { rewrite Z.shiftr_div_pow2 by lia. split.
    - apply Z.div_le_lower_bound; lia.
    - apply Z.div_lt_upper_bound; lia. }
  set (q := Z.shiftr z e) in *.
  match goal with
  | |- context [Z.shiftl ?q' e] =>
      match q' with
      | 1 => fail 1
      | q => fail 1
      | _ => set (q1 := q')
      end
  end.
  exists q1, e. split; [lia|]. split.
  - subst q1.
    repeat match goal with
           | |- context [if ?c then _ else _] => destruct c
           end; lia.
  - change (Z.shiftl 1 1024) with (2 ^ 1024).
    rewrite Z.shiftl_mul_pow2 by lia. reflexivity.
Qed.


(** What [to_double] yields is [Infinity] or a Number of the model. *)
Lemma to_double_range z :
  0 <= z ->
  to_double z = VInf false
  \/ exists d, to_double z = VNum d /\ 0 <= d /\ is_double d.
Proof.
  intro Hz. destruct (Z.le_gt_cases z (2 ^ 53)) as [Hs|Hb].
  - right. exists z. split; [now apply to_double_small|]. split; [assumption|].
    destruct (Z.eq_dec z (2 ^ 53)) as [->|Hne].
    + exists (2 ^ 52), 1. repeat split; try lia; reflexivity.
    + exists z, 0. rewrite Z.mul_1_r. repeat split; try lia.
  - destruct (to_double_big Hb) as (q & e & He & Hq & ->).
    assert (Hp : 0 < 2 ^ e) by (apply Z.pow_pos_nonneg; lia).
    destruct (Z.leb_spec (2 ^ 1024) (q * 2 ^ e)); [now left | right].
    exists (q * 2 ^ e). split; [reflexivity|]. split; [nia|].
    destruct (Z.eq_dec q (2 ^ 53)) as [->|Hne].
    + exists (2 ^ 52), (e + 1). repeat split; try lia.
      * rewrite Z.pow_add_r by lia. change (2 ^ 53) with (2 ^ 52 * 2 ^ 1). ring.
    + exists q, e. repeat split; lia.
Qed.


Lemma parseInt10_nonneg ds :
  Str.all Str.is_digit ds = true -> 0 <= Str.parseInt10 ds.
Proof.
  intro H. unfold Str.parseInt10. apply digits_value_nonneg; [exact H | lia].
Qed.









Lemma mul_double_range v m :
  0 <= m ->
  (v = VInf false \/ exists d, v = VNum d /\ 0 <= d) ->
  mul_double v m = VInf false \/ exists d, mul_double v m = VNum d /\ 0 <= d.
Proof.
  intros Hm [->|(d & -> & Hd)]; [now left|].
  simpl. destruct (@to_double_range (d * m)) as [E|(d' & E & Hd' & _)];
    [nia | now left | right; now exists d'].
Qed.

(** What [normalizeTTL] yields. *)
Lemma normalizeTTL_range ttl :
  normalizeTTL ttl = VInf false \/ exists d, normalizeTTL ttl = VNum d /\ 0 <= d.
Proof.
  assert (Hdef : exists d, VNum DEFAULT_TTL = VNum d /\ 0 <= d)
    by (exists DEFAULT_TTL; split; [reflexivity | unfold DEFAULT_TTL; lia]).
  destruct ttl; try (right; exact Hdef).
  - right. simpl. destruct (Z.ltb_spec n 0); eexists; split; try reflexivity; lia.
  - unfold normalizeTTL.
    destruct (ttl_match (Str.toLowerCase (Str.trim s))) as [[m1 m2]|] eqn:E;
      [|right; exact Hdef].
    pose proof (parseInt10_nonneg _ (ttl_match_digits _ E)) as Hv.
    assert (Hr : to_double (Str.parseInt10 m1) = VInf false
                 \/ exists d, to_double (Str.parseInt10 m1) = VNum d /\ 0 <= d).
    { destruct (to_double_range Hv) as [E'|(d & E' & Hd & _)];
        [now left | right; now exists d]. }
    cbv zeta.
    repeat match goal with
           | |- context [if ?c then _ else _] => destruct c
           end;
      first [exact Hr | apply mul_double_range; [lia | exact Hr]
            | right; exact Hdef].
Qed.

End TTL.

(* ------------------------------------------------------------------ *)
(** ** Write arguments *)

Section WriteArgs.

Lemma assoc_set_prop_same {A} k (x : A) o : assoc k (set_prop k x o) = Some x.
Proof.
  induction o as [|[k' y] r IH]; simpl.
  - now rewrite String.eqb_refl.
  - destruct (String.eqb k k') eqn:E; simpl; rewrite ?String.eqb_refl, ?E; auto.
Qed.

Lemma assoc_set_prop_other {A} k k' (x : A) o :
  k <> k' -> assoc k (set_prop k' x o) = assoc k o.
Proof.
  intro Hne. induction o as [|[k2 y] r IH]; simpl.
  - destruct (String.eqb_spec k k'); [congruence | reflexivity].
  - destruct (String.eqb_spec k' k2) as [->|Hk]; simpl.
    + destruct (String.eqb_spec k k2); [congruence | reflexivity].
    + destruct (String.eqb_spec k k2); [reflexivity | exact IH].
Qed.

Lemma assoc_not_in {A} k (l : list (string * A)) :
  ~ In k (map fst l) -> assoc k l = None.
Proof.
  induction l as [|[k' y] r IH]; simpl; [reflexivity|].
  intro H. destruct (String.eqb_spec k k') as [->|]; [tauto|].
  apply IH. tauto.
Qed.

(** What a spread leaves under a key: the property of the object spread
    last when it has one, what was there before otherwise. *)
Lemma assoc_assign {A} k (l o : list (string * A)) :
  NoDup (map fst l) ->
  assoc k (fold_left (fun o kv => set_prop (fst kv) (snd kv) o) l o)
  = match assoc k l with Some x => Some x | None => assoc k o end.
Proof.
  revert o. induction l as [|[k' y] r IH]; simpl; intros o Hnd; [reflexivity|].
  inversion Hnd as [|? ? Hnin Hnd']; subst.
  rewrite (IH _ Hnd').
  destruct (String.eqb_spec k k') as [->|Hne].
  - rewrite (assoc_not_in _ _ Hnin). apply assoc_set_prop_same.
  - destruct (assoc k r); [reflexivity|]. now apply assoc_set_prop_other.
Qed.

Lemma parse_object a cls props :
  let arg := VObj a cls props in
  _parseWriteArg arg
  = mkWriteArg
      (if has_nested_options arg then get_prop arg "options"
       else if has_recognized_key arg then arg else VUndef)
      (get_prop arg "invalidateKeys")
      (get_prop arg "invalidatePrefixes").
Proof.
  simpl. unfold _parseWriteArg, has_nested_options, has_recognized_key. simpl.
  f_equal.
  - destruct (assoc "invalidateKeys" props); reflexivity.
  - destruct (assoc "invalidatePrefixes" props); reflexivity.
Qed.

(** C9, as amended.  For every object write argument, a nested [options]
    object becomes the options record whether or not a recognised key
    ([session], [upsert], [writeConcern], [runValidators]) stands at top
    level: the nested branch takes priority over the flat one.  The whole
    input object becomes the options record only when there is no nested
    [options] object and a recognised key is present.  [invalidateKeys] and
    [invalidatePrefixes] are extracted in every case. *)
Theorem parseWriteArg_nested_options_first a cls props :
  let arg := VObj a cls props in
  (has_nested_options arg = true ->
   options (_parseWriteArg arg) = get_prop arg "options")
  /\ (has_nested_options arg = false -> has_recognized_key arg = true ->
      options (_parseWriteArg arg) = arg)
  /\ invalidateKeys (_parseWriteArg arg) = get_prop arg "invalidateKeys"
  /\ invalidatePrefixes (_parseWriteArg arg) = get_prop arg "invalidatePrefixes".
Proof.
  intro arg. unfold arg. rewrite parse_object. simpl.
  repeat split.
  - intros ->. reflexivity.
  - intros -> ->. reflexivity.
Qed.

Lemma parseWriteArg_nested_options_first_witness :
  options (_parseWriteArg nested_and_flat) = obj [("session", sample_session)]
  /\ options (_parseWriteArg flat_only) = flat_only.
Proof.
  split.
  - apply (parseWriteArg_nested_options_first None "Object"
             [("options", obj [("session", sample_session)]);
              ("upsert", VBool true);
              ("invalidateKeys", VStr "k")]).
    reflexivity.
  - apply (parseWriteArg_nested_options_first None "Object"
             [("session", sample_session); ("invalidatePrefixes", VStr "p:")]);
      reflexivity.
Defined.

(** C9 as stated fails: with a nested [options] object and the recognised
    key [upsert] at top level, the options record is the nested object, not
    the input object. *)
Lemma parseWriteArg_flat_branch_loses :
  has_nested_options nested_and_flat = true
  /\ has_recognized_key nested_and_flat = true
  /\ options (_parseWriteArg nested_and_flat) = obj [("session", sample_session)]
  /\ options (_parseWriteArg nested_and_flat) <> nested_and_flat
  /\ invalidateKeys (_parseWriteArg nested_and_flat) = VStr "k".
Proof.
  repeat split; try reflexivity. discriminate.
Qed.

End WriteArgs.

(* ------------------------------------------------------------------ *)
(** ** Running computations *)

Section Runs.

Context {P : Platform}.

Lemma bind_ret_run {A B} (m : M A) (f : A -> M B) w a w1 t1 :
  m w = (Ret a, w1, t1) ->
  bind m f w = (result_of (f a w1), world_of (f a w1), List.app t1 (trace_of (f a w1))).
Proof.
  intro H. unfold bind. rewrite H. destruct (f a w1) as [[r w2] t2]. reflexivity.
Qed.

Lemma bind_throw_run {A B} (m : M A) (f : A -> M B) w e w1 t1 :
  m w = (Throw e, w1, t1) -> bind m f w = (Throw e, w1, t1).
Proof.
  intro H. unfold bind. now rewrite H.
Qed.

Lemma trace_bind_head {A B} (m : M A) (f : A -> M B) w ev :
  In ev (trace_of (m w)) -> In ev (trace_of (bind m f w)).
Proof.
  unfold bind, trace_of. destruct (m w) as [[[a|e] w1] t1]; simpl; [|auto].
  destruct (f a w1) as [[r w2] t2]. simpl. intro H. apply in_or_app. now left.
Qed.

Lemma trace_bind_tail {A B} (m : M A) (f : A -> M B) w a w1 t1 ev :
  m w = (Ret a, w1, t1) ->
  In ev (trace_of (f a w1)) -> In ev (trace_of (bind m f w)).
Proof.
  intros H Hin. rewrite (@bind_ret_run _ _ m f w a w1 t1 H). unfold trace_of at 1. simpl.
  apply in_or_app. now right.
Qed.

Lemma trace_try_catch {A} (m : M A) h w ev :
  In ev (trace_of (m w)) -> In ev (trace_of (try_catch m h w)).
Proof.
  unfold try_catch, trace_of. destruct (m w) as [[[a|e] w1] t1]; simpl; [auto|].
  destruct (h e w1) as [[r w2] t2]. simpl. intro H. apply in_or_app. now left.
Qed.

Lemma bind_eq {A B} (m : M A) (f : A -> M B) w a w1 t1 r w2 t2 t :
  m w = (Ret a, w1, t1) ->
  f a w1 = (r, w2, t2) ->
  t = List.app t1 t2 ->
  bind m f w = (r, w2, t).
Proof.
  intros H1 H2 ->. unfold bind. now rewrite H1, H2.
Qed.

Lemma try_catch_ret {A} (m : M A) h w a w1 t1 :
  m w = (Ret a, w1, t1) -> try_catch m h w = (Ret a, w1, t1).
Proof.
  intro H. unfold try_catch. now rewrite H.
Qed.

Lemma try_catch_throw {A} (m : M A) h w e w1 t1 r w2 t2 t :
  m w = (Throw e, w1, t1) ->
  h e w1 = (r, w2, t2) ->
  t = List.app t1 t2 ->
  try_catch m h w = (r, w2, t).
Proof.
  intros H1 H2 ->. unfold try_catch. now rewrite H1, H2.
Qed.

Lemma adapter_get_mem k w fails :
  cache w = memCache fails ->
  adapter_get k w = (Ret (mem_lookup k (cstore w)), w, [EvCacheGet k]).
Proof.
  intro H. unfold adapter_get, bind, emit, get_world. rewrite H. reflexivity.
Qed.

Lemma adapter_put_mem k v ttlMs w fails :
  cache w = memCache fails ->
  adapter_put k v ttlMs w
  = (Ret tt, set_cstore ((k, (v, ttlMs)) :: mem_remove k (cstore w)) w,
     [EvCachePut k v ttlMs]).
Proof.
  intro H. unfold adapter_put, bind, emit, get_world. rewrite H. reflexivity.
Qed.

Lemma adapter_del_mem k w fails :
  cache w = memCache fails ->
  adapter_del k w
  = if fails k then (Throw (JsError "del failed"), w, [EvCacheDel k])
    else (Ret tt, set_cstore (mem_remove k (cstore w)) w, [EvCacheDel k]).
Proof.
  intro H. unfold adapter_del, bind, emit, get_world. rewrite H. simpl.
  destruct (fails k); reflexivity.
Qed.

Lemma adapter_keys_mem w fails :
  cache w = memCache fails ->
  adapter_keys w = (Ret (map fst (cstore w)), w, [EvCacheKeys]).
Proof.
  intro H. unfold adapter_keys, bind, emit, get_world. rewrite H. reflexivity.
Qed.

Lemma run_producer_run (runFn : callback produced) w r w1 t1 :
  runFn w = (r, w1, t1) ->
  run_producer runFn w = (r, w1, [EvProducer; EvCallback t1]).
Proof.
  intro H. unfold run_producer, bind, emit, call_back. rewrite H.
  destruct r; reflexivity.
Qed.

Lemma trace_bind {A B} (m : M A) (f : A -> M B) w :
  trace_of (bind m f w)
  = List.app (trace_of (m w))
      (match result_of (m w) with
       | Ret a => trace_of (f a (world_of (m w)))
       | Throw _ => []
       end).
Proof.
  unfold bind, trace_of, result_of, world_of.
  destruct (m w) as [[[a|e] w1] t1]; simpl.
  - destruct (f a w1) as [[r w2] t2]. reflexivity.
  - now rewrite app_nil_r.
Qed.

Lemma trace_adapter_put k v ttlMs w :
  trace_of (adapter_put k v ttlMs w) = [EvCachePut k v ttlMs].
Proof.
  unfold adapter_put, bind, emit, get_world, modify, throw, trace_of. simpl.
  destruct (cache_put (cache w) (cstore w) k v ttlMs); reflexivity.
Qed.

Lemma trace_adapter_get k w : trace_of (adapter_get k w) = [EvCacheGet k].
Proof.
  unfold adapter_get, bind, emit, get_world, ret, throw, trace_of. simpl.
  destruct (cache_get (cache w) (cstore w) k); reflexivity.
Qed.

Lemma producer_calls_app t1 t2 :
  producer_calls (List.app t1 t2) = (producer_calls t1 + producer_calls t2)%nat.
Proof.
  unfold producer_calls. now rewrite filter_app, length_app.
Qed.

Lemma keeps_bind {A B} (m : M A) (f : A -> M B) :
  keeps_metrics m -> (forall a, keeps_metrics (f a)) -> keeps_metrics (bind m f).
Proof.
  intros Hm Hf w. specialize (Hm w). unfold bind, world_of in *.
  destruct (m w) as [[[a|e] w1] t1]; simpl in *; [|exact Hm].
  specialize (Hf a w1). unfold world_of in Hf.
  destruct (f a w1) as [[r w2] t2]. simpl in *. congruence.
Qed.

Lemma keeps_ret {A} (a : A) : keeps_metrics (ret a).
Proof. intro w. reflexivity. Qed.

Lemma keeps_emit ev : keeps_metrics (emit ev).
Proof. intro w. reflexivity. Qed.

Lemma keeps_adapter_get k : keeps_metrics (adapter_get k).
Proof.
  intro w. unfold adapter_get, bind, emit, get_world, world_of. simpl.
  destruct (cache_get (cache w) (cstore w) k); reflexivity.
Qed.

Lemma keeps_adapter_put k v ttlMs : keeps_metrics (adapter_put k v ttlMs).
Proof.
  intro w. unfold adapter_put, bind, emit, get_world, modify, world_of. simpl.
  destruct (cache_put (cache w) (cstore w) k v ttlMs); reflexivity.
Qed.

Lemma keeps_run_producer (runFn : callback produced) :
  keeps_metrics runFn -> keeps_metrics (run_producer runFn).
Proof.
  intros H w. specialize (H w). unfold run_producer, bind, emit, call_back, world_of in *.
  simpl. destruct (runFn w) as [[[r|e] w1] t1]; exact H.
Qed.

Lemma nowNs_run w : _nowNs w = (Ret (date_now (ext w) * 1000000), w, []).
Proof. reflexivity. Qed.

Lemma nowMs_run w : _nowMs w = (Ret (date_now (ext w)), w, []).
Proof. reflexivity. Qed.

Lemma trace_store Model op w :
  In (EvStore (model_name Model) op) (trace_of (store Model op w)).
Proof.
  unfold store. apply trace_bind_head. simpl. now left.
Qed.

End Runs.

(* ------------------------------------------------------------------ *)
(** ** Upsert *)

Section Upsert.

Context {P : Platform}.

Lemma upsert_opts_upsert options :
  NoDup (map fst (own_enumerable options)) ->
  lit_prop (upsert_opts options) "upsert"
  = match assoc "upsert" (own_enumerable options) with
    | Some x => x
    | None => VBool true
    end.
Proof.
  intro Hnd. unfold lit_prop, upsert_opts, spread.
  rewrite (assoc_assign _ _ _ Hnd).
  destruct (assoc "upsert" (own_enumerable options)); reflexivity.
Qed.

(** C10.  [upsertOne] hands the store the options [{ upsert: true,
    ...options }], the parsed user options spread last: once the model is
    resolved the store is called with exactly these options, and their
    [upsert] is whatever the parsed options set it to, so [upsert: false]
    in the write argument makes the call run without upsert; it is [true]
    only when the parsed options do not set it. *)
Theorem upsertOne_user_options_override_upsert
  (modelOrObj filter data writeArg : value) (w w1 : World)
  (Model : MongooseModel) (t1 : list event) :
  resolveModel (pick_model modelOrObj) w = (Ret Model, w1, t1) ->
  let user := options (_parseWriteArg (pick modelOrObj "writeArg" writeArg)) in
  NoDup (map fst (own_enumerable user)) ->
  let opts := spread [("upsert", VBool true)] user in
  let f := pick modelOrObj "filter" filter in
  let d := pick modelOrObj "data" data in
  (exists op,
      (op = FindOneAndUpdate f d opts \/ op = UpdateOne f d opts)
      /\ In (EvStore (model_name Model) op)
            (trace_of (upsertOne modelOrObj filter data writeArg w)))
  /\ (assoc "upsert" (own_enumerable user) = Some (VBool false) ->
      lit_prop opts "upsert" = VBool false)
  /\ (forall x, assoc "upsert" (own_enumerable user) = Some x ->
      lit_prop opts "upsert" = x)
  /\ (assoc "upsert" (own_enumerable user) = None ->
      lit_prop opts "upsert" = VBool true).
Proof.
  intros Hres user Hnd opts f d.
  pose proof (upsert_opts_upsert user Hnd) as Hup.
  unfold upsert_opts in Hup. fold opts in Hup.
  split; [|repeat split].
  - exists (if wantsDoc opts && has_findOneAndUpdate Model
            then FindOneAndUpdate f d opts else UpdateOne f d opts).
    split; [destruct (wantsDoc opts && has_findOneAndUpdate Model); auto|].
    unfold upsertOne. apply trace_try_catch.
    eapply trace_bind_tail; [exact Hres|].
    eapply trace_bind_tail; [apply nowNs_run|].
    apply trace_bind_head.
    fold user. unfold upsert_opts. fold opts. fold f. fold d.
    destruct (wantsDoc opts && has_findOneAndUpdate Model); apply trace_store.
  - intro H. now rewrite Hup, H.
  - intros x H. now rewrite Hup, H.
  - intro H. now rewrite Hup, H.
Qed.

End Upsert.

Lemma upsertOne_user_options_override_upsert_witness :
  In (EvStore "users"
        (UpdateOne (obj [("sku", VStr "A")]) (obj [])
           [("upsert", VBool false); ("invalidateKeys", VStr "k")]))
     (trace_of (@upsertOne demo _ (VStr "user") (obj [("sku", VStr "A")]) (obj [])
                  upsert_false_arg sample_world))
  /\ lit_prop [("upsert", VBool false); ("invalidateKeys", VStr "k")] "upsert"
     = VBool false.
Proof.
  destruct (@upsertOne_user_options_override_upsert demo
              (VStr "user") (obj [("sku", VStr "A")]) (obj []) upsert_false_arg
              sample_world sample_world "users" [] eq_refl)
    as ((op & Hop & Hin) & Hfalse & _).
  - simpl. repeat constructor; simpl; intuition discriminate.
  - split.
    + destruct Hop as [-> | ->]; [|exact Hin].
      vm_compute. left. reflexivity.
    + apply Hfalse. reflexivity.
Defined.

(* ------------------------------------------------------------------ *)
(** ** The public boundary *)

Section Boundary.

Context {P : Platform} {L : Logger}.

Hypothesis Hlogger : logger_returns.

Lemma fail_returns {T} err ctx w :
  exists t, fail (T := T) err ctx w = (Ret (failure err), w, t).
Proof.
  unfold fail, bind, get_world, emit, ret.
  destruct (logger_set w); [rewrite (Hlogger err ctx)|]; simpl; eauto.
Qed.

(** A body under [try { ... } catch (err) { return fail(err, ctx) }]
    returns. *)
Lemma guarded_body_returns {T} (m : M (ApiResponse T)) ctx w :
  exists r w' t, try_catch m (fun err => fail err ctx) w = (Ret r, w', t).
Proof.
  unfold try_catch. destruct (m w) as [[[r|e] w1] t1]; [eauto|].
  destruct (fail_returns (T := T) e ctx w1) as [t2 ->]. eauto.
Qed.

Lemma bind_envelope {T} (m : M (ApiResponse T)) (f : T -> payload) w :
  (exists r w' t, m w = (Ret r, w', t)) ->
  exists r w' t,
    bind m (fun r => ret (envelope_of f r)) w = (Ret (Envelope r), w', t).
Proof.
  intros (r & w' & t & H). unfold bind, ret, envelope_of. rewrite H. eauto.
Qed.

Lemma withTransaction_answers workOrObj txOptions w :
  work_is_function workOrObj -> sessions_reliable ->
  exists r w' t, withTransaction workOrObj txOptions w = (Ret r, w', t).
Proof.
  intros [work Hw] [Hstart Hend]. unfold withTransaction. rewrite Hw.
  unfold bind at 1. simpl.
  unfold bind at 1. unfold call_ext at 1.
  destruct (Hstart (ext w)) as (s & e' & ->).
  unfold bind at 1. rewrite nowMs_run.
  unfold try_finally.
  match goal with
  | |- context [try_catch ?m ?h ?w1] =>
      destruct (guarded_body_returns m "withTransaction" w1)
        as (r & w2 & t2 & ->)
  end.
  unfold bind at 1. simpl. unfold call_ext.
  destruct (Hend s (ext w2)) as (e2 & ->). eauto.
Qed.

(** Every call that answers with an envelope does so, with a logger that
    returns. *)
Lemma envelope_call_returns (c : public_call) (w : World) :
  envelope_call c ->
  exists r w' t, run_public c w = (Ret (Envelope r), w', t).
Proof.
  destruct c; simpl; intro Hc; try contradiction;
    try (apply bind_envelope; apply guarded_body_returns).
  - (* safeQuery *)
    unfold try_catch.
    match goal with
    | |- context [match ?body w with _ => _ end] =>
        assert (forall a w1 t1, body w = (Ret a, w1, t1) -> exists r, a = Envelope r)
          as Hbody
    end.
    { intros a w1 t1. cbv zeta.
      assert (Hforeign :
                (res <- call_back foreign ;;
                 ret (envelope_of PValue (normalize_query res))) w
                = (Ret a, w1, t1) -> exists r, a = Envelope r).
      { unfold bind, call_back, ret.
        destruct (foreign w) as [[[x|e] w2] t2]; intro H;
          inversion H; subst; unfold envelope_of; eauto. }
      destruct fn; try exact Hforeign;
        (destruct (holds_symbol _); [discriminate|]);
        (destruct (lookup_export _) as [e| |]; [| exact Hforeign |];
         [ unfold bind; destruct (run_public (args e) w) as [[[x|e'] w2] t2];
           [|discriminate];
           destruct x; unfold ret; intro H; inversion H; subst; eauto
         | unfold bind;
           match goal with
           | |- context [fail (T := value) ?e ?ctx w] =>
               destruct (fail_returns (T := value) e ctx w) as [t ->]
           end;
           unfold ret; intro H; inversion H; subst; unfold envelope_of; eauto ]). }
    match goal with
    | |- context [match ?body w with _ => _ end] =>
        destruct (body w) as [[[a|e] w1] t1] eqn:E
    end.
    + destruct (Hbody _ _ _ eq_refl) as [r ->]. eauto.
    + unfold bind.
      match goal with
      | |- context [fail (T := value) ?e ?ctx w1] =>
          destruct (fail_returns (T := value) e ctx w1) as [t ->]
      end.
      unfold ret, envelope_of. eauto.
  - (* withTransaction *)
    destruct Hc as [Hw Hs]. apply bind_envelope.
    now apply withTransaction_answers.
  - (* getMetrics *)
    unfold bind, getMetrics, get_world, ret, envelope_of. simpl. eauto.
  - unfold resetMetrics, bind, modify, ret, envelope_of. simpl. eauto.
  - unfold setLogger, bind, modify, ret, envelope_of. simpl. eauto.
  - apply bind_envelope. unfold setModelsDir.
    destruct dir;
      try (destruct (fail_returns (T := Message) (JsError "Directory must be a string")
                       "setModelsDir" w) as [t ->]; eauto).
    unfold bind, modify, ret. simpl. eauto.
  - apply bind_envelope. unfold setCache. destruct _cache as [[c st]|].
    + unfold bind, modify, ret. simpl. eauto.
    + unfold bind at 1. unfold modify at 1.
      match goal with
      | |- context [fail (T := Message) ?e ?ctx ?w1] =>
          destruct (fail_returns (T := Message) e ctx w1) as [t ->]
      end. eauto.
Qed.

End Boundary.

Section BoundaryOfAnyLogger.

Context {P : Platform} {L : Logger}.

(** When the logger throws, [fail] hands on what it threw. *)
Lemma fail_throws {T} err ctx w e :
  logger_set w = true -> logger_call err ctx = Throw e ->
  fail (T := T) err ctx w = (Throw e, w, [EvLog err ctx]).
Proof.
  intros Hset Hthrow. unfold fail, bind, get_world, emit, ret, throw.
  now rewrite Hset, Hthrow.
Qed.

Lemma guarded_fail_throws {T} err ctx ctx' (f : T -> payload) w e :
  logger_set w = true -> (forall err ctx, logger_call err ctx = Throw e) ->
  result_of ((r <- try_catch (fail (T := T) err ctx) (fun e => fail e ctx') ;;
              ret (envelope_of f r)) w)
  = Throw e.
Proof.
  intros Hset Hthrow. unfold bind at 1, try_catch.
  rewrite (fail_throws err ctx w Hset (Hthrow err ctx)).
  now rewrite (fail_throws e ctx' w Hset (Hthrow e ctx')).
Qed.

Lemma guarded_throw_throws {T} (m : M (ApiResponse T)) err ctx' (f : T -> payload)
  w t1 e :
  m w = (Throw err, w, t1) ->
  logger_set w = true -> (forall err ctx, logger_call err ctx = Throw e) ->
  result_of ((r <- try_catch m (fun e => fail e ctx') ;; ret (envelope_of f r)) w)
  = Throw e.
Proof.
  intros Hm Hset Hthrow. unfold bind at 1, try_catch. rewrite Hm.
  now rewrite (fail_throws err ctx' w Hset (Hthrow err ctx')).
Qed.

(** C1, as amended.  With a logger that returns, every public operation
    other than [resolveModel] returns exactly one envelope and neither
    throws nor rejects, whatever its arguments, [withTransaction] when its
    work argument is a function and the session can be opened and released.
    (The cache adapter is taken to answer a lookup with an envelope or
    with nothing; a hit is handed to the caller as it is.)  The logger is
    called without a guard: with an injected logger that throws, an
    operation on a model that is given a model name that is no string
    rejects with what the logger threw.  [resolveModel] does not answer
    with an envelope: it returns the model itself (so for a model of the
    registry) or throws, and it throws on a model name that is not a
    string. *)
Theorem public_operations_return_one_envelope (c : public_call) (w : World) :
  (logger_returns -> envelope_call c ->
   exists r w' t, run_public c w = (Ret (Envelope r), w', t))
  /\ (forall model e,
      crud_model c = Some model -> typeof model <> TString ->
      logger_set w = true -> (forall err ctx, logger_call err ctx = Throw e) ->
      result_of (run_public c w) = Throw e)
  /\ (forall m Model,
      mongoose_models (ext w) (pluralizeName m) = Some Model ->
      run_public (CallResolveModel (VStr m)) w = (Ret (BareModel Model), w, []))
  /\ (forall model,
      (forall s, model <> VStr s) ->
      run_public (CallResolveModel model) w
      = (Throw (JsError "resolveModel: model must be a string"), w, [])).
Proof.
  split; [|split; [|split]].
  - intros Hlog Hc. now apply envelope_call_returns.
  - intros model e Hm Hty Hset Hthrow.
    assert (Hinv : invalid_model model = true).
    { unfold invalid_model. destruct model; simpl in *; try reflexivity;
        try (now rewrite orb_true_r). now elim Hty. }
    assert (Hres : resolveModel model w
                   = (Throw (JsError "resolveModel: model must be a string"), w, [])).
    { destruct model; try reflexivity. now elim Hty. }
    destruct c; try discriminate Hm; cbn [crud_model] in Hm;
      inversion Hm as [E]; clear Hm; rewrite <- E in Hinv, Hres;
      cbn [run_public];
      unfold createOne, createMany, getOne, getMany, getManyWithLimit,
        getManyWithPagination, aggregate, updateOne, updateMany, deleteOne,
        deleteMany, upsertOne, countDocuments, plain_write;
      cbv zeta; rewrite ?Hinv;
      first
        [ destruct (nullish modelOrObj); cbv iota; now apply guarded_fail_throws
        | eapply guarded_throw_throws;
          [apply bind_throw_run; exact Hres | exact Hset | exact Hthrow] ].
  - intros m Model Hreg. cbn [run_public].
    assert (Hres : resolveModel (VStr m) w = (Ret Model, w, []))
      by (unfold resolveModel, bind, get_world; simpl; now rewrite Hreg).
    unfold bind. rewrite Hres. reflexivity.
  - intros model Hns. simpl. unfold bind.
    destruct model; try reflexivity. now elim (Hns s).
Qed.

End BoundaryOfAnyLogger.

(** The same for the logger that returns. *)
Lemma fail_run {P : Platform} {T} err ctx w :
  exists t, fail (T := T) err ctx w = (Ret (failure err), w, t).
Proof. apply fail_returns. intros e c. reflexivity. Qed.

Lemma try_catch_fail_returns {P : Platform} {T} (m : M (ApiResponse T)) ctx w :
  exists r w' t, try_catch m (fun err => fail err ctx) w = (Ret r, w', t).
Proof. apply guarded_body_returns. intros e c. reflexivity. Qed.

(** C1 as stated fails: [resolveModel] throws on a model name that is not
    a string, [withTransaction] rejects when its work argument is not a
    function, and an operation that fails rejects when the injected logger
    throws. *)
Lemma public_boundary_throws :
  result_of (@run_public demo _ (CallResolveModel (VNum 5)) sample_world)
  = Throw (JsError "resolveModel: model must be a string")
  /\ result_of (@run_public demo _
                  (CallWithTransaction (Positional (NotFn (VStr "not a function"))) None)
                  sample_world)
     = Throw (JsError "withTransaction: work must be a function")
  /\ result_of (@run_public demo failing_logger
                  (CallUpdateMany (VNum 5) VUndef VUndef VUndef) logging_world)
     = Throw (JsError "logger down").
Proof.
  split; [|split]; reflexivity.
Qed.

Lemma public_operations_return_one_envelope_witness :
  (exists r w' t,
      @run_public demo _ (CallUpdateMany (VNum 5) VUndef VUndef VUndef) sample_world
      = (Ret (Envelope r), w', t))
  /\ (exists r w' t,
      @run_public demo _
        (CallWithTransaction (Positional (Fn failing_work)) (Some (retries 2)))
        sample_world
      = (Ret (Envelope r), w', t))
  /\ result_of (@run_public demo failing_logger
                  (CallDeleteMany (VNum 5) VUndef VUndef) logging_world)
     = Throw (JsError "logger down")
  /\ @run_public demo _ (CallResolveModel (VStr "user")) sample_world
     = (Ret (@BareModel demo "users"), sample_world, [])
  /\ @run_public demo _ (CallResolveModel VNull) sample_world
     = (Throw (JsError "resolveModel: model must be a string"), sample_world, []).
Proof.
  split; [|split; [|split; [|split]]].
  - apply (@public_operations_return_one_envelope demo quiet_logger
             (CallUpdateMany (VNum 5) VUndef VUndef VUndef) sample_world).
    + intros err ctx. reflexivity.
    + exact I.
  - apply (@public_operations_return_one_envelope demo quiet_logger
             (CallWithTransaction (Positional (Fn failing_work)) (Some (retries 2)))
             sample_world).
    + intros err ctx. reflexivity.
    + split; [eexists; reflexivity|]. split.
      * intro e. exists tt, e. reflexivity.
      * intros [] e. exists e. reflexivity.
  - destruct (@public_operations_return_one_envelope demo failing_logger
                (CallDeleteMany (VNum 5) VUndef VUndef) logging_world)
      as (_ & H & _).
    apply (H (VNum 5) (JsError "logger down")).
    + reflexivity.
    + discriminate.
    + reflexivity.
    + intros err ctx. reflexivity.
  - destruct (@public_operations_return_one_envelope demo quiet_logger
                (CallResolveModel (VStr "user")) sample_world) as (_ & _ & H & _).
    apply (H "user" "users"). reflexivity.
  - destruct (@public_operations_return_one_envelope demo quiet_logger
                (CallResolveModel VNull) sample_world) as (_ & _ & _ & H).
    apply (H VNull). discriminate.
Defined.

(* ------------------------------------------------------------------ *)
(** ** Cache wrapper *)

Section CacheWrapper.

Context {P : Platform}.

(** The run of [withCache] on a miss, with caching enabled and no explicit
    key, on the working adapter. *)
Lemma withCache_miss_run fnName args o runFn w fails k res w1 t1 :
  cache w = memCache fails ->
  truthy (match enabled o with VUndef => VBool true | e => e end) = true ->
  nullish (key o) = true ->
  buildCacheKey fnName args = ok k ->
  mem_lookup (VStr k) (cstore w) = None ->
  runFn w = (Ret res, w1, t1) ->
  cache w1 = cache w ->
  let cacheIf := match cacheIf o with Some f => f | None => fun r => status r end in
  let normalizedTTL :=
    normalizeTTL (match ttl o with VUndef => VNum DEFAULT_TTL | t => t end) in
  let normalized := normalize res in
  withCache fnName args (Some o) runFn w
  = (Ret normalized,
     (if cacheIf normalized
      then set_cstore ((VStr k, (normalized, normalizedTTL))
                         :: mem_remove (VStr k) (cstore w1)) w1
      else w1),
     [EvCacheGet (VStr k); EvProducer; EvCallback t1]
       ++ (if cacheIf normalized
           then [EvCachePut (VStr k) normalized normalizedTTL] else []))%list.
Proof.
  intros Hc Hen Hkey Hk Hmiss Hrun Hc1 cacheIf' normalizedTTL normalized.
  unfold withCache. rewrite Hen, Hkey, Hk. simpl negb. cbv iota.
  eapply bind_eq; [apply (adapter_get_mem _ _ Hc) | | reflexivity].
  rewrite Hmiss.
  eapply bind_eq; [apply (run_producer_run _ _ Hrun) | | reflexivity].
  fold normalized. fold cacheIf'. fold normalizedTTL.
  destruct (cacheIf' normalized).
  - eapply bind_eq; [apply (@adapter_put_mem _ _ _ _ _ fails); congruence
                    | reflexivity | reflexivity].
  - reflexivity.
Qed.

(** The run of [withCache] on a hit. *)
Lemma withCache_hit_run fnName args o runFn w fails k h :
  cache w = memCache fails ->
  truthy (match enabled o with VUndef => VBool true | e => e end) = true ->
  nullish (key o) = true ->
  buildCacheKey fnName args = ok k ->
  mem_lookup (VStr k) (cstore w) = Some h ->
  withCache fnName args (Some o) runFn w = (Ret h, w, [EvCacheGet (VStr k)]).
Proof.
  intros Hc Hen Hkey Hk Hhit.
  unfold withCache. rewrite Hen, Hkey, Hk. simpl negb. cbv iota.
  eapply bind_eq; [apply (adapter_get_mem _ _ Hc) | | reflexivity].
  rewrite Hhit. reflexivity.
Qed.

Lemma same_value_str k : same_value (VStr k) (VStr k) = true.
Proof. simpl. apply String.eqb_refl. Qed.

(** On a miss the producer is called once, whatever it answers. *)
Lemma withCache_miss_calls_producer fnName args o runFn w fails k :
  cache w = memCache fails ->
  truthy (match enabled o with VUndef => VBool true | e => e end) = true ->
  nullish (key o) = true ->
  buildCacheKey fnName args = ok k ->
  mem_lookup (VStr k) (cstore w) = None ->
  producer_calls (trace_of (withCache fnName args (Some o) runFn w)) = 1%nat.
Proof.
  intros Hc Hen Hkey Hk Hmiss.
  unfold withCache. rewrite Hen, Hkey, Hk. cbn [negb status].
  rewrite trace_bind, (adapter_get_mem _ _ Hc).
  cbn [result_of world_of trace_of fst snd]. rewrite Hmiss.
  rewrite trace_bind.
  destruct (runFn w) as [[r w1] t1] eqn:Hrun.
  rewrite (run_producer_run _ _ Hrun).
  cbn [result_of world_of trace_of fst snd].
  destruct r as [res|e]; [|reflexivity].
  rewrite trace_bind.
  match goal with
  | |- context [if ?c then _ else _] => destruct c
  end.
  - rewrite trace_adapter_put.
    destruct (result_of (adapter_put _ _ _ w1)); reflexivity.
  - reflexivity.
Qed.

(** C2, as amended.  With caching enabled, no explicit key, a key that can
    be built from [(opName, args)], a working adapter that holds nothing
    under that key, and a producer that answers and leaves the cache alone:
    the first call invokes the producer once and returns its result
    normalised to an envelope; [cacheIf] (by default: status is true) is
    evaluated on that envelope, and exactly when it holds the envelope is
    stored under the key with the normalised TTL.  When it was stored, a
    second call returns an equal envelope without invoking the producer,
    which has then been invoked exactly once over the two calls; when it
    was not stored, nothing is put and the second call invokes the producer
    again. *)
Theorem withCache_read_through fnName args o runFn w fails k res w1 t1 :
  cache w = memCache fails ->
  truthy (match enabled o with VUndef => VBool true | e => e end) = true ->
  nullish (key o) = true ->
  buildCacheKey fnName args = ok k ->
  mem_lookup (VStr k) (cstore w) = None ->
  runFn w = (Ret res, w1, t1) ->
  cache w1 = cache w ->
  cstore w1 = cstore w ->
  let cacheIf := match cacheIf o with Some f => f | None => fun r => status r end in
  let normalizedTTL :=
    normalizeTTL (match ttl o with VUndef => VNum DEFAULT_TTL | t => t end) in
  let normalized := normalize res in
  let first := withCache fnName args (Some o) runFn w in
  let second := withCache fnName args (Some o) runFn (world_of first) in
  result_of first = Ret normalized
  /\ producer_calls (trace_of first) = 1%nat
  /\ (cacheIf normalized = true ->
      In (EvCachePut (VStr k) normalized normalizedTTL) (trace_of first)
      /\ cstore (world_of first)
         = (VStr k, (normalized, normalizedTTL)) :: mem_remove (VStr k) (cstore w)
      /\ result_of second = Ret normalized
      /\ producer_calls (List.app (trace_of first) (trace_of second)) = 1%nat)
  /\ (cacheIf normalized = false ->
      cstore (world_of first) = cstore w
      /\ (forall v ttlMs, ~ In (EvCachePut (VStr k) v ttlMs) (trace_of first))
      /\ producer_calls (List.app (trace_of first) (trace_of second)) = 2%nat).
Proof.
  intros Hc Hen Hkey Hk Hmiss Hrun Hc1 Hs1 cacheIf' normalizedTTL normalized
         first second.
  pose proof (withCache_miss_run fnName args o runFn w Hc Hen Hkey Hk Hmiss Hrun Hc1)
    as Hfirst.
  cbv zeta in Hfirst. fold cacheIf' normalizedTTL normalized in Hfirst.
  fold first in Hfirst.
  assert (Hcalls : producer_calls (trace_of first) = 1%nat).
  { apply (withCache_miss_calls_producer fnName args o runFn w Hc Hen Hkey Hk Hmiss). }
  split; [now rewrite Hfirst|]. split; [exact Hcalls|]. split.
  - intro Hif. rewrite Hif in Hfirst.
    assert (Hw : world_of first
                 = set_cstore ((VStr k, (normalized, normalizedTTL))
                                 :: mem_remove (VStr k) (cstore w1)) w1)
      by now rewrite Hfirst.
    assert (Hsecond : second = (Ret normalized, world_of first, [EvCacheGet (VStr k)])).
    { unfold second.
      apply (@withCache_hit_run fnName args o runFn (world_of first) fails k normalized);
        auto.
      - rewrite Hw. simpl. congruence.
      - rewrite Hw. simpl. now rewrite String.eqb_refl. }
    repeat split.
    + rewrite Hfirst. simpl. auto.
    + rewrite Hw. simpl. now rewrite Hs1.
    + now rewrite Hsecond.
    + rewrite producer_calls_app, Hcalls, Hsecond. reflexivity.
  - intro Hif. rewrite Hif in Hfirst.
    assert (Hw : world_of first = w1) by now rewrite Hfirst.
    repeat split.
    + now rewrite Hw.
    + intros v ttlMs. rewrite Hfirst. simpl. intuition discriminate.
    + rewrite producer_calls_app, Hcalls. unfold second. rewrite Hw.
      rewrite (@withCache_miss_calls_producer fnName args o runFn w1 fails k);
        auto; congruence.
Qed.

(** With an explicit string key the adapter is asked for [undefined]:
    [k] is the string itself and [k.data] is not a property of a string. *)
Lemma withCache_string_key_lookup fnName args s t c (runFn : callback produced) w :
  exists rest,
    trace_of (withCache fnName args (Some (mkCacheOptions (VBool true) (VStr s) t c))
                runFn w)
    = EvCacheGet VUndef :: rest.
Proof.
  unfold withCache. cbn [enabled key truthy negb nullish get_prop].
  rewrite trace_bind, trace_adapter_get. simpl. eauto.
Qed.

(** The cache wrapper never writes the metrics: they are what the producer
    left. *)
Lemma withCache_keeps_metrics fnName args cacheOpts (runFn : callback produced) :
  keeps_metrics runFn -> keeps_metrics (withCache fnName args cacheOpts runFn).
Proof.
  intro Hrun. unfold withCache.
  repeat match goal with
         | |- keeps_metrics (if ?c then _ else _) => destruct c
         | |- keeps_metrics (bind _ _) => apply keeps_bind; [|intros ?]
         | |- keeps_metrics (match ?h with Some _ => _ | None => _ end) => destruct h
         | |- keeps_metrics (ret _) => apply keeps_ret
         | |- keeps_metrics (run_producer _) => now apply keeps_run_producer
         | |- keeps_metrics (adapter_get _) => apply keeps_adapter_get
         | |- keeps_metrics (adapter_put _ _ _) => apply keeps_adapter_put
         end.
Qed.

End CacheWrapper.

Lemma withCache_read_through_witness :
  result_of (@withCache demo "getOne" sample_args (Some (unkeyed (VStr "1m")))
               (bare_producer (VNum 42)) sample_world)
  = Ret (ok (VNum 42))
  /\ cstore (world_of (@withCache demo "getOne" sample_args (Some (unkeyed (VStr "1m")))
                         (bare_producer (VNum 42)) sample_world))
     = [(VStr "getOne:users:1bkklkz", (ok (VNum 42), 60000))].
Proof.
  destruct (@withCache_read_through demo "getOne" sample_args (unkeyed (VStr "1m"))
              (bare_producer (VNum 42)) sample_world (fun _ => false)
              "getOne:users:1bkklkz" (Bare (VNum 42)) sample_world []
              eq_refl eq_refl eq_refl eq_refl eq_refl eq_refl eq_refl eq_refl)
    as (H1 & _ & H3 & _).
  split; [exact H1|].
  destruct (H3 eq_refl) as (_ & Hst & _). exact Hst.
Defined.

(** C2 as stated fails: a producer that answers with a failure envelope is
    invoked by each of two successive calls, since the default [cacheIf]
    does not let a failure be stored. *)
Lemma withCache_failure_not_cached :
  buildCacheKey "getOne" sample_args = ok "getOne:users:1bkklkz"
  /\ producer_calls
       (List.app (trace_of (first_read (unkeyed VUndef) failing_producer))
                 (trace_of (second_read (unkeyed VUndef) failing_producer)))
     = 2%nat.
Proof.
  split; vm_compute; reflexivity.
Qed.

(** C3, the code at an explicit key.  With [cacheOpts.key] the string
    ["orders:paid:list:v1"], the lookup and the store are made under
    [undefined], not under that string; a later read of other arguments
    with another explicit key is then answered with that entry, and its
    producer is not run. *)
Theorem withCache_explicit_key_dropped :
  trace_of (first_read (keyed "orders:paid:list:v1") (bare_producer (VNum 42)))
  = [EvCacheGet VUndef; EvProducer; EvCallback [];
     EvCachePut VUndef (ok (VNum 42)) 60000]
  /\ cstore (world_of (first_read (keyed "orders:paid:list:v1")
                         (bare_producer (VNum 42))))
     = [(VUndef, (ok (VNum 42), 60000))]
  /\ @withCache demo "getMany" [VStr "products"] (Some (keyed "products:active"))
       (bare_producer (VNum 7))
       (world_of (first_read (keyed "orders:paid:list:v1") (bare_producer (VNum 42))))
     = (Ret (ok (VNum 42)),
        world_of (first_read (keyed "orders:paid:list:v1") (bare_producer (VNum 42))),
        [EvCacheGet VUndef]).
Proof.
  repeat split.
Qed.

(** C4, the code on a miss and on a hit.  A first read misses and stores
    its envelope, a second one hits, and the counters [hits], [misses] and
    [puts] are still zero after each of them. *)
Theorem withCache_counters_untouched :
  trace_of (first_read (unkeyed VUndef) (bare_producer (VNum 42)))
  = [EvCacheGet (VStr "getOne:users:1bkklkz"); EvProducer; EvCallback [];
     EvCachePut (VStr "getOne:users:1bkklkz") (ok (VNum 42)) 60000]
  /\ Metrics.cache (METRICS (world_of (first_read (unkeyed VUndef)
                                         (bare_producer (VNum 42)))))
     = Metrics.mkCounters 0 0 0 0
  /\ trace_of (second_read (unkeyed VUndef) (bare_producer (VNum 42)))
     = [EvCacheGet (VStr "getOne:users:1bkklkz")]
  /\ Metrics.cache (METRICS (world_of (second_read (unkeyed VUndef)
                                         (bare_producer (VNum 42)))))
     = Metrics.mkCounters 0 0 0 0.
Proof.
  repeat split.
Qed.

(* ------------------------------------------------------------------ *)
(** ** Transactions *)

Section Transactions.

Context {P : Platform}.

Variables (work : work_fn) (session : Session) (txnOptions : SessionOptions).
Variables (maxRetries startTime start : Z).

Lemma trace_try_catch_eq {A} (m : M A) h w :
  trace_of (try_catch m h w)
  = List.app (trace_of (m w))
      (match result_of (m w) with
       | Throw e => trace_of (h e (world_of (m w)))
       | Ret _ => []
       end).
Proof.
  unfold try_catch, trace_of, result_of, world_of.
  destruct (m w) as [[[a|e] w1] t1]; simpl.
  - now rewrite app_nil_r.
  - destruct (h e w1) as [[r w2] t2]. reflexivity.
Qed.

Lemma recordDb_run opName st w :
  exists w', _recordDb opName st w = (Ret tt, w', []) /\ ext w' = ext w.
Proof.
  unfold _recordDb. destruct (st =? 0); [now exists w|].
  unfold bind, _nowNs, _nowMs, get_world, ret, modify. simpl. eauto.
Qed.

Lemma call_back_run {A} (f : callback A) w r w1 t1 :
  f w = (r, w1, t1) -> call_back f w = (r, w1, [EvCallback t1]).
Proof.
  intro H. unfold call_back. now rewrite H.
Qed.

Lemma tx_attempt_throw now w e w1 t1 :
  work session w = (Throw e, w1, t1) ->
  tx_attempt work session txnOptions start now w
  = (Throw e, w1, [EvTransaction now txnOptions; EvCallback t1]).
Proof.
  intro H. unfold tx_attempt.
  eapply bind_eq; [reflexivity | | reflexivity].
  apply bind_throw_run. now apply call_back_run.
Qed.

Lemma tx_attempt_ret now w v w1 t1 :
  work session w = (Ret v, w1, t1) ->
  exists w2,
    tx_attempt work session txnOptions start now w
    = (Ret v, w2, [EvTransaction now txnOptions; EvCallback t1])
    /\ ext w2 = ext w1.
Proof.
  intro H. destruct (recordDb_run "withTransaction" start w1) as (w2 & Hr & Hext).
  exists w2. split; [|exact Hext]. unfold tx_attempt.
  eapply bind_eq; [reflexivity | | reflexivity].
  eapply bind_eq; [apply (call_back_run _ _ H) | | reflexivity].
  eapply bind_eq; [exact Hr | reflexivity | reflexivity].
Qed.

(** One attempt: its trace, and what becomes of the outcome of the work. *)
Lemma tx_attempt_run now w :
  trace_of (tx_attempt work session txnOptions start now w)
  = [EvTransaction now txnOptions; EvCallback (trace_of (work session w))]
  /\ match result_of (work session w) with
     | Throw e =>
         result_of (tx_attempt work session txnOptions start now w) = Throw e
         /\ world_of (tx_attempt work session txnOptions start now w)
            = world_of (work session w)
     | Ret v =>
         result_of (tx_attempt work session txnOptions start now w) = Ret v
         /\ ext (world_of (tx_attempt work session txnOptions start now w))
            = ext (world_of (work session w))
     end.
Proof.
  destruct (work session w) as [[[v|e] w1] t1] eqn:H.
  - destruct (tx_attempt_ret now H) as (w2 & -> & Hext). repeat split; assumption.
  - rewrite (tx_attempt_throw now H). repeat split.
Qed.

Lemma tx_loop_step fuel attempt w :
  tx_loop fuel work session txnOptions maxRetries startTime start attempt w
  = if (attempt >=? maxAttempts) || (date_now (ext w) - startTime >? maxDurationMs)
    then (Throw (JsError retry_limit_message), w, [])
    else
      try_catch
        (tx_attempt work session txnOptions start (date_now (ext w)))
        (fun err =>
           if attempt <? maxRetries then
             match fuel with
             | S fuel' =>
                 tx_loop fuel' work session txnOptions maxRetries
                         startTime start (attempt + 1)
             | O => throw (JsError "unreachable")
             end
           else throw err) w.
Proof.
  destruct fuel; simpl; unfold bind at 1; rewrite nowMs_run;
    destruct ((attempt >=? maxAttempts)
              || (date_now (ext w) - startTime >? maxDurationMs));
    try reflexivity;
    match goal with
    | |- (let (_, _) := ?X in _) = _ => destruct X as [[? ?] ?]; reflexivity
    end.
Qed.

Lemma attempts_app t1 t2 :
  attempts (List.app t1 t2) = (attempts t1 + attempts t2)%nat.
Proof.
  unfold attempts. now rewrite filter_app, length_app.
Qed.

Lemma attempts_attempt now t rest :
  attempts (List.app [EvTransaction now txnOptions; EvCallback t] rest)
  = S (attempts rest).
Proof. reflexivity. Qed.

(** The loop makes at most [10 - attempt] attempts. *)
Lemma tx_loop_attempts fuel : forall attempt w,
  0 <= attempt ->
  (attempts (trace_of (tx_loop fuel work session txnOptions maxRetries
                         startTime start attempt w))
   <= Z.to_nat (maxAttempts - attempt))%nat.
Proof.
  unfold maxAttempts.
  induction fuel as [|fuel IH]; intros attempt w Hpos; rewrite tx_loop_step;
    unfold maxAttempts.
  all: destruct (Z.geb_spec attempt 10) as [Hge|Hlt]; simpl orb;
    [change (attempts (trace_of _)) with 0%nat; lia|].
  all: destruct (date_now (ext w) - startTime >? maxDurationMs);
    [change (attempts (trace_of _)) with 0%nat; lia|].
  all: rewrite trace_try_catch_eq.
  all: destruct (tx_attempt_run (date_now (ext w)) w) as [Htr _]; rewrite Htr.
  all: rewrite attempts_attempt.
  all: destruct (result_of (tx_attempt work session txnOptions start
                              (date_now (ext w)) w)) as [v|e];
    [change (attempts []) with 0%nat; lia|].
  all: destruct (attempt <? maxRetries);
    [|change (attempts (trace_of _)) with 0%nat; lia].
  - change (attempts (trace_of _)) with 0%nat. lia.
  - assert (H1 : 0 <= attempt + 1) by lia.
    specialize (IH (attempt + 1)
                   (world_of (tx_attempt work session txnOptions start
                                (date_now (ext w)) w)) H1).
    lia.
Qed.

(** No attempt starts after the deadline. *)
Lemma tx_loop_deadline fuel : forall attempt w,
  Forall (started_in_time startTime)
         (trace_of (tx_loop fuel work session txnOptions maxRetries
                      startTime start attempt w)).
Proof.
  induction fuel as [|fuel IH]; intros attempt w; rewrite tx_loop_step.
  all: destruct (attempt >=? maxAttempts); simpl orb; [constructor|].
  all: destruct (Z.gtb_spec (date_now (ext w) - startTime) maxDurationMs)
    as [Hgt|Hle]; [constructor|].
  all: rewrite trace_try_catch_eq.
  all: destruct (tx_attempt_run (date_now (ext w)) w) as [Htr _]; rewrite Htr.
  all: apply Forall_app; split; [repeat constructor; exact Hle|].
  all: destruct (result_of (tx_attempt work session txnOptions start
                              (date_now (ext w)) w)) as [v|e]; [constructor|].
  all: destruct (attempt <? maxRetries); [|constructor].
  - constructor.
  - apply IH.
Qed.

(** While the deadline is not reached, a persistently failing work is run
    once more for every retry that is left, and its error is thrown. *)
Lemma tx_loop_persistent_failure err d :
  fails_within work session err d -> 0 <= d ->
  0 <= maxRetries < maxAttempts ->
  (maxRetries + 1) * d <= maxDurationMs ->
  forall k attempt fuel w,
    Z.of_nat k = maxRetries - attempt ->
    0 <= attempt ->
    (Z.to_nat (maxRetries - attempt) <= fuel)%nat ->
    date_now (ext w) - startTime <= attempt * d ->
    attempts (trace_of (tx_loop fuel work session txnOptions maxRetries
                          startTime start attempt w))
    = S k
    /\ result_of (tx_loop fuel work session txnOptions maxRetries
                    startTime start attempt w)
       = Throw err.
Proof.
  intros Hfail Hd Hmax Hbudget. unfold maxAttempts, maxDurationMs in *.
  induction k as [|k IH]; intros attempt fuel w Hk Hpos Hfuel Hclock;
    rewrite tx_loop_step; unfold maxAttempts, maxDurationMs.
  all: destruct (Z.geb_spec attempt 10) as [Hge|_]; [lia|].
  all: destruct (Z.gtb_spec (date_now (ext w) - startTime) 30000) as [Hgt|_];
    [nia|].
  all: simpl orb; cbv iota.
  all: destruct (Hfail w) as (w' & t & Hw & Ht).
  all: unfold try_catch; rewrite (tx_attempt_throw (date_now (ext w)) Hw).
  - destruct (Z.ltb_spec attempt maxRetries) as [Hlt|_]; [lia|].
    split; reflexivity.
  - destruct (Z.ltb_spec attempt maxRetries) as [_|Hnlt]; [|lia].
    destruct fuel as [|fuel]; [lia|].
    destruct (IH (attempt + 1) fuel w') as [IHa IHr]; try lia; try nia.
    destruct (tx_loop fuel work session txnOptions maxRetries startTime start
                (attempt + 1) w') as [[r2 w2] t2].
    unfold trace_of, result_of in *. cbn [fst snd] in *.
    split; [|exact IHr].
    rewrite attempts_attempt. now rewrite IHa.
Qed.

(** More fuel than attempts are left changes nothing: the last branch of
    the loop is never taken. *)
Lemma tx_loop_fuel fuel : forall fuel' attempt w,
  0 <= attempt ->
  (Z.to_nat (maxAttempts - attempt) <= fuel)%nat ->
  (Z.to_nat (maxAttempts - attempt) <= fuel')%nat ->
  tx_loop fuel work session txnOptions maxRetries startTime start attempt w
  = tx_loop fuel' work session txnOptions maxRetries startTime start attempt w.
Proof.
  unfold maxAttempts.
  induction fuel as [|fuel IH]; intros fuel' attempt w Hpos Hf Hf';
    rewrite !tx_loop_step; unfold maxAttempts.
  all: destruct (Z.geb_spec attempt 10) as [Hge|Hlt]; simpl orb; [reflexivity|].
  all: destruct (date_now (ext w) - startTime >? maxDurationMs); [reflexivity|].
  all: unfold try_catch.
  all: destruct (tx_attempt work session txnOptions start (date_now (ext w)) w)
    as [[[v|e] w1] t1]; [reflexivity|].
  all: destruct (attempt <? maxRetries); [|reflexivity].
  - lia.
  - destruct fuel' as [|fuel']; [lia|].
    rewrite (IH fuel' (attempt + 1) w1); [reflexivity | lia | lia | lia].
Qed.

End Transactions.

Section WithTransaction.

Context {P : Platform}.

Lemma trace_try_finally {A} (m : M A) fin w :
  trace_of (try_finally m fin w)
  = List.app (trace_of (m w)) (trace_of (fin (world_of (m w)))).
Proof.
  unfold try_finally, trace_of, world_of.
  destruct (m w) as [[r w1] t1]. simpl.
  destruct (fin w1) as [[[u|e] w2] t2]; reflexivity.
Qed.

Lemma trace_end_session s w :
  trace_of ((emit EvEndSession ;;; call_ext (endSession s)) w) = [EvEndSession].
Proof.
  unfold bind, emit, call_ext, trace_of. simpl.
  destruct (endSession s (ext w)) as [r e']. reflexivity.
Qed.

Lemma bind_nowNs {A} (f : Z -> M A) w :
  bind _nowNs f w = f (date_now (ext w) * 1000000) w.
Proof.
  unfold bind. rewrite nowNs_run. destruct (f _ w) as [[r w1] t1]. reflexivity.
Qed.

Lemma end_session_run s w :
  exists r w', (emit EvEndSession ;;; call_ext (endSession s)) w
               = (r, w', [EvEndSession])
               /\ ((forall e, exists e', endSession s e = (Ret tt, e')) -> r = Ret tt).
Proof.
  unfold bind, emit, call_ext.
  destruct (endSession s (ext w)) as [r e'] eqn:E.
  exists r. eexists. split; [destruct r; reflexivity|].
  intro H. destruct (H (ext w)) as [e2 H2]. congruence.
Qed.

(** The shape of a run of [withTransaction] once the session is open. *)
Lemma withTransaction_eq workOrObj txOptions w work s e1 :
  work_of workOrObj = Fn work ->
  startSession (ext w) = (Ret s, e1) ->
  let o := resolved_options workOrObj txOptions in
  let loop := transaction_loop work s o e1 w in
  exists r_end w3 logs,
    withTransaction workOrObj txOptions w
    = (match r_end with
       | Ret _ => Ret (match result_of loop with
                       | Ret v => ok v
                       | Throw e => failure e
                       end)
       | Throw e => Throw e
       end,
       w3,
       EvStartSession :: List.app (List.app (trace_of loop) logs) [EvEndSession])
    /\ Forall is_log logs
    /\ ((forall e, exists e', endSession s e = (Ret tt, e')) -> r_end = Ret tt).
Proof.
  intros Hw Hs o loop. unfold withTransaction. rewrite Hw. fold o.
  unfold bind at 1. cbn [emit].
  unfold bind at 1. unfold call_ext at 1. rewrite Hs.
  unfold bind at 1. rewrite nowMs_run. cbn [ext].
  unfold try_finally, try_catch. rewrite bind_nowNs. cbn [ext].
  change (tx_loop 10 work s (session_options o) (retries_of o) (date_now e1)
            (date_now e1 * 1000000) 0)
    with (fun w' : World =>
            tx_loop 10 work s (session_options o) (retries_of o) (date_now e1)
              (date_now e1 * 1000000) 0 w').
  unfold bind at 1.
  change (tx_loop 10 work s (session_options o) (retries_of o) (date_now e1)
            (date_now e1 * 1000000) 0
            {| ext := e1; cache := cache w; cstore := cstore w;
               logger_set := logger_set w; METRICS := METRICS w;
               MODELS_DIR := MODELS_DIR w |})
    with loop.
  destruct loop as [[[v|e] w2] t2]; unfold ret; cbn [result_of trace_of fst snd].
  - destruct (end_session_run s w2) as (r & w3 & -> & Hr).
    exists r, w3, []. split; [|split].
    + destruct r; simpl; now rewrite !app_nil_r.
    + constructor.
    + exact Hr.
  - destruct (fail_run (T := value) e "withTransaction" w2) as [t Hf].
    rewrite Hf.
    destruct (end_session_run s w2) as (r & w3 & -> & Hr).
    exists r, w3, t. split; [|split].
    + destruct r; simpl; reflexivity.
    + unfold fail, bind, get_world, emit, ret in Hf.
      destruct (logger_set w2); inversion Hf; subst; repeat constructor.
    + exact Hr.
Qed.

Lemma attempts_logs logs : Forall is_log logs -> attempts logs = 0%nat.
Proof.
  induction 1 as [|ev l Hev _ IH]; [reflexivity|].
  destruct ev; try contradiction. exact IH.
Qed.

Lemma logs_in_time t0 logs : Forall is_log logs -> Forall (started_in_time t0) logs.
Proof.
  induction 1 as [|ev l Hev _ IH]; constructor; [|exact IH].
  destruct ev; try contradiction. exact I.
Qed.

(** C5, as amended.  Once its session is open, [withTransaction] runs a
    bounded retry loop: whatever [maxCommitRetries] the caller supplies it
    makes at most 10 attempts, and it starts no attempt once more than
    30000 ms have elapsed since the loop started (an attempt that is
    running is not cut short, so the elapsed time itself is not bounded);
    the session is released as the last step on every outcome.  With
    [maxCommitRetries = n], [0 <= n <= 9] (so with 2), a work function
    that fails persistently, fast enough for the deadline not to be
    reached, is run [n + 1] times, that is retried exactly [n] times, and a
    failure envelope carrying its error is returned. *)
Theorem withTransaction_bounded_retry workOrObj txOptions w work s e1 :
  work_of workOrObj = Fn work ->
  startSession (ext w) = (Ret s, e1) ->
  let o := resolved_options workOrObj txOptions in
  let run := withTransaction workOrObj txOptions w in
  (attempts (trace_of run) <= 10)%nat
  /\ Forall (started_in_time (date_now e1)) (trace_of run)
  /\ (exists t, trace_of run = EvStartSession :: List.app t [EvEndSession])
  /\ (forall err d,
        fails_within work s err d -> 0 <= d ->
        0 <= retries_of o <= 9 ->
        (retries_of o + 1) * d <= 30000 ->
        (forall e, exists e', endSession s e = (Ret tt, e')) ->
        attempts (trace_of run) = S (Z.to_nat (retries_of o))
        /\ result_of run = Ret (failure err)).
Proof.
  intros Hw Hs o run.
  destruct (withTransaction_eq workOrObj txOptions w Hw Hs)
    as (r_end & w3 & logs & Hrun & Hlogs & Hend).
  fold o in Hrun. fold run in Hrun.
  set (loop := transaction_loop work s o e1 w) in *.
  assert (Htrace : trace_of run
                   = EvStartSession
                       :: List.app (List.app (trace_of loop) logs) [EvEndSession])
    by now rewrite Hrun.
  assert (Hatt : attempts (trace_of run) = attempts (trace_of loop)).
  { rewrite Htrace.
    change (attempts (EvStartSession :: ?l)) with (attempts l).
    rewrite !attempts_app, (attempts_logs Hlogs).
    change (attempts [EvEndSession]) with 0%nat. lia. }
  split; [|split; [|split]].
  - rewrite Hatt. unfold loop, transaction_loop.
    pose proof (@tx_loop_attempts P work s (session_options o) (retries_of o)
                  (date_now e1) (date_now e1 * 1000000) 10 0 (set_ext e1 w)) as H.
    unfold maxAttempts in H. apply H. lia.
  - rewrite Htrace. constructor; [exact I|].
    apply Forall_app; split; [apply Forall_app; split|].
    + apply tx_loop_deadline.
    + now apply logs_in_time.
    + repeat constructor.
  - rewrite Htrace. eauto.
  - intros err d Hfail Hd Hn Hbudget Hrel.
    assert (Hmax : 0 <= retries_of o < maxAttempts) by (unfold maxAttempts; lia).
    assert (Hb : (retries_of o + 1) * d <= maxDurationMs)
      by (unfold maxDurationMs; lia).
    destruct (@tx_loop_persistent_failure P work s (session_options o) (retries_of o)
                (date_now e1) (date_now e1 * 1000000) err d Hfail Hd Hmax Hb
                (Z.to_nat (retries_of o)) 0 10%nat (set_ext e1 w)) as [Ha Hr].
    + lia.
    + lia.
    + lia.
    + simpl. lia.
    + fold (transaction_loop work s o e1 w) in Ha, Hr. fold loop in Ha, Hr.
      split; [now rewrite Hatt|].
      rewrite Hrun. cbn [result_of fst]. rewrite (Hend Hrel), Hr. reflexivity.
Qed.

End WithTransaction.

Lemma withTransaction_bounded_retry_witness :
  attempts (trace_of quick_transaction) = 3%nat
  /\ result_of quick_transaction = Ret (failure (JsError "boom")).
Proof.
  destruct (@withTransaction_bounded_retry demo
              (Positional (Fn failing_work)) (Some (retries 2)) sample_world
              failing_work tt 1000 eq_refl eq_refl) as (_ & _ & _ & H).
  apply (H (JsError "boom") 2).
  - intro w. exists (@set_ext demo (@ext demo w + 2) w), []. split; [reflexivity|].
    change (@ext demo w + 2 <= @ext demo w + 2). lia.
  - lia.
  - change (0 <= 2 <= 9). lia.
  - change ((2 + 1) * 2 <= 30000). lia.
  - intro e. exists e. reflexivity.
Defined.

(** C5 as stated fails: with [maxCommitRetries = 2], a work function that
    fails after 20 seconds is retried once, not twice, and 40000 ms have
    elapsed when the failure envelope is returned. *)
Lemma withTransaction_deadline_is_checked_between_attempts :
  attempts (trace_of slow_transaction) = 2%nat
  /\ result_of slow_transaction = Ret (failure (JsError retry_limit_message))
  /\ @date_now demo (@ext demo (world_of slow_transaction))
     - @date_now demo (@ext demo sample_world) = 40000.
Proof.
  repeat split.
Qed.

(* ------------------------------------------------------------------ *)
(** ** Invalidation *)

Section Invalidation.

Context {P : Platform}.

Variable fails : value -> bool.

Lemma same_but_store_refl w : same_but_store w w.
Proof. repeat split. Qed.

Lemma same_but_store_trans w1 w2 w3 :
  same_but_store w1 w2 -> same_but_store w2 w3 -> same_but_store w1 w3.
Proof.
  unfold same_but_store. intros (a & b & c & d & e) (a' & b' & c' & d' & e').
  repeat split; congruence.
Qed.

Lemma same_but_store_set st w : same_but_store w (set_cstore st w).
Proof. repeat split. Qed.

Lemma filter_all {A} (f : A -> bool) l :
  (forall x, f x = true) -> filter f l = l.
Proof.
  intro H. induction l as [|x r IH]; simpl; [reflexivity|].
  now rewrite H, IH.
Qed.

Lemma filter_filter {A} (f g : A -> bool) l :
  filter g (filter f l) = filter (fun x => f x && g x) l.
Proof.
  induction l as [|x r IH]; simpl; [reflexivity|].
  destruct (f x); simpl; [destruct (g x)|]; now rewrite IH.
Qed.

Lemma remove_all_nil st : remove_all fails [] st = st.
Proof.
  unfold remove_all. apply filter_all. reflexivity.
Qed.

Lemma remove_all_app l1 l2 st :
  remove_all fails l2 (remove_all fails l1 st) = remove_all fails (List.app l1 l2) st.
Proof.
  unfold remove_all. rewrite filter_filter. apply filter_ext. intro e.
  unfold removed_by. rewrite existsb_app. now rewrite negb_orb.
Qed.

Lemma remove_all_one k st :
  remove_all fails [k] st = if fails k then st else mem_remove k st.
Proof.
  unfold remove_all, removed_by, mem_remove.
  destruct (fails k) eqn:E.
  - apply filter_all. intro e. simpl. now rewrite E.
  - apply filter_ext. intro e. simpl. now rewrite E, orb_false_r.
Qed.

Lemma ok_count_app l1 l2 :
  ok_count fails (List.app l1 l2) = (ok_count fails l1 + ok_count fails l2)%nat.
Proof.
  unfold ok_count. now rewrite filter_app, length_app.
Qed.

(** One deletion, its failure swallowed. *)
Lemma del_and_count_mem k count w :
  cache w = memCache fails ->
  exists w',
    del_and_count k count w
    = (Ret (count + Z.of_nat (ok_count fails [k])), w', [EvCacheDel k])
    /\ same_but_store w w'
    /\ cstore w' = remove_all fails [k] (cstore w).
Proof.
  intro Hc. unfold del_and_count, try_catch, bind at 1.
  rewrite (adapter_del_mem k _ Hc), remove_all_one. unfold ok_count. simpl.
  destruct (fails k); simpl.
  - exists w. rewrite Z.add_0_r. repeat split.
  - eexists. split; [reflexivity|]. repeat split.
Qed.

Lemma del_each_mem ks : forall count w,
  cache w = memCache fails ->
  exists w',
    del_each ks count w
    = (Ret (count + Z.of_nat (ok_count fails ks)), w', map EvCacheDel ks)
    /\ same_but_store w w'
    /\ cstore w' = remove_all fails ks (cstore w).
Proof.
  induction ks as [|k r IH]; intros count w Hc.
  - exists w. simpl. rewrite Z.add_0_r, remove_all_nil. repeat split.
  - destruct (del_and_count_mem k count _ Hc) as (w1 & H1 & F1 & S1).
    assert (Hc1 : cache w1 = memCache fails) by (destruct F1 as (_ & -> & _); exact Hc).
    destruct (IH (count + Z.of_nat (ok_count fails [k])) w1 Hc1) as (w2 & H2 & F2 & S2).
    exists w2. split; [|split].
    + replace (count + Z.of_nat (ok_count fails (k :: r)))
        with (count + Z.of_nat (ok_count fails [k]) + Z.of_nat (ok_count fails r))
        by (change (k :: r) with (List.app [k] r); rewrite ok_count_app; lia).
      simpl. eapply bind_eq; [exact H1 | exact H2 | reflexivity].
    + eapply same_but_store_trans; eauto.
    + rewrite S2, S1, remove_all_app. reflexivity.
Qed.

Lemma del_matching_mem s all : forall count w,
  cache w = memCache fails ->
  exists w',
    del_matching (VStr s) all count w
    = (Ret (count + Z.of_nat (ok_count fails (filter (matches s) all))), w',
       map EvCacheDel (filter (matches s) all))
    /\ same_but_store w w'
    /\ cstore w' = remove_all fails (filter (matches s) all) (cstore w).
Proof.
  induction all as [|key r IH]; intros count w Hc.
  - exists w. simpl. rewrite Z.add_0_r, remove_all_nil. repeat split.
  - cbn [filter]. destruct (matches s key) eqn:Hm.
    + destruct (del_and_count_mem key count _ Hc) as (w1 & H1 & F1 & S1).
      assert (Hc1 : cache w1 = memCache fails)
        by (destruct F1 as (_ & -> & _); exact Hc).
      destruct (IH (count + Z.of_nat (ok_count fails [key])) w1 Hc1)
        as (w2 & H2 & F2 & S2).
      exists w2. split; [|split].
      * replace (count + Z.of_nat (ok_count fails (key :: filter (matches s) r)))
          with (count + Z.of_nat (ok_count fails [key])
                + Z.of_nat (ok_count fails (filter (matches s) r)))
          by (change (key :: filter (matches s) r)
                with (List.app [key] (filter (matches s) r));
              rewrite ok_count_app; lia).
        simpl del_matching.
        eapply bind_eq; [reflexivity | | reflexivity].
        change (Str.startsWith (js_String key) s) with (matches s key).
        rewrite Hm.
        eapply bind_eq; [exact H1 | exact H2 | reflexivity].
      * eapply same_but_store_trans; eauto.
      * rewrite S2, S1, remove_all_app. reflexivity.
    + destruct (IH count w Hc) as (w2 & H2 & F2 & S2).
      exists w2. split; [|split; assumption].
      simpl del_matching.
      eapply bind_eq; [reflexivity | | reflexivity].
      change (Str.startsWith (js_String key) s) with (matches s key).
      rewrite Hm.
      eapply bind_eq; [reflexivity | exact H2 | reflexivity].
Qed.

Lemma del_prefixes_mem ps all : forall count w,
  cache w = memCache fails ->
  exists w',
    del_prefixes (map VStr ps) all count w
    = (Ret (count + Z.of_nat (ok_count fails (prefix_matches ps all))), w',
       map EvCacheDel (prefix_matches ps all))
    /\ same_but_store w w'
    /\ cstore w' = remove_all fails (prefix_matches ps all) (cstore w).
Proof.
  induction ps as [|p r IH]; intros count w Hc.
  - exists w. simpl. rewrite Z.add_0_r, remove_all_nil. repeat split.
  - destruct (del_matching_mem p all count _ Hc) as (w1 & H1 & F1 & S1).
    assert (Hc1 : cache w1 = memCache fails)
      by (destruct F1 as (_ & -> & _); exact Hc).
    destruct (IH (count + Z.of_nat (ok_count fails (filter (matches p) all))) w1 Hc1)
      as (w2 & H2 & F2 & S2).
    exists w2. split; [|split].
    + change (prefix_matches (p :: r) all)
        with (List.app (filter (matches p) all) (prefix_matches r all)).
      rewrite ok_count_app, Nat2Z.inj_add, Z.add_assoc, map_app.
      simpl del_prefixes. eapply bind_eq; [exact H1 | exact H2 | reflexivity].
    + eapply same_but_store_trans; eauto.
    + rewrite S2, S1, remove_all_app. reflexivity.
Qed.

Lemma same_value_primitive k key :
  primitive key = true -> (same_value k key = true <-> k = key).
Proof.
  intro Hp. split.
  - destruct k, key; simpl in *; try discriminate; try reflexivity; intro H;
      try (apply Z.eqb_eq in H; now subst);
      try (apply String.eqb_eq in H; now subst);
      try (apply Bool.eqb_prop in H; now subst).
    all: try (destruct a; discriminate).
  - intros ->. destruct key; simpl in *; try discriminate; try reflexivity;
      try apply Z.eqb_refl; try apply String.eqb_refl; try apply Bool.eqb_reflx.
Qed.

Lemma removed_by_primitive ks key :
  primitive key = true ->
  (removed_by fails ks key = true <-> In key ks /\ fails key = false).
Proof.
  intro Hp. unfold removed_by. rewrite existsb_exists. split.
  - intros (k & Hin & Hk). apply andb_true_iff in Hk. destruct Hk as [Hf Hs].
    apply (same_value_primitive k _ Hp) in Hs. subst k.
    split; [exact Hin|]. now apply negb_true_iff.
  - intros [Hin Hf]. exists key. split; [exact Hin|].
    rewrite Hf. simpl. now apply same_value_primitive.
Qed.

Lemma in_prefix_matches ps all key :
  In key (prefix_matches ps all)
  <-> In key all /\ exists p, In p ps /\ matches p key = true.
Proof.
  unfold prefix_matches. rewrite in_flat_map. split.
  - intros (p & Hp & Hin). apply filter_In in Hin. destruct Hin. eauto.
  - intros (Hin & p & Hp & Hm). exists p. split; [exact Hp|].
    apply filter_In. auto.
Qed.

Lemma dedupe_NoDup l : Forall (fun v => primitive v = true) l -> NoDup (dedupe l).
Proof.
  induction 1 as [|x r Hx _ IH]; simpl; constructor.
  - intro Hin. apply filter_In in Hin. destruct Hin as [_ Hn].
    apply negb_true_iff in Hn.
    assert (same_value x x = true) by now apply same_value_primitive.
    congruence.
  - now apply NoDup_filter.
Qed.

Lemma dedupe_subset l x : In x (dedupe l) -> In x l.
Proof.
  induction l as [|y r IH]; simpl; [auto|].
  intros [->|Hin]; [now left|]. apply filter_In in Hin. right. apply IH. tauto.
Qed.

(** C6, as amended.  On a working adapter: the truthy exact keys are
    de-duplicated and each is deleted individually, every one of them even
    when the deletion of another throws; after that pass the keys the
    adapter holds are listed once, and for every non-empty prefix in turn
    every listed key that starts with it is deleted, and no other.  The
    count returned is the number of deletions that did not throw: the exact
    keys, plus for each prefix the listed keys it matches, with no
    de-duplication between prefixes (a key matched by two prefixes counts
    twice); a key removed by the exact-key pass is no longer listed, so a
    prefix does not count it again.  The entries left are those under a key
    no successful deletion named, and [METRICS.cache.invalidations] grows
    by the count returned. *)
Theorem invalidateCache_counts input w ps :
  cache w = memCache fails ->
  truthy input = true ->
  filter truthy (input_prefixes input) = map VStr ps ->
  let exact := dedupe (filter truthy (input_keys input)) in
  let listed := map fst (remove_all fails exact (cstore w)) in
  let hits := prefix_matches ps listed in
  let count := Z.of_nat (ok_count fails exact + ok_count fails hits) in
  let run := invalidateCache input w in
  result_of run = Ret (ok (mkInvalidated count))
  /\ filter is_del (trace_of run) = map EvCacheDel (List.app exact hits)
  /\ (Forall (fun v => primitive v = true) (input_keys input) -> NoDup exact)
  /\ METRICS (world_of run) = add_invalidations count (METRICS w)
  /\ (forall e,
        In e (cstore (world_of run))
        <-> In e (cstore w)
            /\ removed_by fails exact (fst e) = false
            /\ removed_by fails hits (fst e) = false)
  /\ (forall key,
        primitive key = true ->
        (removed_by fails exact key = true <-> In key exact /\ fails key = false)
        /\ (removed_by fails hits key = true
            <-> (In key listed /\ exists p, In p ps /\ matches p key = true)
                /\ fails key = false)).
Proof.
  intros Hc Hin Hps exact listed hits count run.
  destruct (del_each_mem exact 0 _ Hc) as (w1 & H1 & F1 & S1).
  assert (Hc1 : cache w1 = memCache fails)
    by (destruct F1 as (_ & -> & _); exact Hc).
  assert (Hrun : exists w3 keysEv,
    run = (Ret (ok (mkInvalidated count)), w3,
           List.app (map EvCacheDel exact) (List.app keysEv (map EvCacheDel hits)))
    /\ filter is_del keysEv = []
    /\ cstore w3 = remove_all fails hits (cstore w1)
    /\ METRICS w3 = add_invalidations count (METRICS w)).
  { unfold run, invalidateCache. rewrite Hin. cbn [negb].
    fold exact.
    destruct (input_prefixes input) as [|p0 pr] eqn:Hp.
    - (* no prefix at all *)
      assert (ps = []) by (destruct ps; [reflexivity | discriminate Hps]).
      subst ps. exists (set_METRICS (add_invalidations count (METRICS w1)) w1), [].
      split; [|split; [|split]].
      + apply try_catch_ret.
        eapply bind_eq; [exact H1 | | reflexivity].
        eapply bind_eq; [reflexivity | | reflexivity].
        unfold count, hits. simpl prefix_matches. unfold ok_count at 2.
        simpl List.length. rewrite Nat.add_0_r, Z.add_0_l.
        eapply bind_eq; reflexivity.
      + reflexivity.
      + simpl. unfold hits. simpl. now rewrite remove_all_nil.
      + simpl. destruct F1 as (_ & _ & _ & -> & _). reflexivity.
    - rewrite Hps.
      destruct (del_prefixes_mem ps (map fst (cstore w1))
                  (0 + Z.of_nat (ok_count fails exact)) _ Hc1)
        as (w2 & H2 & F2 & S2).
      assert (Hl : map fst (cstore w1) = listed) by (unfold listed; now rewrite S1).
      rewrite Hl in H2, S2. fold hits in H2, S2.
      exists (set_METRICS (add_invalidations count (METRICS w2)) w2), [EvCacheKeys].
      split; [|split; [|split]].
      + apply try_catch_ret.
        eapply bind_eq; [exact H1 | | reflexivity].
        eapply bind_eq.
        * eapply bind_eq; [apply (adapter_keys_mem _ Hc1) | | reflexivity].
          rewrite Hl. exact H2.
        * replace (0 + Z.of_nat (ok_count fails exact)
                   + Z.of_nat (ok_count fails hits)) with count
            by (unfold count; lia).
          eapply bind_eq; reflexivity.
        * simpl. now rewrite app_nil_r.
      + reflexivity.
      + simpl. exact S2.
      + simpl. destruct F2 as (_ & _ & _ & -> & _).
        destruct F1 as (_ & _ & _ & -> & _). reflexivity. }
  destruct Hrun as (w3 & keysEv & Hrun & Hk & S3 & M3).
  split; [now rewrite Hrun|]. split; [|split; [|split; [|split]]].
  - rewrite Hrun. cbn [trace_of snd].
    rewrite !filter_app, Hk, map_app. simpl.
    assert (Hd : forall l, filter is_del (map EvCacheDel l) = map EvCacheDel l).
    { induction l as [|x l IHl]; simpl; [reflexivity | now rewrite IHl]. }
    now rewrite !Hd.
  - intro Hprim. apply dedupe_NoDup.
    apply Forall_forall. intros x Hx. apply filter_In in Hx.
    rewrite Forall_forall in Hprim. now apply Hprim.
  - now rewrite Hrun.
  - intro e. rewrite Hrun. cbn [world_of fst snd]. rewrite S3, S1.
    unfold remove_all. rewrite !filter_In, !negb_true_iff. tauto.
  - intros key Hp. split.
    + now apply removed_by_primitive.
    + rewrite (removed_by_primitive hits key Hp).
      unfold hits. rewrite in_prefix_matches. tauto.
Qed.

End Invalidation.

Lemma invalidateCache_counts_witness :
  result_of (@invalidateCache demo _ overlapping_prefixes_input x_world)
  = Ret (ok (mkInvalidated 5))
  /\ @METRICS demo (world_of (@invalidateCache demo _ overlapping_prefixes_input x_world))
     = add_invalidations 5 Metrics.zero.
Proof.
  destruct (@invalidateCache_counts demo (fun _ => false)
              overlapping_prefixes_input x_world ["x"; "x:"]
              eq_refl eq_refl eq_refl) as (H1 & _ & _ & H4 & _).
  split; [exact H1 | exact H4].
Defined.

(** C6 as stated fails: a key named by an exact entry and matched by a
    prefix is counted once (2 is returned, for ["x:1"] and ["x:2"]), and
    the empty prefix, with which every key starts, deletes nothing. *)
Lemma invalidateCache_counts_listed_keys_only :
  result_of (@invalidateCache demo _ both_input x_world) = Ret (ok (mkInvalidated 2))
  /\ @cstore demo (world_of (@invalidateCache demo _ both_input x_world))
     = [(VStr "y", (ok VNull, 60000))]
  /\ result_of (@invalidateCache demo _ empty_prefix_input x_world)
     = Ret (ok (mkInvalidated 0))
  /\ @cstore demo (world_of (@invalidateCache demo _ empty_prefix_input x_world))
     = x_store
  /\ Forall (fun key => matches EmptyString key = true) (map fst x_store).
Proof.
  repeat split; repeat constructor.
Qed.

(* ------------------------------------------------------------------ *)
(** ** Stable serialiser *)

Section Serialiser.

(** A reference to an object that has been seen is written as the
    sentinel, whatever the object holds. *)
Lemma ser_seen_object a cls props seen :
  seen_has a seen = true ->
  ser (VObj a cls props) seen = inr (Some (quote cycle_token), seen).
Proof.
  intro H. simpl. now rewrite H.
Qed.

Lemma ser_seen_array a elems seen :
  seen_has a seen = true ->
  ser (VArr a elems) seen = inr (Some (quote cycle_token), seen).
Proof.
  intro H. simpl. now rewrite H.
Qed.

Lemma leb_trans a : forall b c,
  String.leb a b = true -> String.leb b c = true -> String.leb a c = true.
Proof.
  unfold String.leb.
  induction a as [|x a IH]; intros [|y b] [|z c]; simpl; try congruence.
  unfold Ascii.compare.
  destruct (N.compare_spec (N_of_ascii x) (N_of_ascii y));
    destruct (N.compare_spec (N_of_ascii y) (N_of_ascii z));
    destruct (N.compare_spec (N_of_ascii x) (N_of_ascii z));
    try congruence; try lia; intros; try reflexivity.
  now apply (IH b c).
Qed.

Lemma leb_false a b : String.leb a b = false -> String.leb b a = true.
Proof.
  intro H. destruct (String.leb_total a b) as [E|E]; congruence.
Qed.

(** Inserting two entries with different keys in either order gives one
    list. *)
Lemma insert_key_comm {A} (a b : string * A) l :
  fst a <> fst b ->
  insert_key a (insert_key b l) = insert_key b (insert_key a l).
Proof.
  intro Hne. induction l as [|x l IH]; simpl.
  - destruct (String.leb (fst a) (fst b)) eqn:Hab;
      destruct (String.leb (fst b) (fst a)) eqn:Hba; try reflexivity.
    + elim Hne. now apply String.leb_antisym.
    + apply leb_false in Hab. congruence.
  - destruct (String.leb (fst b) (fst x)) eqn:Hbx;
      destruct (String.leb (fst a) (fst x)) eqn:Hax; simpl;
      rewrite ?Hbx, ?Hax;
      destruct (String.leb (fst a) (fst b)) eqn:Hab;
      destruct (String.leb (fst b) (fst a)) eqn:Hba;
      simpl; rewrite ?Hbx, ?Hax; try reflexivity;
      try (elim Hne; now apply String.leb_antisym);
      try (apply leb_false in Hab; congruence);
      try (pose proof (leb_trans _ _ _ Hab Hbx); congruence);
      try (pose proof (leb_trans _ _ _ Hba Hax); congruence).
    now rewrite IH.
Qed.

Lemma sort_keys_perm {A} (l l' : list (string * A)) :
  Permutation l l' -> NoDup (map fst l) -> sort_keys l = sort_keys l'.
Proof.
  induction 1 as [|x l l' Hp IH|x y l|l l' l'' Hp1 IH1 Hp2 IH2]; intro Hnd.
  - reflexivity.
  - simpl. inversion Hnd; subst. now rewrite IH.
  - simpl. apply insert_key_comm. simpl in Hnd.
    inversion Hnd as [|? ? Hnin _]; subst. simpl in Hnin. intro E. apply Hnin.
    left. now symmetry.
  - rewrite IH1 by exact Hnd. apply IH2.
    eapply Permutation_NoDup; [|exact Hnd]. now apply Permutation_map.
Qed.

Lemma map_fst_member ps : map fst (map member ps) = map fst ps.
Proof.
  induction ps as [|[k x] r IH]; simpl; [reflexivity | now rewrite IH].
Qed.

(** Key order alone does not change what the serialiser writes. *)
Lemma ser_reordered :
  (forall v w, reordered v w -> ser v = ser w)
  /\ (forall xs ys, reordered_list xs ys -> map ser xs = map ser ys)
  /\ (forall ps qs, reordered_props ps qs -> map member ps = map member qs).
Proof.
  apply reordered_mutual.
  - reflexivity.
  - intros a xs ys _ IH. simpl. now rewrite IH.
  - intros a cls ps ps' qs Hnd Hperm _ IH.
    change (ser (VObj a cls ps))
      with (fun seen =>
              if seen_has a seen then inr (Some (quote cycle_token), seen)
              else ser_object
                     (sorted_object cls (ser_const (quote cls)) (map member ps))
                     (seen_add a seen)).
    change (ser (VObj a cls qs))
      with (fun seen =>
              if seen_has a seen then inr (Some (quote cycle_token), seen)
              else ser_object
                     (sorted_object cls (ser_const (quote cls)) (map member qs))
                     (seen_add a seen)).
    unfold sorted_object.
    rewrite (@sort_keys_perm _ (map member ps) (map member ps')).
    + now rewrite IH.
    + now apply Permutation_map.
    + now rewrite map_fst_member.
  - reflexivity.
  - intros x y xs ys _ IHx _ IHl. simpl. now rewrite IHx, IHl.
  - reflexivity.
  - intros k x y ps qs _ IHx _ IHl. simpl. now rewrite IHx, IHl.
Qed.

(** X26.  Two values that differ only in the order in which the keys of
    their objects were inserted (the same graph of objects, the properties
    of each object permuted) are given the same string. *)
Lemma stableStringify_reordered v w :
  reordered v w -> stableStringify v = stableStringify w.
Proof.
  intro H. unfold stableStringify. now rewrite (proj1 ser_reordered _ _ H).
Qed.

(** An exception during the traversal is answered with an error result. *)
Lemma stableStringify_catches err :
  stableStringify (arr [VNum 1; obj [("x", VThrower err)]]) = failure (JsError err).
Proof. reflexivity. Qed.

(** C7, the code on a shared reference.  [aliased] and [copied] are
    deeply equal (the same data, the keys inserted in another order), yet
    they are not given the same string: the second reference to the object
    that [aliased] holds twice is written as the sentinel although there is
    no cycle.  The two other parts of the claim hold: a cyclic reference is
    written as the sentinel, key order alone changes nothing, and a
    traversal that throws is answered with an error result. *)
Theorem stableStringify_shared_reference :
  deep_equal aliased copied = true
  /\ stableStringify aliased
     = ok (Some (json_object [("p", json_object [("k", "1")]);
                              ("q", quote "__cycle__")]))
  /\ stableStringify copied
     = ok (Some (json_object [("p", json_object [("k", "1")]);
                              ("q", json_object [("k", "1")])]))
  /\ stableStringify aliased <> stableStringify copied
  /\ stableStringify aliased_reordered = stableStringify aliased
  /\ stableStringify cyclic
     = ok (Some (json_object [("name", quote "a"); ("self", quote "__cycle__")]))
  /\ stableStringify (obj [("x", VThrower "boom")]) = failure (JsError "boom").
Proof.
  repeat split; try reflexivity. discriminate.
Qed.

End Serialiser.

(* ================================================================== *)
(** * Further properties of the code *)

(* ------------------------------------------------------------------ *)
(** ** Hash and cache keys *)

Section Keys.

Lemma append_assoc_str (a b c : string) : (a ++ b) ++ c = a ++ (b ++ c).
Proof.
  induction a as [|x a IH]; simpl; [reflexivity | now rewrite IH].
Qed.

Lemma length_append_str (a b : string) :
  String.length (a ++ b) = (String.length a + String.length b)%nat.
Proof.
  induction a as [|x a IH]; simpl; [reflexivity | now rewrite IH].
Qed.

Lemma all_append p (a b : string) :
  Str.all p (a ++ b) = Str.all p a && Str.all p b.
Proof.
  induction a as [|x a IH]; simpl; [reflexivity|].
  now rewrite IH, andb_assoc.
Qed.

Lemma parseInt36_aux_append a : forall acc b,
  parseInt36_aux acc (a ++ b) = parseInt36_aux (parseInt36_aux acc a) b.
Proof.
  induction a as [|x a IH]; intros acc b; simpl; [reflexivity | apply IH].
Qed.

Lemma base36_digit_ok d :
  0 <= d < 36 ->
  is_base36 (base36_digit d) = true /\ digit36_value (base36_digit d) = d.
Proof.
  intro Hd. unfold is_base36, digit36_value, base36_digit, Str.code.
  destruct (Z.ltb_spec d 10) as [Hlt|Hge];
    rewrite N_ascii_embedding by lia.
  - split.
    + apply orb_true_iff. left. apply andb_true_iff. split; apply N.leb_le; lia.
    + rewrite Z2N.id by lia. destruct (Z.ltb_spec (48 + d) 58); lia.
  - split.
    + apply orb_true_iff. right. apply andb_true_iff. split; apply N.leb_le; lia.
    + rewrite Z2N.id by lia. destruct (Z.ltb_spec (87 + d) 58); lia.
Qed.

Lemma base36_aux_app fuel : forall n acc,
  base36_aux fuel n acc = base36_aux fuel n EmptyString ++ acc.
Proof.
  induction fuel as [|fuel IH]; intros n acc; [reflexivity|].
  simpl. destruct (n / 36 =? 0); [reflexivity|].
  rewrite (IH _ (String _ acc)), (IH _ (String _ EmptyString)), append_assoc_str.
  reflexivity.
Qed.

(** The digits written for [n]: at most [fuel] digits of base 36, whose
    value is [n] when [fuel] digits are enough. *)
Lemma base36_aux_spec fuel : forall n,
  0 <= n ->
  let s := base36_aux (S fuel) n EmptyString in
  (1 <= String.length s <= S fuel)%nat
  /\ Str.all is_base36 s = true
  /\ (n < 36 ^ Z.of_nat (S fuel) -> parseInt36 s = n).
Proof.
  induction fuel as [|fuel IH]; intros n Hn.
  - assert (Hm : 0 <= n mod 36 < 36) by (apply Z.mod_pos_bound; lia).
    destruct (base36_digit_ok Hm) as [Hc Hv].
    cbn [base36_aux]. destruct (n / 36 =? 0); cbv zeta; simpl String.length;
      (split; [lia|]); (split; [simpl; now rewrite Hc|]);
      intro Hlt; unfold parseInt36; simpl parseInt36_aux; rewrite Hv;
      change (36 ^ Z.of_nat 1) with 36 in Hlt; rewrite Z.mod_small; lia.
  - assert (Hm : 0 <= n mod 36 < 36) by (apply Z.mod_pos_bound; lia).
    destruct (base36_digit_ok Hm) as [Hc Hv].
    cbv zeta. change (base36_aux (S (S fuel)) n EmptyString)
      with (if n / 36 =? 0 then String (base36_digit (n mod 36)) EmptyString
            else base36_aux (S fuel) (n / 36)
                   (String (base36_digit (n mod 36)) EmptyString)).
    destruct (Z.eqb_spec (n / 36) 0) as [Hq|Hq].
    + simpl String.length. split; [lia|]. split; [simpl; now rewrite Hc|].
      intros _. unfold parseInt36. simpl parseInt36_aux. rewrite Hv.
      pose proof (Z.div_mod n 36). lia.
    + assert (Hq0 : 0 <= n / 36) by (apply Z.div_pos; lia).
      destruct (IH (n / 36) Hq0) as (Hlen & Hall & Hval).
      rewrite base36_aux_app, length_append_str, all_append.
      change (String.length (String (base36_digit (n mod 36)) EmptyString)) with 1%nat.
      split; [lia|]. split.
      * rewrite Hall. simpl. now rewrite Hc.
      * intro Hlt. unfold parseInt36. rewrite parseInt36_aux_append.
        unfold parseInt36 in Hval. rewrite Hval.
        -- cbn [parseInt36_aux]. rewrite Hv. pose proof (Z.div_mod n 36). lia.
        -- apply Z.div_lt_upper_bound; [lia|].
           rewrite Nat2Z.inj_succ, Z.pow_succ_r in Hlt by lia. exact Hlt.
Qed.

(** X1.  The hash is the whole unsigned 32-bit state of the djb2-xor loop,
    written in base 36: between one and seven characters, each a digit or
    a lower-case letter, and read back in base 36 they give that state.
    Two strings are given the same hash text exactly when their 32-bit
    states are the same. *)
Theorem hash_is_uint32_in_base36 (str : string) :
  (1 <= String.length (hash str) <= 7)%nat
  /\ Str.all is_base36 (hash str) = true
  /\ parseInt36 (hash str) = to_uint32 (hash_loop 5381 str)
  /\ (forall str',
        hash str = hash str'
        <-> to_uint32 (hash_loop 5381 str) = to_uint32 (hash_loop 5381 str')).
Proof.
  assert (Hrange : forall s, 0 <= to_uint32 (hash_loop 5381 s) < 36 ^ Z.of_nat 7).
  { intro s. unfold to_uint32.
    pose proof (Z.mod_pos_bound (hash_loop 5381 s) 4294967296).
    change (36 ^ Z.of_nat 7) with 78364164096. lia. }
  assert (Hdec : forall s, parseInt36 (hash s) = to_uint32 (hash_loop 5381 s)).
  { intro s. unfold hash, toString36.
    apply (base36_aux_spec 6); apply Hrange. }
  destruct (base36_aux_spec 6 (proj1 (Hrange str))) as (Hlen & Hall & _).
  split; [exact Hlen|]. split; [exact Hall|]. split; [apply Hdec|].
  intro str'. split.
  - intro H. rewrite <- !Hdec. now rewrite H.
  - intro H. unfold hash. now rewrite H.
Qed.

Lemma colon_split a : forall a' b b',
  colon_free a = true -> colon_free a' = true ->
  a ++ String ":" b = a' ++ String ":" b' -> a = a' /\ b = b'.
Proof.
  unfold colon_free.
  induction a as [|c a IH]; intros [|c' a'] b b'; simpl; intros Ha Ha' E.
  - inversion E. auto.
  - inversion E; subst. discriminate Ha'.
  - inversion E; subst. discriminate Ha.
  - apply andb_true_iff in Ha, Ha'. destruct Ha as [_ Ha], Ha' as [_ Ha'].
    inversion E; subst. destruct (IH _ _ _ Ha Ha' H1) as [-> ->]. auto.
Qed.

(** X2.  The cache keys of different operations or different models never
    coincide, whatever the other arguments are (for names that hold no
    colon): a key is the operation name, the model name as it was passed
    and the hash, joined by colons. *)
Theorem buildCacheKey_separates_names fnName fnName' model model' rest rest' k k' :
  colon_free fnName = true -> colon_free fnName' = true ->
  colon_free model = true -> colon_free model' = true ->
  fnName <> fnName' \/ model <> model' ->
  buildCacheKey fnName (VStr model :: rest) = ok k ->
  buildCacheKey fnName' (VStr model' :: rest') = ok k' ->
  k <> k'.
Proof.
  intros Hf Hf' Hm Hm' Hne. unfold buildCacheKey.
  destruct (stableStringify_fresh rest) as [s|e]; [|discriminate].
  destruct (stableStringify_fresh rest') as [s'|e']; [|discriminate].
  intros H H' E. rewrite <- E, <- H in H'. inversion H' as [E0]. clear H H' E.
  change (?a ++ ":" ++ ?b) with (a ++ String ":" b) in E0.
  destruct (colon_split _ _ _ _ Hf' Hf E0) as [E1 E2].
  change (?a ++ ":" ++ ?b) with (a ++ String ":" b) in E2.
  destruct (colon_split _ _ _ _ Hm' Hm E2) as [E3 _].
  destruct Hne as [Hne|Hne]; congruence.
Qed.

(** X3.  The order in which the keys of the argument objects were inserted
    does not change the cache key. *)
Theorem buildCacheKey_ignores_key_order fnName model rest rest' :
  reordered_list rest rest' ->
  buildCacheKey fnName (VStr model :: rest)
  = buildCacheKey fnName (VStr model :: rest').
Proof.
  intro H. unfold buildCacheKey, stableStringify_fresh.
  now rewrite (proj1 (proj2 ser_reordered) _ _ H).
Qed.

End Keys.

Lemma buildCacheKey_separates_names_witness :
  buildCacheKey "getOne" [VStr "user"; filter_ab] = ok "getOne:user:iduull"
  /\ buildCacheKey "getOne" [VStr "users"; filter_ab] = ok "getOne:users:iduull"
  /\ "getOne:user:iduull" <> "getOne:users:iduull".
Proof.
  split; [reflexivity|]. split; [reflexivity|].
  apply (@buildCacheKey_separates_names "getOne" "getOne" "user" "users"
           [filter_ab] [filter_ab]);
    try reflexivity.
  right. discriminate.
Defined.

Lemma buildCacheKey_ignores_key_order_witness :
  buildCacheKey "getMany" [VStr "users"; filter_ab]
  = buildCacheKey "getMany" [VStr "users"; filter_ba].
Proof.
  apply (@buildCacheKey_ignores_key_order "getMany" "users" [filter_ab] [filter_ba]).
  constructor; [|constructor].
  apply ro_obj with (ps' := [("b", VNum 2); ("a", VNum 1)]).
  - repeat constructor; simpl; intuition discriminate.
  - apply perm_swap.
  - repeat constructor.
Defined.

Lemma stableStringify_reordered_witness :
  stableStringify aliased = stableStringify aliased_reordered.
Proof.
  apply (@stableStringify_reordered aliased aliased_reordered).
  apply ro_obj with (ps' := [("q", shared_child); ("p", shared_child)]).
  - repeat constructor; simpl; intuition discriminate.
  - apply perm_swap.
  - repeat constructor.
Defined.
(* ------------------------------------------------------------------ *)
(** ** TTL and model names *)

Section Names.

Import StrFacts.

(** X4.  [normalizeTTL] yields, whatever it is given, a number that is not
    negative or [Infinity] (the latter for a string of digits beyond the
    range of Numbers).  A number it yields is a fixed point: normalising it
    again changes nothing.  [Infinity] is not: normalised again it becomes
    the default of 60000. *)
Theorem normalizeTTL_nonneg_or_infinite (ttl : value) :
  ((exists n, normalizeTTL ttl = VNum n /\ 0 <= n)
   /\ normalizeTTL (normalizeTTL ttl) = normalizeTTL ttl)
  \/ (normalizeTTL ttl = VInf false
      /\ normalizeTTL (normalizeTTL ttl) = 60000).
Proof.
  destruct (normalizeTTL_range ttl) as [E|(d & E & Hd)].
  - right. rewrite E. split; reflexivity.
  - left. rewrite E. split; [now exists d|].
    simpl. destruct (Z.ltb_spec d 0); [lia | reflexivity].
Qed.

Lemma endsWith_append_s m : Str.endsWith (m ++ "s") "s"%char = true.
Proof.
  unfold Str.endsWith. rewrite last_app. reflexivity.
Qed.

Lemma pluralizeName_fixed m : pluralizeName (pluralizeName m) = pluralizeName m.
Proof.
  unfold pluralizeName at 2 3.
  destruct (Str.endsWith m "s"%char
            || negb (match Str.last m with
                     | Some c => Str.is_letter c
                     | None => false
                     end)) eqn:E.
  - unfold pluralizeName. now rewrite E.
  - unfold pluralizeName. now rewrite endsWith_append_s.
Qed.

(** X5.  Pluralising a model name is idempotent: the result is the name or
    the name with an [s] appended, and it is left as it is when pluralised
    again; a name that ends in [s], and one that does not end in a letter
    (the empty name among them), is left alone. *)
Theorem pluralizeName_idempotent (m : string) :
  pluralizeName (pluralizeName m) = pluralizeName m
  /\ (pluralizeName m = m \/ pluralizeName m = m ++ "s")
  /\ (Str.endsWith m "s"%char = true -> pluralizeName m = m)
  /\ (match Str.last m with
      | Some c => Str.is_letter c = false
      | None => True
      end -> pluralizeName m = m)
  /\ (pluralizeName m = m ++ "s"
      <-> exists c, Str.last m = Some c /\ Str.is_letter c = true /\ c <> "s"%char).
Proof.
  split; [apply pluralizeName_fixed|].
  unfold pluralizeName, Str.endsWith.
  destruct (Str.last m) as [c|] eqn:Hl.
  - destruct (Ascii.eqb_spec "s"%char c) as [Hs|Hs]; simpl.
    + repeat split; auto.
      * intro H. exfalso. clear - H. induction m as [|x m IH]; [discriminate|].
        inversion H. auto.
      * intros (c' & Hc' & _ & Hne). inversion Hc'. congruence.
    + destruct (Str.is_letter c) eqn:Hc; simpl.
      * repeat split; auto; try discriminate.
        exists c. repeat split; auto.
      * repeat split; auto.
        -- intro H. exfalso. clear - H. induction m as [|x m IH]; [discriminate|].
           inversion H. auto.
        -- intros (c' & Hc' & Hlet & _). inversion Hc'. congruence.
  - simpl. repeat split; auto.
    + intro H. exfalso. clear - H. induction m as [|x m IH]; [discriminate|].
      inversion H. auto.
    + intros (c' & Hc' & _). discriminate.
Qed.

End Names.

Section ResolvePlural.

Context {P : Platform}.

(** A registered model is answered from the registry: nothing is required
    from disk and the module state is left as it is. *)
Lemma resolveModel_registered m w Model :
  mongoose_models (ext w) (pluralizeName m) = Some Model ->
  resolveModel (VStr m) w = (Ret Model, w, []).
Proof.
  intro H. unfold resolveModel, bind, get_world. simpl. now rewrite H.
Qed.

(** X6.  Resolving a model by its name and by the plural of its name is one
    and the same computation, and a name that is registered in the Mongoose
    registry under its plural is answered from the registry, without
    loading a file and without touching the module state. *)
Theorem resolveModel_plural_form (m : string) :
  resolveModel (VStr (pluralizeName m)) = resolveModel (VStr m)
  /\ (forall w Model,
        mongoose_models (ext w) (pluralizeName m) = Some Model ->
        resolveModel (VStr m) w = (Ret Model, w, [])
        /\ resolveModel (VStr (pluralizeName m)) w = (Ret Model, w, [])).
Proof.
  assert (E : resolveModel (VStr (pluralizeName m)) = resolveModel (VStr m)).
  { unfold resolveModel. now rewrite pluralizeName_fixed. }
  split; [exact E|].
  intros w Model H. rewrite E. split; now apply resolveModel_registered.
Qed.

End ResolvePlural.
(* ------------------------------------------------------------------ *)
(** ** Configuration and timing *)

Section Configuration.

Context {P : Platform}.

(** X7.  [setModelsDir] followed by [getModelsDir]: a non-empty directory
    that was set is the one read back; the empty string is accepted but
    reads back as the environment's directory or the default, as if
    nothing had been set; reading changes nothing; and a directory that is
    not a string is refused with a failure envelope, the directory kept as
    it was. *)
Theorem modelsDir_set_then_get (d : string) (w : World) :
  let after := world_of (setModelsDir (VStr d) w) in
  result_of (setModelsDir (VStr d) w) = Ret (ok (mkMessage "Models directory set"))
  /\ result_of (getModelsDir after)
     = Ret (if String.eqb d EmptyString
            then match nonempty env_MODELS_DIR with
                 | Some e => e
                 | None => "./models"
                 end
            else d)
  /\ world_of (getModelsDir after) = after
  /\ (forall v, typeof v <> TString ->
        result_of (setModelsDir v w)
        = Ret (failure (JsError "Directory must be a string"))
        /\ MODELS_DIR (world_of (setModelsDir v w)) = MODELS_DIR w).
Proof.
  cbv zeta. split; [reflexivity|]. split; [|split].
  - unfold getModelsDir, setModelsDir, bind, modify, get_world, ret, world_of,
      result_of. simpl. destruct (String.eqb d EmptyString); [|reflexivity].
    destruct (nonempty env_MODELS_DIR); reflexivity.
  - unfold getModelsDir, setModelsDir, bind, modify, get_world, ret, world_of.
    simpl. destruct (String.eqb d EmptyString); [|reflexivity].
    destruct (nonempty env_MODELS_DIR); reflexivity.
  - intros v Hv. destruct v; try (now elim Hv);
      unfold setModelsDir, fail, bind, get_world, emit, ret, result_of, world_of;
      simpl; destruct (logger_set w); split; reflexivity.
Qed.

Lemma forall_set_prop {A} (Q : string * A -> Prop) k x o :
  Forall Q o -> Q (k, x) -> Forall Q (set_prop k x o).
Proof.
  intros Ho Hx. induction Ho as [|[k' y] r Hy Hr IH]; simpl.
  - constructor; [exact Hx | constructor].
  - destruct (String.eqb k k'); constructor; auto.
Qed.

Lemma forall_assoc {A} (Q : string * A -> Prop) k o b :
  Forall Q o -> assoc k o = Some b -> Q (k, b).
Proof.
  intros Ho. induction Ho as [|[k' y] r Hy Hr IH]; simpl; [discriminate|].
  destruct (String.eqb_spec k k') as [->|_]; [|exact IH].
  intro H. inversion H; subst. exact Hy.
Qed.

Lemma record_bucket_consistent durMs b :
  0 <= durMs -> bucket_consistent b -> bucket_consistent (record_bucket durMs b).
Proof.
  intros Hd. unfold bucket_consistent, record_bucket.
  destruct b as [c tot [m|] mx]; cbn [Metrics.minMs Metrics.count Metrics.totalMs
                                        Metrics.maxMs].
  - intros (Hc & Hm & Ht).
    destruct (Z.ltb_spec durMs m); destruct (Z.gtb_spec durMs mx); nia.
  - intros (-> & -> & ->). destruct (Z.gtb_spec durMs 0); nia.
Qed.

(** X8.  Recording a timing keeps the figures of every bucket consistent
    with one another (at least one sample, [0 <= minMs <= maxMs], the
    total between [count * minMs] and [count * maxMs]), when the clock
    has not gone backwards since the start was taken; the bucket of the
    operation gains exactly one sample, the other buckets and the cache
    counters are left alone, and a start of zero records nothing. *)
Theorem recordDb_keeps_buckets_consistent (opName : string) (startNs : Z) (w : World) :
  metrics_consistent (METRICS w) ->
  startNs <= date_now (ext w) * 1000000 ->
  let after := METRICS (world_of (_recordDb opName startNs w)) in
  metrics_consistent after
  /\ samples opName after
     = samples opName (METRICS w) + (if startNs =? 0 then 0 else 1)
  /\ (forall other, other <> opName ->
        assoc other (Metrics.perOp after) = assoc other (Metrics.perOp (METRICS w)))
  /\ Metrics.cache after = Metrics.cache (METRICS w).
Proof.
  intros Hm Hclock. cbv zeta. unfold _recordDb.
  destruct (Z.eqb_spec startNs 0) as [Hz|Hnz].
  - cbn [world_of ret fst snd]. rewrite Z.add_0_r. repeat split; auto.
  - set (durMs := Z.quot (date_now (ext w) * 1000000 - startNs) 1000000).
    assert (Hd : 0 <= durMs) by (apply Z.quot_pos; lia).
    change (METRICS (world_of ((endNs <- _nowNs ;; _) w)))
      with (Metrics.mk (Metrics.cache (METRICS w))
              (set_prop opName
                 (record_bucket durMs
                    (match assoc opName (Metrics.perOp (METRICS w)) with
                     | Some b => b
                     | None => empty_bucket
                     end))
                 (Metrics.perOp (METRICS w)))).
    unfold metrics_consistent, samples. cbn [Metrics.perOp Metrics.cache].
    split; [|split; [|split]].
    + apply forall_set_prop; [exact Hm|]. cbn [snd].
      apply record_bucket_consistent; [exact Hd|].
      destruct (assoc opName (Metrics.perOp (METRICS w))) as [b|] eqn:E.
      * exact (@forall_assoc _ _ _ _ _ Hm E).
      * repeat split.
    + rewrite assoc_set_prop_same.
      destruct (assoc opName (Metrics.perOp (METRICS w))); reflexivity.
    + intros other Hne. now apply assoc_set_prop_other.
    + reflexivity.
Qed.

End Configuration.

Lemma recordDb_keeps_buckets_consistent_witness :
  metrics_consistent
    (@METRICS demo (world_of (@_recordDb demo "getOne:users" 995000000 sample_world)))
  /\ samples "getOne:users"
       (@METRICS demo (world_of (@_recordDb demo "getOne:users" 995000000 sample_world)))
     = 1.
Proof.
  destruct (@recordDb_keeps_buckets_consistent demo "getOne:users" 995000000
              sample_world) as (H1 & H2 & _).
  - constructor.
  - vm_compute. discriminate.
  - split; [exact H1 | exact H2].
Defined.
(* ------------------------------------------------------------------ *)
(** ** Transactions: success, the attempt cap, and session failures *)

Section TransactionOutcomes.

Context {P : Platform}.

(** When the retries allowed reach the cap, a persistently failing work is
    attempted until the cap stops the loop, and the error thrown is the one
    of the cap. *)
Lemma tx_loop_capped work session txnOptions maxRetries startTime start err d :
  fails_within work session err d -> 0 <= d ->
  maxAttempts <= maxRetries ->
  maxAttempts * d <= maxDurationMs ->
  forall k attempt fuel w,
    Z.of_nat k = maxAttempts - attempt ->
    0 <= attempt ->
    (k <= fuel)%nat ->
    date_now (ext w) - startTime <= attempt * d ->
    attempts (trace_of (tx_loop fuel work session txnOptions maxRetries
                          startTime start attempt w))
    = k
    /\ result_of (tx_loop fuel work session txnOptions maxRetries
                    startTime start attempt w)
       = Throw (JsError retry_limit_message).
Proof.
  intros Hfail Hd Hmax Hbudget. unfold maxAttempts, maxDurationMs in *.
  induction k as [|k IH]; intros attempt fuel w Hk Hpos Hfuel Hclock;
    rewrite tx_loop_step; unfold maxAttempts, maxDurationMs.
  - destruct (Z.geb_spec attempt 10) as [_|Hlt]; [|lia].
    split; reflexivity.
  - destruct (Z.geb_spec attempt 10) as [Hge|_]; [lia|].
    destruct (Z.gtb_spec (date_now (ext w) - startTime) 30000) as [Hgt|_]; [nia|].
    simpl orb. cbv iota.
    destruct (Hfail w) as (w' & t & Hw & Ht).
    unfold try_catch.
    rewrite (@tx_attempt_throw P work session txnOptions start (date_now (ext w))
               w err w' t Hw).
    destruct (Z.ltb_spec attempt maxRetries) as [_|Hnlt]; [|lia].
    destruct fuel as [|fuel]; [lia|].
    destruct (IH (attempt + 1) fuel w') as [IHa IHr]; try lia; try nia.
    destruct (tx_loop fuel work session txnOptions maxRetries startTime start
                (attempt + 1) w') as [[r2 w2] t2].
    unfold trace_of, result_of in *. cbn [fst snd] in *.
    split; [|exact IHr].
    rewrite (@attempts_attempt txnOptions (date_now (ext w)) t t2). now rewrite IHa.
Qed.

(** X9.  With [maxCommitRetries] at 10 or more, a work function that keeps
    failing (fast enough for the deadline not to be reached) is attempted
    exactly 10 times, and the failure envelope then carries the retry-limit
    error, not the error of the work. *)
Theorem withTransaction_cap_replaces_error workOrObj txOptions w work s e1 err d :
  work_of workOrObj = Fn work ->
  startSession (ext w) = (Ret s, e1) ->
  (forall e, exists e', endSession s e = (Ret tt, e')) ->
  fails_within work s err d -> 0 <= d -> 10 * d <= 30000 ->
  10 <= retries_of (resolved_options workOrObj txOptions) ->
  let run := withTransaction workOrObj txOptions w in
  attempts (trace_of run) = 10%nat
  /\ result_of run = Ret (failure (JsError retry_limit_message)).
Proof.
  intros Hw Hs Hrel Hfail Hd Hbudget Hn run.
  destruct (withTransaction_eq workOrObj txOptions w Hw Hs)
    as (r_end & w3 & logs & Hrun & Hlogs & Hend).
  fold run in Hrun.
  set (o := resolved_options workOrObj txOptions) in *.
  set (loop := transaction_loop work s o e1 w) in *.
  assert (H1 : maxAttempts <= retries_of o) by (unfold maxAttempts; exact Hn).
  assert (H2 : maxAttempts * d <= maxDurationMs)
    by (unfold maxAttempts, maxDurationMs; exact Hbudget).
  assert (H3 : date_now (ext (set_ext e1 w)) - date_now e1 <= 0 * d)
    by (cbn [ext set_ext]; lia).
  destruct (@tx_loop_capped work s (session_options o) (retries_of o)
              (date_now e1) (date_now e1 * 1000000) err d Hfail Hd H1 H2
              10%nat 0 10%nat (set_ext e1 w) eq_refl (Z.le_refl 0) (le_n 10) H3)
    as [Ha Hr].
  fold (transaction_loop work s o e1 w) in Ha, Hr. fold loop in Ha, Hr.
  split.
  - rewrite Hrun. cbn [trace_of snd].
    change (attempts (EvStartSession :: ?l)) with (attempts l).
    rewrite !attempts_app, (attempts_logs Hlogs), Ha. reflexivity.
  - rewrite Hrun. cbn [result_of fst]. now rewrite (Hend Hrel), Hr.
Qed.

Lemma fail_run_exact {T} err ctx w :
  fail (T := T) err ctx w
  = (Ret (failure err), w, if logger_set w then [EvLog err ctx] else []).
Proof.
  unfold fail, bind, get_world, emit, ret. destruct (logger_set w); reflexivity.
Qed.

(** The run of [withTransaction] once the session is open, in terms of the
    outcome of the retry loop and of the release of the session. *)
Lemma withTransaction_shape workOrObj txOptions w work s e1 :
  work_of workOrObj = Fn work ->
  startSession (ext w) = (Ret s, e1) ->
  let o := resolved_options workOrObj txOptions in
  let loop := transaction_loop work s o e1 w in
  let w2 := world_of loop in
  let logs := match result_of loop with
              | Ret _ => []
              | Throw e => if logger_set w2 then [EvLog e "withTransaction"] else []
              end in
  withTransaction workOrObj txOptions w
  = (match fst (endSession s (ext w2)) with
     | Ret _ => Ret (match result_of loop with
                     | Ret v => ok v
                     | Throw e => failure e
                     end)
     | Throw x => Throw x
     end,
     set_ext (snd (endSession s (ext w2))) w2,
     EvStartSession :: List.app (List.app (trace_of loop) logs) [EvEndSession]).
Proof.
  intros Hw Hs o loop w2 logs. unfold withTransaction. rewrite Hw. fold o.
  unfold bind at 1. cbn [emit].
  unfold bind at 1. unfold call_ext at 1. rewrite Hs.
  unfold bind at 1. rewrite nowMs_run. cbn [ext].
  unfold try_finally, try_catch. rewrite bind_nowNs. cbn [ext].
  change (tx_loop 10 work s (session_options o) (retries_of o) (date_now e1)
            (date_now e1 * 1000000) 0)
    with (fun w' : World =>
            tx_loop 10 work s (session_options o) (retries_of o) (date_now e1)
              (date_now e1 * 1000000) 0 w').
  unfold bind at 1.
  change (tx_loop 10 work s (session_options o) (retries_of o) (date_now e1)
            (date_now e1 * 1000000) 0
            {| ext := e1; cache := cache w; cstore := cstore w;
               logger_set := logger_set w; METRICS := METRICS w;
               MODELS_DIR := MODELS_DIR w |})
    with loop.
  subst logs w2.
  destruct loop as [[[v|e] wl] tl]; unfold ret;
    cbn [result_of world_of trace_of fst snd].
  - unfold bind, emit, call_ext.
    destruct (endSession s (ext wl)) as [[u|x] e3]; cbn [fst snd];
      now rewrite ?app_nil_r.
  - rewrite fail_run_exact.
    unfold bind, emit, call_ext.
    destruct (endSession s (ext wl)) as [[u|x] e3]; cbn [fst snd]; reflexivity.
Qed.

(** X10.  A work function that succeeds is run once: the envelope carries
    what it returned, and the calls made are, in this order, the opening of
    the session, one transaction with the options built from the caller's,
    and the release of the session. *)
Theorem withTransaction_commits_first_attempt workOrObj txOptions w work s e1 v w1 t1 :
  work_of workOrObj = Fn work ->
  startSession (ext w) = (Ret s, e1) ->
  (forall e, exists e', endSession s e = (Ret tt, e')) ->
  work s (set_ext e1 w) = (Ret v, w1, t1) ->
  let o := resolved_options workOrObj txOptions in
  let run := withTransaction workOrObj txOptions w in
  result_of run = Ret (ok v)
  /\ trace_of run
     = [EvStartSession; EvTransaction (date_now e1) (session_options o);
        EvCallback t1; EvEndSession].
Proof.
  intros Hw Hs Hrel Hwork o run.
  pose proof (withTransaction_shape workOrObj txOptions w Hw Hs) as Hrun.
  cbv zeta in Hrun. fold run in Hrun. fold o in Hrun.
  destruct (@tx_attempt_ret P work s (session_options o) (date_now e1 * 1000000)
              (date_now e1) (set_ext e1 w) v w1 t1 Hwork) as (w2 & Hatt & _).
  assert (Hloop : transaction_loop work s o e1 w
                  = (Ret v, w2, [EvTransaction (date_now e1) (session_options o);
                                 EvCallback t1])).
  { unfold transaction_loop. rewrite tx_loop_step.
    unfold maxAttempts, maxDurationMs. cbn [ext set_ext].
    replace (date_now e1 - date_now e1) with 0 by lia. simpl orb. cbv iota.
    apply try_catch_ret. exact Hatt. }
  rewrite Hloop in Hrun. cbn [result_of world_of trace_of fst snd] in Hrun.
  destruct (Hrel (ext w2)) as [e3 He3]. rewrite He3 in Hrun.
  split; now rewrite Hrun.
Qed.

(** X11.  The session is opened before, and released after, the part of
    [withTransaction] that turns errors into envelopes: when the driver
    cannot open a session the call rejects with the driver's error, nothing
    else having been done; when the release of the session throws, the call
    rejects with that error whatever became of the work, the release being
    the last thing done. *)
Theorem withTransaction_rejects_on_session_failure workOrObj txOptions w work :
  work_of workOrObj = Fn work ->
  (forall err e1,
      startSession (ext w) = (Throw err, e1) ->
      withTransaction workOrObj txOptions w
      = (Throw err, set_ext e1 w, [EvStartSession]))
  /\ (forall s e1 err,
        startSession (ext w) = (Ret s, e1) ->
        (forall e, exists e', endSession s e = (Throw err, e')) ->
        result_of (withTransaction workOrObj txOptions w) = Throw err
        /\ exists t, trace_of (withTransaction workOrObj txOptions w)
                     = EvStartSession :: List.app t [EvEndSession]).
Proof.
  intro Hw. split.
  - intros err e1 Hs. unfold withTransaction. rewrite Hw.
    unfold bind at 1. cbn [emit].
    unfold bind at 1. unfold call_ext at 1. rewrite Hs. reflexivity.
  - intros s e1 err Hs Hend.
    rewrite (withTransaction_shape workOrObj txOptions w Hw Hs).
    cbn [result_of trace_of fst snd].
    match goal with
    | |- context [endSession s ?e] => destruct (Hend e) as [e' ->]
    end.
    split; [reflexivity | eauto].
Qed.

End TransactionOutcomes.

Lemma withTransaction_cap_replaces_error_witness :
  attempts (trace_of (@withTransaction demo _ (Positional (Fn failing_work))
                        (Some (retries 1000)) sample_world))
  = 10%nat
  /\ result_of (@withTransaction demo _ (Positional (Fn failing_work))
                  (Some (retries 1000)) sample_world)
     = Ret (failure (JsError retry_limit_message)).
Proof.
  apply (@withTransaction_cap_replaces_error demo (Positional (Fn failing_work))
           (Some (retries 1000)) sample_world failing_work tt 1000
           (JsError "boom") 2).
  - reflexivity.
  - reflexivity.
  - intro e. exists e. reflexivity.
  - intro w. exists (@set_ext demo (@ext demo w + 2) w), []. split; [reflexivity|].
    change (@ext demo w + 2 <= @ext demo w + 2). lia.
  - lia.
  - lia.
  - change (10 <= 1000). lia.
Defined.

Lemma withTransaction_commits_first_attempt_witness :
  result_of (@withTransaction demo _ (Positional (Fn (committing_work (VNum 7))))
               None sample_world)
  = Ret (ok (VNum 7))
  /\ trace_of (@withTransaction demo _ (Positional (Fn (committing_work (VNum 7))))
                 None sample_world)
     = [EvStartSession;
        EvTransaction 1000 (mkSessionOptions None None None);
        EvCallback []; EvEndSession].
Proof.
  apply (@withTransaction_commits_first_attempt demo
           (Positional (Fn (committing_work (VNum 7)))) None sample_world
           (committing_work (VNum 7)) tt 1000 (VNum 7) sample_world []).
  - reflexivity.
  - reflexivity.
  - intro e. exists e. reflexivity.
  - reflexivity.
Defined.

Lemma withTransaction_rejects_on_session_failure_witness :
  result_of (@withTransaction demo_stuck_session _
               (Positional (Fn (fun _ w => (Ret (VNum 7), w, [])))) None stuck_world)
  = Throw (JsError "session lost")
  /\ exists t,
       trace_of (@withTransaction demo_stuck_session _
                   (Positional (Fn (fun _ w => (Ret (VNum 7), w, [])))) None
                   stuck_world)
       = EvStartSession :: List.app t [EvEndSession].
Proof.
  destruct (@withTransaction_rejects_on_session_failure demo_stuck_session
              (Positional (Fn (fun _ w => (Ret (VNum 7), w, [])))) None stuck_world
              (fun _ w => (Ret (VNum 7), w, [])) eq_refl) as [_ H].
  apply (H tt 1000 (JsError "session lost")).
  - reflexivity.
  - intro e. exists e. reflexivity.
Defined.
(* ------------------------------------------------------------------ *)
(** ** The cache wrapper and the invalidation engine, further *)

Section NoCache.

Context {P : Platform}.

Lemma adapter_get_noop k w :
  cache w = noopCache -> adapter_get k w = (Ret None, w, [EvCacheGet k]).
Proof.
  intro H. unfold adapter_get, bind, emit, get_world. rewrite H. reflexivity.
Qed.

Lemma adapter_put_noop k v ttlMs w :
  cache w = noopCache -> adapter_put k v ttlMs w = (Ret tt, w, [EvCachePut k v ttlMs]).
Proof.
  intro H. unfold adapter_put, bind, emit, get_world. rewrite H.
  destruct w; reflexivity.
Qed.

(** X12.  With the no-op cache (the default, and what an invalid [setCache]
    falls back to, whatever cache was installed before) the wrapper caches
    nothing: every call runs the producer exactly once and answers with its
    result normalised to an envelope, leaving the module state as the
    producer left it. *)
Theorem withCache_without_cache fnName args cacheOpts
  (runFn : callback produced) w res w1 t1 :
  cache w = noopCache ->
  runFn w = (Ret res, w1, t1) ->
  cache w1 = noopCache ->
  let run := withCache fnName args cacheOpts runFn w in
  result_of run = Ret (normalize res)
  /\ world_of run = w1
  /\ producer_calls (trace_of run) = 1%nat
  /\ (forall w', cache (world_of (setCache None w')) = noopCache).
Proof.
  intros Hc Hrun Hc1 run.
  assert (Hmain : result_of run = Ret (normalize res) /\ world_of run = w1
                  /\ producer_calls (trace_of run) = 1%nat).
  { subst run. unfold withCache.
    match goal with
    | |- context [if negb (truthy ?e) then _ else _] => destruct (negb (truthy e))
    end.
    2: match goal with
       | |- context [if ?c then bind (run_producer runFn) _ else _] => destruct c
       end.
    all: unfold adapter_get, adapter_put, run_producer, call_back, bind,
           emit, get_world, modify, ret, result_of, world_of, trace_of;
         cbv beta; rewrite ?Hc; cbn [noopCache cache_get cache_put];
         rewrite Hrun; cbn [fst snd].
    1, 2: repeat split.
    match goal with
    | |- context [if ?c then _ else _] => destruct c
    end; rewrite ?Hc1; cbn [noopCache cache_put fst snd]; destruct w1;
      repeat split. }
  destruct Hmain as (H1 & H2 & H3).
  split; [exact H1|]. split; [exact H2|]. split; [exact H3|].
  intro w'. unfold setCache, fail, bind, modify, get_world, emit, ret, world_of.
  simpl. destruct (logger_set w'); reflexivity.
Qed.

End NoCache.

Lemma withCache_without_cache_witness :
  result_of (@withCache demo "getOne" sample_args (Some (unkeyed VUndef))
               (bare_producer (VNum 42)) (demo_world 1000 noopCache []))
  = Ret (ok (VNum 42))
  /\ producer_calls
       (trace_of (@withCache demo "getOne" sample_args (Some (unkeyed VUndef))
                    (bare_producer (VNum 42)) (demo_world 1000 noopCache [])))
     = 1%nat.
Proof.
  destruct (@withCache_without_cache demo "getOne" sample_args
              (Some (unkeyed VUndef)) (bare_producer (VNum 42))
              (demo_world 1000 noopCache []) (Bare (VNum 42))
              (demo_world 1000 noopCache []) [] eq_refl eq_refl eq_refl)
    as (H1 & _ & H3 & _).
  split; [exact H1 | exact H3].
Defined.
Section PrefixInvalidation.

Context {P : Platform}.

Lemma prefix_append p s : String.prefix p (p ++ s) = true.
Proof.
  induction p as [|c p IH]; simpl; [destruct s; reflexivity|].
  destruct (ascii_dec c c); [exact IH | congruence].
Qed.

Lemma same_value_str_l s x : same_value (VStr s) x = true -> x = VStr s.
Proof.
  destruct x; simpl; try discriminate.
  intro H. apply String.eqb_eq in H. now subst.
Qed.

Lemma mem_lookup_filter_none key f (st : cache_store) :
  (forall e, In e st -> same_value key (fst e) = true -> f e = false) ->
  mem_lookup key (filter f st) = None.
Proof.
  induction st as [|[k' [v t]] r IH]; intro H; simpl; [reflexivity|].
  destruct (f (k', (v, t))) eqn:Hf.
  - simpl. destruct (same_value key k') eqn:Hs.
    + rewrite (H (k', (v, t))) in Hf; [discriminate | now left | exact Hs].
    + apply IH. intros e He. apply H. now right.
  - apply IH. intros e He. apply H. now right.
Qed.

Lemma mem_lookup_filter_keep key f (st : cache_store) :
  (forall e, In e st -> same_value key (fst e) = true -> f e = true) ->
  mem_lookup key (filter f st) = mem_lookup key st.
Proof.
  induction st as [|[k' [v t]] r IH]; intro H; simpl; [reflexivity|].
  destruct (f (k', (v, t))) eqn:Hf.
  - simpl. destruct (same_value key k'); [reflexivity|].
    apply IH. intros e He. apply H. now right.
  - destruct (same_value key k') eqn:Hs.
    + rewrite (H (k', (v, t))) in Hf; [discriminate | now left | exact Hs].
    + apply IH. intros e He. apply H. now right.
Qed.

Lemma key_has_prefix fnName model h :
  fnName ++ String ":" (model ++ String ":" h) = operation_prefix fnName model ++ h.
Proof.
  unfold operation_prefix. induction fnName as [|c r IH]; simpl.
  - f_equal. induction model as [|c r IH]; simpl; [reflexivity | now f_equal].
  - now f_equal.
Qed.

Lemma operation_prefix_nonempty fnName model :
  String.eqb (operation_prefix fnName model) EmptyString = false.
Proof.
  unfold operation_prefix. destruct fnName; reflexivity.
Qed.

(** The run of [invalidateCache({ prefixes: p })] for a non-empty string
    [p], on the working adapter. *)
Lemma invalidate_prefix_run fails p w :
  cache w = memCache fails ->
  String.eqb p EmptyString = false ->
  let hits := prefix_matches [p] (map fst (cstore w)) in
  exists w',
    invalidateCache (obj [("prefixes", VStr p)]) w
    = (Ret (ok (mkInvalidated (Z.of_nat (ok_count fails hits)))), w',
       EvCacheKeys :: map EvCacheDel hits)
    /\ cache w' = cache w
    /\ cstore w' = remove_all fails hits (cstore w).
Proof.
  intros Hc Hp hits.
  destruct (@del_prefixes_mem P fails [p] (map fst (cstore w)) 0 w Hc)
    as (w2 & H2 & F2 & S2).
  fold hits in H2, S2.
  exists (set_METRICS
            (add_invalidations (0 + Z.of_nat (ok_count fails hits)) (METRICS w2)) w2).
  split; [|split].
  - unfold invalidateCache.
    change (truthy (obj [("prefixes", VStr p)])) with true. cbn [negb].
    change (input_keys (obj [("prefixes", VStr p)])) with (@nil value).
    change (input_prefixes (obj [("prefixes", VStr p)]))
      with (if truthy (VStr p) then [VStr p] else []).
    cbn [truthy]. rewrite Hp. cbn [negb filter dedupe truthy]. rewrite Hp.
    cbn [negb].
    apply try_catch_ret.
    eapply bind_eq; [reflexivity | | reflexivity].
    eapply bind_eq.
    + eapply bind_eq; [apply (adapter_keys_mem _ Hc) | exact H2 | reflexivity].
    + eapply bind_eq; reflexivity.
    + simpl. now rewrite app_nil_r.
  - destruct F2 as (_ & E & _). exact E.
  - exact S2.
Qed.

(** X13.  Every key built for an operation on a model starts with
    [operation:model:], so invalidating that prefix removes whatever was
    cached for that operation on that model (unless the adapter fails to
    delete it) and the next read through the cache runs its producer again;
    entries whose key does not start with the prefix are kept. *)
Theorem invalidating_operation_prefix_forces_miss fails fnName model rest k w :
  cache w = memCache fails ->
  buildCacheKey fnName (VStr model :: rest) = ok k ->
  fails (VStr k) = false ->
  let w' := world_of (invalidateCache
                        (obj [("prefixes", VStr (operation_prefix fnName model))]) w) in
  Str.startsWith k (operation_prefix fnName model) = true
  /\ mem_lookup (VStr k) (cstore w') = None
  /\ (forall o (runFn : callback produced),
        truthy (match enabled o with VUndef => VBool true | e => e end) = true ->
        nullish (key o) = true ->
        producer_calls
          (trace_of (withCache fnName (VStr model :: rest) (Some o) runFn w'))
        = 1%nat)
  /\ (forall s,
        Str.startsWith s (operation_prefix fnName model) = false ->
        mem_lookup (VStr s) (cstore w') = mem_lookup (VStr s) (cstore w)).
Proof.
  intros Hc Hk Hf w'.
  assert (Hstart : Str.startsWith k (operation_prefix fnName model) = true).
  { unfold buildCacheKey in Hk.
    destruct (stableStringify_fresh rest) as [s|e]; [|discriminate].
    inversion Hk as [Ek]. unfold Str.startsWith.
    rewrite key_has_prefix. apply prefix_append. }
  destruct (invalidate_prefix_run (operation_prefix fnName model) w Hc
              (operation_prefix_nonempty fnName model))
    as (w2 & Hrun & Hc2 & Hs2).
  assert (Hw : w' = w2) by (unfold w'; now rewrite Hrun).
  set (hits := prefix_matches [operation_prefix fnName model] (map fst (cstore w)))
    in *.
  assert (Hnone : mem_lookup (VStr k) (cstore w') = None).
  { rewrite Hw, Hs2. unfold remove_all. apply mem_lookup_filter_none.
    intros e He Hsv. apply same_value_str_l in Hsv.
    apply negb_false_iff.
    apply (removed_by_primitive fails hits (fst e)); [now rewrite Hsv|].
    rewrite Hsv. split; [|exact Hf].
    apply in_prefix_matches. split.
    - rewrite <- Hsv. now apply in_map.
    - exists (operation_prefix fnName model). split; [now left | exact Hstart]. }
  split; [exact Hstart|]. split; [exact Hnone|]. split.
  - intros o runFn Hen Hkey.
    apply (@withCache_miss_calls_producer P fnName (VStr model :: rest) o runFn w'
             fails k); auto.
    rewrite Hw. congruence.
  - intros s Hs. rewrite Hw, Hs2. unfold remove_all. apply mem_lookup_filter_keep.
    intros e He Hsv. apply same_value_str_l in Hsv.
    apply negb_true_iff.
    destruct (removed_by fails hits (fst e)) eqn:E; [|reflexivity].
    apply (removed_by_primitive fails hits (fst e)) in E; [|now rewrite Hsv].
    destruct E as [Hin _]. apply in_prefix_matches in Hin.
    destruct Hin as (_ & p & [<-|[]] & Hm).
    rewrite Hsv in Hm. unfold matches in Hm. simpl js_String in Hm. congruence.
Qed.

Lemma del_and_count_any k count w :
  exists c' w',
    del_and_count k count w = (Ret c', w', [EvCacheDel k])
    /\ cache w' = cache w /\ METRICS w' = METRICS w /\ logger_set w' = logger_set w.
Proof.
  unfold del_and_count, try_catch, adapter_del, bind, emit, get_world, modify,
    throw, ret.
  cbv beta. destruct (cache_del (cache w) (cstore w) k) as [st|e];
    do 2 eexists; (split; [reflexivity|]); repeat split.
Qed.

Lemma del_each_any ks : forall count w,
  exists c' w',
    del_each ks count w = (Ret c', w', map EvCacheDel ks)
    /\ cache w' = cache w /\ METRICS w' = METRICS w /\ logger_set w' = logger_set w.
Proof.
  induction ks as [|k r IH]; intros count w.
  - exists count, w. repeat split.
  - destruct (del_and_count_any k count w) as (c1 & w1 & H1 & Hc1 & Hm1 & Hl1).
    destruct (IH c1 w1) as (c2 & w2 & H2 & Hc2 & Hm2 & Hl2).
    exists c2, w2. split; [|repeat split; congruence].
    simpl. eapply bind_eq; [exact H1 | exact H2 | reflexivity].
Qed.

Lemma filter_is_del_map l : filter is_del (map EvCacheDel l) = map EvCacheDel l.
Proof.
  induction l as [|x l IH]; simpl; [reflexivity | now rewrite IH].
Qed.

(** X14.  When prefixes are given and the adapter cannot list its keys,
    [invalidateCache] answers with a failure envelope carrying the
    adapter's error and the invalidations counter is not advanced, although
    the exact keys have been deleted one by one before the listing was
    asked for. *)
Theorem invalidateCache_listing_failure input w err :
  truthy input = true ->
  input_prefixes input <> [] ->
  (forall st, cache_keys (cache w) st = Throw err) ->
  let run := invalidateCache input w in
  result_of run = Ret (failure err)
  /\ METRICS (world_of run) = METRICS w
  /\ filter is_del (trace_of run)
     = map EvCacheDel (dedupe (filter truthy (input_keys input))).
Proof.
  intros Hin Hp Hkeys run.
  set (exact := dedupe (filter truthy (input_keys input))).
  destruct (del_each_any exact 0 w) as (c1 & w1 & H1 & Hc1 & Hm1 & Hl1).
  assert (Hrun : run = (Ret (failure err), w1,
                        List.app (map EvCacheDel exact)
                          (EvCacheKeys
                             :: (if logger_set w1
                                 then [EvLog err "invalidateCache"] else [])))).
  { unfold run, invalidateCache. rewrite Hin. cbn [negb]. fold exact.
    destruct (input_prefixes input) as [|p0 pr]; [congruence|].
    eapply try_catch_throw with (t1 := List.app (map EvCacheDel exact) [EvCacheKeys]);
      [ | apply fail_run_exact | now rewrite <- app_assoc].
    unfold bind at 1. rewrite H1.
    unfold bind at 1. unfold bind at 1.
    unfold adapter_keys, bind, emit, get_world, throw. cbv beta.
    rewrite Hc1, Hkeys. reflexivity. }
  rewrite Hrun. cbn [result_of world_of trace_of fst snd].
  split; [reflexivity|]. split; [exact Hm1|].
  rewrite filter_app, filter_is_del_map.
  destruct (logger_set w1); simpl; now rewrite app_nil_r.
Qed.

End PrefixInvalidation.

Lemma invalidating_operation_prefix_forces_miss_witness :
  mem_lookup (VStr "getOne:users:iduull")
    (@cstore demo (world_of (@invalidateCache demo _
                               (obj [("prefixes", VStr (operation_prefix "getOne" "users"))])
                               keyed_world)))
  = None
  /\ mem_lookup (VStr "getOne:orders:iduull")
       (@cstore demo (world_of (@invalidateCache demo _
                                  (obj [("prefixes",
                                         VStr (operation_prefix "getOne" "users"))])
                                  keyed_world)))
     = Some (ok (VNum 3)).
Proof.
  destruct (@invalidating_operation_prefix_forces_miss demo (fun _ => false)
              "getOne" "users" [filter_ab] "getOne:users:iduull" keyed_world
              eq_refl eq_refl eq_refl) as (_ & H2 & _ & H4).
  split; [exact H2|].
  rewrite (H4 "getOne:orders:iduull" eq_refl). reflexivity.
Defined.

Lemma invalidateCache_listing_failure_witness :
  result_of (@invalidateCache demo _
               (obj [("keys", VStr "a"); ("prefixes", VStr "getOne:")])
               (demo_world 1000 unlistable keyed_store))
  = Ret (failure (JsError "keys is not supported"))
  /\ @METRICS demo (world_of (@invalidateCache demo _
                                (obj [("keys", VStr "a"); ("prefixes", VStr "getOne:")])
                                (demo_world 1000 unlistable keyed_store)))
     = Metrics.zero.
Proof.
  destruct (@invalidateCache_listing_failure demo
              (obj [("keys", VStr "a"); ("prefixes", VStr "getOne:")])
              (demo_world 1000 unlistable keyed_store)
              (JsError "keys is not supported") eq_refl) as (H1 & H2 & _).
  - discriminate.
  - reflexivity.
  - split; [exact H1 | exact H2].
Defined.
(* ------------------------------------------------------------------ *)
(** ** The operations on a model *)

Section Crud.

Context {P : Platform}.

Lemma bind_pure {A B} (m : M A) (f : A -> M B) w a :
  m w = (Ret a, w, []) -> bind m f w = f a w.
Proof.
  intro H. unfold bind. rewrite H. destruct (f a w) as [[r w2] t2]. reflexivity.
Qed.

Lemma fail_logged {T} err ctx w :
  fail (T := T) err ctx w = (Ret (failure err), w, logged w err ctx).
Proof.
  unfold fail, bind, get_world, emit, ret, logged.
  destruct (logger_set w); reflexivity.
Qed.

(** An operation whose validation refuses its arguments. *)
Lemma wrap_fail {T} err ctx ctx' (f : T -> payload) w :
  (r <- try_catch (fail (T := T) err ctx) (fun e => fail e ctx') ;;
   ret (envelope_of f r)) w
  = (Ret (Envelope (failure err)), w, logged w err ctx).
Proof.
  eapply bind_eq; [apply try_catch_ret; apply fail_logged | reflexivity|].
  now rewrite app_nil_r.
Qed.

(** An operation whose body throws. *)
Lemma wrap_throw {T} (m : M (ApiResponse T)) err ctx' (f : T -> payload) w w1 t1 :
  m w = (Throw err, w1, t1) ->
  (r <- try_catch m (fun e => fail e ctx') ;; ret (envelope_of f r)) w
  = (Ret (Envelope (failure err)), w1, List.app t1 (logged w1 err ctx')).
Proof.
  intro H.
  eapply bind_eq;
    [eapply try_catch_throw; [exact H | apply fail_logged | reflexivity]
    | reflexivity|].
  now rewrite app_nil_r.
Qed.

(** An operation whose body returns. *)
Lemma wrap_ret {T} (m : M (ApiResponse T)) r ctx' (f : T -> payload) w w1 t1 :
  m w = (Ret r, w1, t1) ->
  (r <- try_catch m (fun e => fail e ctx') ;; ret (envelope_of f r)) w
  = (Ret (envelope_of f r), w1, t1).
Proof.
  intro H.
  eapply bind_eq; [apply try_catch_ret; exact H | reflexivity|].
  now rewrite app_nil_r.
Qed.

Lemma invalid_model_not_string model :
  typeof model <> TString -> invalid_model model = true.
Proof.
  intro H. unfold invalid_model. destruct model; simpl in *; try reflexivity;
    try (now rewrite orb_true_r). now elim H.
Qed.

Lemma resolveModel_not_string model w :
  typeof model <> TString ->
  resolveModel model w
  = (Throw (JsError "resolveModel: model must be a string"), w, []).
Proof.
  intro H. destruct model; try reflexivity. now elim H.
Qed.

(** X15.  Each of the thirteen operations on a model, called with a model
    name that is not a string (in either calling form), answers with a
    failure envelope and does nothing else: no file is loaded, the store
    and the cache are not called, and the module state is left as it was;
    the logger is handed the error once. *)
Theorem crud_refuses_model_that_is_no_string (c : public_call) (model : value)
  (w : World) :
  crud_model c = Some model ->
  typeof model <> TString ->
  exists err ctx,
    run_public c w = (Ret (Envelope (failure err)), w, logged w err ctx).
Proof.
  intros Hm Hty.
  pose proof (invalid_model_not_string _ Hty) as Hinv.
  pose proof (fun w => resolveModel_not_string _ w Hty) as Hres.
  destruct c; try discriminate Hm; cbn [crud_model] in Hm;
    inversion Hm as [E]; clear Hm; rewrite <- E in Hinv, Hres;
    cbn [run_public];
    unfold createOne, createMany, getOne, getMany, getManyWithLimit,
      getManyWithPagination, aggregate, updateOne, updateMany, deleteOne,
      deleteMany, upsertOne, countDocuments, plain_write;
    cbv zeta; rewrite ?Hinv;
    first
      [ destruct (nullish modelOrObj); cbv iota; do 2 eexists; apply wrap_fail
      | do 2 eexists;
        erewrite wrap_throw; [|apply bind_throw_run; apply Hres];
        reflexivity ].
Qed.


(* Confinement of the events of a computation. *)

Lemma confined_ret {A} Q (a : A) : confined Q (ret a).
Proof. intro w. constructor. Qed.

Lemma confined_throw {A} Q e : confined Q (throw (A := A) e).
Proof. intro w. constructor. Qed.

Lemma confined_raise Q e : confined Q (raise e).
Proof. intro w. destruct e; constructor. Qed.

Lemma confined_emit (Q : event -> Prop) ev : Q ev -> confined Q (emit ev).
Proof. intros H w. repeat constructor. exact H. Qed.

Lemma confined_get_world Q : confined Q get_world.
Proof. intro w. constructor. Qed.

Lemma confined_modify Q f : confined Q (modify f).
Proof. intro w. constructor. Qed.

Lemma confined_bind {A B} Q (m : M A) (f : A -> M B) :
  confined Q m -> (forall a, confined Q (f a)) -> confined Q (bind m f).
Proof.
  intros Hm Hf w. rewrite trace_bind. apply Forall_app. split; [apply Hm|].
  destruct (result_of (m w)); [apply Hf | constructor].
Qed.

Lemma confined_try_catch {A} Q (m : M A) h :
  confined Q m -> (forall e, confined Q (h e)) -> confined Q (try_catch m h).
Proof.
  intros Hm Hh w. rewrite trace_try_catch_eq. apply Forall_app. split; [apply Hm|].
  destruct (result_of (m w)); [constructor | apply Hh].
Qed.

Lemma confined_fail {T} (Q : event -> Prop) err ctx :
  (forall e c, Q (EvLog e c)) -> confined Q (fail (T := T) err ctx).
Proof.
  intros H w. rewrite fail_logged. unfold logged. cbn [trace_of snd].
  destruct (logger_set w); repeat constructor. apply H.
Qed.

Lemma confined_adapter_del (Q : event -> Prop) k :
  Q (EvCacheDel k) -> confined Q (adapter_del k).
Proof.
  intros H w. unfold adapter_del, bind, emit, get_world, modify, throw, trace_of.
  cbv beta. destruct (cache_del (cache w) (cstore w) k); repeat constructor; exact H.
Qed.

Lemma confined_adapter_keys (Q : event -> Prop) :
  Q EvCacheKeys -> confined Q adapter_keys.
Proof.
  intros H w. unfold adapter_keys, bind, emit, get_world, ret, throw, trace_of.
  cbv beta. destruct (cache_keys (cache w) (cstore w)); repeat constructor; exact H.
Qed.

Ltac confine :=
  repeat first
    [ apply confined_ret | apply confined_throw | apply confined_get_world
    | apply confined_modify
    | apply confined_fail; intros; first [right; exact I | reflexivity]
    | apply confined_adapter_del; first [left; reflexivity | reflexivity]
    | apply confined_adapter_keys; first [left; reflexivity | reflexivity]
    | apply confined_emit; first [left; reflexivity | right; exact I | reflexivity]
    | apply confined_bind; [|intros ?]
    | apply confined_try_catch; [|intros ?]
    | match goal with
      | |- confined _ (if ?c then _ else _) => destruct c
      | |- confined _ (match ?x with _ => _ end) => destruct x
      end ].

Lemma confined_del_each ks : forall count, confined cache_or_log (del_each ks count).
Proof.
  induction ks as [|k r IH]; intro count; simpl; [confine|].
  apply confined_bind; [unfold del_and_count; confine | intro c; apply IH].
Qed.

Lemma confined_del_matching p all : forall count,
  confined cache_or_log (del_matching p all count).
Proof.
  induction all as [|key r IH]; intro count; simpl; [confine|].
  apply confined_bind; [unfold starts_with; confine|]. intro b.
  apply confined_bind; [destruct b; unfold del_and_count; confine|].
  intro c. apply IH.
Qed.

Lemma confined_del_prefixes ps all : forall count,
  confined cache_or_log (del_prefixes ps all count).
Proof.
  induction ps as [|p r IH]; intro count; simpl; [confine|].
  apply confined_bind; [apply confined_del_matching | intro c; apply IH].
Qed.

(** The invalidation engine calls the cache adapter and the logger, and
    nothing else. *)
Lemma confined_invalidateCache input : confined cache_or_log (invalidateCache input).
Proof.
  unfold invalidateCache.
  apply confined_try_catch; [|intro e; confine].
  destruct (negb (truthy input)); [confine|].
  apply confined_bind; [apply confined_del_each|]. intro count.
  apply confined_bind; [|intro c; confine].
  destruct (input_prefixes input); [confine|].
  apply confined_bind; [confine|]. intro all. apply confined_del_prefixes.
Qed.

Lemma invalidateCache_returns input w :
  exists r w' t, invalidateCache input w = (Ret r, w', t).
Proof.
  unfold invalidateCache. apply try_catch_fail_returns.
Qed.

Lemma invalidate_hints_run parsed w :
  exists w' t,
    invalidate_hints parsed w = (Ret tt, w', t) /\ Forall cache_or_log t.
Proof.
  unfold invalidate_hints.
  destruct (truthy (invalidateKeys parsed) || truthy (invalidatePrefixes parsed)).
  - match goal with
    | |- context [invalidateCache ?i] =>
        pose proof (confined_invalidateCache i w) as Hq;
        destruct (invalidateCache_returns i w) as (r & w' & t & Hrun)
    end.
    rewrite Hrun in Hq. exists w', t. split; [|exact Hq].
    eapply bind_eq; [exact Hrun | reflexivity | now rewrite app_nil_r].
  - exists w, []. split; [reflexivity | constructor].
Qed.

Lemma store_run Model op w :
  store Model op w
  = (fst (db_call Model op (ext w)), set_ext (snd (db_call Model op (ext w))) w,
     [EvStore (model_name Model) op]).
Proof.
  unfold store, bind, emit, call_ext.
  destruct (db_call Model op (ext w)) as [[r|e] x]; reflexivity.
Qed.

Lemma wrap_ext {T} (m m' : M (ApiResponse T)) ctx (f : T -> payload) w :
  m w = m' w ->
  (r <- try_catch m (fun e => fail e ctx) ;; ret (envelope_of f r)) w
  = (r <- try_catch m' (fun e => fail e ctx) ;; ret (envelope_of f r)) w.
Proof.
  intro H. unfold bind, try_catch. now rewrite H.
Qed.

Lemma wrap_resolved (K : MongooseModel -> Z -> M (ApiResponse value)) ctx m w Model :
  resolveModel (VStr m) w = (Ret Model, w, []) ->
  (r <- try_catch (Model <- resolveModel (VStr m) ;; start <- _nowNs ;; K Model start)
                  (fun e => fail e ctx) ;;
   ret (envelope_of PValue r)) w
  = (r <- try_catch (K Model (date_now (ext w) * 1000000)) (fun e => fail e ctx) ;;
     ret (envelope_of PValue r)) w.
Proof.
  intro H. apply wrap_ext. now rewrite (bind_pure _ _ H), bind_nowNs.
Qed.

Lemma pick_model_string a m : pick_model a = VStr m -> nullish a = false.
Proof.
  unfold pick_model, is_object_arg. destruct a; simpl; try reflexivity; discriminate.
Qed.

Lemma bind_ext {A B} (m : M A) (f g : A -> M B) w :
  (forall a w', f a w' = g a w') -> bind m f w = bind m g w.
Proof.
  intro H. unfold bind. destruct (m w) as [[[a|e] w1] t1]; [now rewrite H | reflexivity].
Qed.

(** Turning documents into plain objects touches nothing. *)
Lemma toObject_run doc w w' : toObject doc w' = (result_of (toObject doc w), w', []).
Proof. unfold toObject. destruct (doc_toObject doc); reflexivity. Qed.

Lemma toObjects_run docs w : forall w',
  toObjects docs w' = (result_of (toObjects docs w), w', []).
Proof.
  induction docs as [|doc r IH]; intro w'; [reflexivity|].
  cbn [toObjects]. unfold bind.
  rewrite (toObject_run doc w w'), (toObject_run doc w w).
  destruct (result_of (toObject doc w)); [|reflexivity].
  rewrite (IH w'), (IH w).
  destruct (result_of (toObjects r w)); reflexivity.
Qed.

Lemma plain_result_run c res w w' :
  plain_result c res w' = (result_of (plain_result c res w), w', []).
Proof.
  destruct c; try reflexivity; cbn [plain_result].
  - apply toObject_run.
  - unfold map_toObject. destruct res; try reflexivity. unfold bind.
    rewrite (toObjects_run elems w w'), (toObjects_run elems w w).
    destruct (result_of (toObjects elems w)); reflexivity.
Qed.

(** A write, once its model is found in the registry: its validation
    refuses the arguments, or what is left to run is the call of the
    store, the invalidation the write argument asks for, the timing, the
    plain form of the result and the envelope. *)
Lemma write_shape c m w Model :
  is_write c = true ->
  crud_model c = Some (VStr m) ->
  mongoose_models (ext w) (pluralizeName m) = Some Model ->
  (exists err ctx,
      run_public c w = (Ret (Envelope (failure err)), w, logged w err ctx))
  \/ (exists op parsed opName ctx,
        run_public c w
        = (r <- try_catch
                  (res <- store Model op ;;
                   invalidate_hints parsed ;;;
                   _recordDb opName (date_now (ext w) * 1000000) ;;;
                   plain <- plain_result c res ;;
                   ret (ok plain))
                  (fun e => fail e ctx) ;;
           ret (envelope_of PValue r)) w
        /\ (forall arg, write_arg c = Some arg -> parsed = _parseWriteArg arg)).
Proof.
  intros Hw Hm Hreg.
  pose proof (resolveModel_registered m w Hreg) as Hres.
  destruct c; try discriminate Hw; cbn [crud_model] in Hm;
    inversion Hm as [E]; clear Hm; cbn [run_public plain_result];
    unfold createOne, createMany, updateOne, updateMany, deleteOne, deleteMany,
      upsertOne, plain_write;
    cbv zeta; rewrite ?E; rewrite ?(pick_model_string _ E);
    repeat match goal with
           | |- context [if invalid_model ?x then _ else _] =>
               destruct (invalid_model x);
                 [left; do 2 eexists; apply wrap_fail|]
           | |- context [if not_an_object ?x then _ else _] =>
               destruct (not_an_object x);
                 [left; do 2 eexists; apply wrap_fail|]
           | |- context [if negb (truthy ?x) then fail _ _ else _] =>
               destruct (negb (truthy x));
                 [left; do 2 eexists; apply wrap_fail|]
           end;
    right; rewrite (@wrap_resolved _ _ _ _ _ Hres); cbv beta;
    try match goal with
        | |- context [if ?c then store _ _ else store _ _] => destruct c
        end;
    do 4 eexists;
    (split;
     [first [ reflexivity
            | apply wrap_ext; repeat (apply bind_ext; intros); reflexivity ]|]);
    intros arg Harg; cbn [write_arg] in Harg; inversion Harg; reflexivity.
Qed.

(** What follows the call of the store in a write. *)
Lemma write_tail_run c parsed opName s res w w1 :
  exists w3 t2,
    (invalidate_hints parsed ;;;
     _recordDb opName s ;;;
     plain <- plain_result c res ;;
     ret (ok plain)) w1
    = (match result_of (plain_result c res w) with
       | Ret plain => Ret (ok plain)
       | Throw e => Throw e
       end, w3, t2)
    /\ invalidate_hints parsed w1 = (Ret tt, world_of (invalidate_hints parsed w1), t2)
    /\ w3 = world_of (_recordDb opName s (world_of (invalidate_hints parsed w1)))
    /\ Forall cache_or_log t2.
Proof.
  destruct (invalidate_hints_run parsed w1) as (w2 & t2 & Hinv & Hq).
  destruct (recordDb_run opName s w2) as (w3 & Hrec & _).
  exists w3, t2. rewrite Hinv. cbn [world_of fst snd]. rewrite Hrec.
  cbn [world_of fst snd]. split; [|repeat split; exact Hq].
  eapply bind_eq; [exact Hinv | | now rewrite app_nil_r].
  eapply bind_eq; [exact Hrec | | reflexivity].
  unfold bind. rewrite (plain_result_run c res w w3).
  destruct (result_of (plain_result c res w)); reflexivity.
Qed.

(** X16.  A write whose call of the store throws answers with a failure
    envelope and leaves the cache alone: nothing is invalidated, no timing
    is recorded, and when the store was reached the envelope carries the
    error of the store. *)
Theorem failed_write_leaves_cache_and_metrics c m w Model e :
  is_write c = true ->
  crud_model c = Some (VStr m) ->
  mongoose_models (ext w) (pluralizeName m) = Some Model ->
  (forall op x, exists x', db_call Model op x = (Throw e, x')) ->
  exists err w' t,
    run_public c w = (Ret (Envelope (failure err)), w', t)
    /\ count_events is_cache_event t = 0%nat
    /\ METRICS w' = METRICS w
    /\ cstore w' = cstore w
    /\ ((count_events is_store_event t = 1%nat /\ err = e)
        \/ (count_events is_store_event t = 0%nat /\ w' = w)).
Proof.
  intros Hw Hm Hreg Hdb.
  destruct (write_shape c w Hw Hm Hreg)
    as [(err & ctx & Hrun) | (op & parsed & opName & ctx & Hrun & _)].
  - exists err, w, (logged w err ctx). split; [exact Hrun|].
    unfold logged, count_events. destruct (logger_set w); repeat split; right; auto.
  - destruct (Hdb op (ext w)) as [x' Hx].
    exists e, (set_ext x' w),
      (List.app [EvStore (model_name Model) op] (logged (set_ext x' w) e ctx)).
    split.
    + rewrite Hrun. apply wrap_throw. apply bind_throw_run.
      rewrite store_run, Hx. reflexivity.
    + unfold logged, count_events. cbn [logger_set set_ext].
      destruct (logger_set w); repeat split; left; auto.
Qed.

Lemma no_store_event_in t :
  Forall cache_or_log t -> count_events is_store_event t = 0%nat.
Proof.
  intro Hq. unfold count_events.
  induction Hq as [|ev l Hev _ IH]; [reflexivity|].
  simpl. destruct ev; try exact IH.
  destruct Hev as [H|H]; [discriminate H | contradiction H].
Qed.

Lemma no_store_event_logged w err ctx :
  count_events is_store_event (logged w err ctx) = 0%nat.
Proof. unfold logged. destruct (logger_set w); reflexivity. Qed.

Lemma count_store_app t1 t2 :
  count_events is_store_event (List.app t1 t2)
  = (count_events is_store_event t1 + count_events is_store_event t2)%nat.
Proof. unfold count_events. now rewrite filter_app, length_app. Qed.

Lemma write_answer_plain c res w :
  is_create c = false -> write_answer c res w = ok (PValue res).
Proof. destruct c; try discriminate; reflexivity. Qed.

(** X17.  A write whose call of the store succeeds answers with what the
    write makes of the result of the store (the result itself, and for
    [createOne] and [createMany] its plain form, or the failure of
    [toObject]), whatever the cache adapter does when the invalidation
    asked for is carried out: the store has been called exactly once.
    Otherwise the validation of the write has refused its arguments, and
    nothing was done. *)
Theorem write_succeeds_whatever_the_cache_does c m w Model res :
  is_write c = true ->
  crud_model c = Some (VStr m) ->
  mongoose_models (ext w) (pluralizeName m) = Some Model ->
  (forall op x, exists x', db_call Model op x = (Ret res, x')) ->
  exists r w' t,
    run_public c w = (Ret (Envelope r), w', t)
    /\ ((r = write_answer c res w /\ count_events is_store_event t = 1%nat)
        \/ (status r = false /\ w' = w /\ count_events is_store_event t = 0%nat))
    /\ (is_create c = false -> write_answer c res w = ok (PValue res)).
Proof.
  intros Hw Hm Hreg Hdb.
  destruct (write_shape c w Hw Hm Hreg)
    as [(err & ctx & Hrun) | (op & parsed & opName & ctx & Hrun & _)].
  - exists (failure err), w, (logged w err ctx). split; [exact Hrun|].
    split; [|apply write_answer_plain].
    right. rewrite no_store_event_logged. repeat split.
  - destruct (Hdb op (ext w)) as [x' Hx].
    destruct (@write_tail_run c parsed opName (date_now (ext w) * 1000000) res w
                (set_ext x' w)) as (w3 & t2 & Htail & _ & _ & Hq).
    pose proof (no_store_event_in Hq) as Hnone.
    assert (Hbody : (r0 <- store Model op ;;
                     invalidate_hints parsed ;;;
                     _recordDb opName (date_now (ext w) * 1000000) ;;;
                     plain <- plain_result c r0 ;;
                     ret (ok plain)) w
                    = (match result_of (plain_result c res w) with
                       | Ret plain => Ret (ok plain)
                       | Throw e => Throw e
                       end, w3, EvStore (model_name Model) op :: t2))
      by (eapply bind_eq;
          [rewrite store_run, Hx; reflexivity | exact Htail | reflexivity]).
    unfold write_answer.
    destruct (result_of (plain_result c res w)) as [plain|e] eqn:Eplain.
    + exists (ok (PValue plain)), w3, (EvStore (model_name Model) op :: t2).
      split; [rewrite Hrun; apply (@wrap_ret value _ (ok plain)); exact Hbody|].
      split.
      * left. split; [reflexivity|].
        change (EvStore (model_name Model) op :: t2)
          with (List.app [EvStore (model_name Model) op] t2).
        now rewrite count_store_app, Hnone.
      * intro Hcreate. pose proof (write_answer_plain c res w Hcreate) as Hplain.
        unfold write_answer in Hplain. now rewrite Eplain in Hplain.
    + exists (failure e), w3,
        (List.app (EvStore (model_name Model) op :: t2) (logged w3 e ctx)).
      split; [rewrite Hrun; apply wrap_throw; exact Hbody|].
      split.
      * left. split; [reflexivity|].
        rewrite count_store_app, no_store_event_logged.
        change (EvStore (model_name Model) op :: t2)
          with (List.app [EvStore (model_name Model) op] t2).
        now rewrite count_store_app, Hnone.
      * intro Hcreate. pose proof (write_answer_plain c res w Hcreate) as Hplain.
        unfold write_answer in Hplain. now rewrite Eplain in Hplain.
Qed.


Lemma confined_store (Q : event -> Prop) Model op :
  Q (EvStore (model_name Model) op) -> confined Q (store Model op).
Proof.
  intros H w. rewrite store_run. repeat constructor. exact H.
Qed.

Lemma confined_recordDb Q opName start : confined Q (_recordDb opName start).
Proof.
  intro w. destruct (recordDb_run opName start w) as (w' & -> & _). constructor.
Qed.

Lemma confined_nowNs Q : confined Q _nowNs.
Proof. intro w. rewrite nowNs_run. constructor. Qed.

Lemma count_events_none p t :
  Forall (fun ev => p ev = false) t -> count_events p t = 0%nat.
Proof.
  unfold count_events. induction 1 as [|ev l Hev _ IH]; simpl; [reflexivity|].
  now rewrite Hev.
Qed.

Lemma not_in_none (p : event -> bool) (t : list event) (ev : event) :
  Forall (fun ev => p ev = false) t -> p ev = true -> ~ In ev t.
Proof.
  intros H Hp Hin. rewrite Forall_forall in H. specialize (H ev Hin). congruence.
Qed.

Lemma confined_call_back {A} (Q : event -> Prop) (f : callback A) :
  (forall t, Q (EvCallback t)) -> confined Q (call_back f).
Proof.
  intros H w. unfold call_back, trace_of. destruct (f w) as [[r w1] t1].
  repeat constructor. apply H.
Qed.

Lemma confined_adapter_put (Q : event -> Prop) k v ttlMs :
  Q (EvCachePut k v ttlMs) -> confined Q (adapter_put k v ttlMs).
Proof.
  intros H w. rewrite trace_adapter_put. repeat constructor. exact H.
Qed.

Lemma confined_run_producer (runFn : callback produced) :
  confined (fun ev => is_cache_get ev = false) (run_producer runFn).
Proof.
  unfold run_producer. apply confined_bind; [now apply confined_emit|].
  intros _. now apply confined_call_back.
Qed.

Lemma adapter_get_run k w :
  adapter_get k w
  = (match cache_get (cache w) (cstore w) k with
     | Ret h => Ret h
     | Throw e => Throw e
     end, w, [EvCacheGet k]).
Proof.
  unfold adapter_get, bind, emit, get_world. cbv beta.
  destruct (cache_get (cache w) (cstore w) k); reflexivity.
Qed.

Lemma bind_adapter_get {B} k (F : option cached -> M B) w :
  bind (adapter_get k) F w
  = match cache_get (cache w) (cstore w) k with
    | Ret hit =>
        (result_of (F hit w), world_of (F hit w), EvCacheGet k :: trace_of (F hit w))
    | Throw e => (Throw e, w, [EvCacheGet k])
    end.
Proof.
  unfold bind. rewrite adapter_get_run.
  destruct (cache_get (cache w) (cstore w) k) as [hit|e]; [|reflexivity].
  destruct (F hit w) as [[r w1] t1]. reflexivity.
Qed.

(** A read through [cached_read] that asked the adapter for [k]: a hit is
    what it returns and an exception of the adapter is what it throws,
    nothing else having been done. *)
Lemma cached_read_asked fnName args o (rq : M (ApiResponse value)) w k :
  confined (fun ev => is_cache_get ev = false) rq ->
  In (EvCacheGet k) (trace_of (cached_read fnName args o rq w)) ->
  (forall h, cache_get (cache w) (cstore w) k = Ret (Some h) ->
             cached_read fnName args o rq w = (Ret h, w, [EvCacheGet k]))
  /\ (forall e, cache_get (cache w) (cstore w) k = Throw e ->
                cached_read fnName args o rq w = (Throw e, w, [EvCacheGet k])).
Proof.
  intros Hrq. unfold cached_read.
  destruct (cache_enabled o).
  2:{ intro Hin. exfalso. exact (@not_in_none is_cache_get _ (EvCacheGet k) (Hrq w) eq_refl Hin). }
  assert (Hprod : forall (K : produced -> M (ApiResponse value)),
             (forall a, confined (fun ev => is_cache_get ev = false) (K a)) ->
             ~ In (EvCacheGet k)
                 (trace_of (bind (run_producer (r <- rq ;; ret (Enveloped r))) K w))).
  { intros K HK.
    apply (@not_in_none is_cache_get); [|reflexivity].
    apply (@confined_bind _ _ _ (run_producer _) K);
      [apply confined_run_producer | exact HK]. }
  unfold withCache.
  match goal with
  | |- context [if negb (truthy ?e) then _ else _] => destruct (negb (truthy e))
  end.
  { intro Hin. exfalso. revert Hin. apply Hprod. intro a. apply confined_ret. }
  match goal with
  | |- context [if ?c then bind (run_producer _) _ else _] => destruct c
  end.
  { intro Hin. exfalso. revert Hin. apply Hprod. intro a. apply confined_ret. }
  match goal with
  | |- context [adapter_get ?key] => set (K := key)
  end.
  clearbody K. rewrite bind_adapter_get.
  destruct (cache_get (cache w) (cstore w) K) as [[h'|]|e'] eqn:Hget;
    cbn [ret result_of world_of trace_of fst snd].
  - intros [Hin|[]]. assert (K = k) by (now inversion Hin). subst K.
    split; intros x Hx; rewrite Hget in Hx; inversion Hx; subst; reflexivity.
  - intro Hin.
    match type of Hin with
    | In _ (_ :: trace_of ?X) =>
        assert (Hno : ~ In (EvCacheGet k) (trace_of X))
          by (apply Hprod; intro a; confine)
    end.
    destruct Hin as [Hin|Hin]; [|elim (Hno Hin)].
    assert (K = k) by (now inversion Hin). subst K.
    split; intros x Hx; rewrite Hget in Hx; discriminate Hx.
  - intros [Hin|[]]. assert (K = k) by (now inversion Hin). subst K.
    split; intros x Hx; rewrite Hget in Hx; inversion Hx; subst; reflexivity.
Qed.


(** A read, once its model is found in the registry: its validation
    refuses the arguments, or what is left to run is the query, through the
    cache when caching is asked for; the query itself does not ask the
    cache for anything. *)
Lemma read_shape c m w Model :
  is_read c = true ->
  crud_model c = Some (VStr m) ->
  mongoose_models (ext w) (pluralizeName m) = Some Model ->
  (exists err ctx,
      run_public c w = (Ret (Envelope (failure err)), w, logged w err ctx))
  \/ (exists fnName args o rq ctx,
        run_public c w
        = (r <- try_catch (cached_read fnName args o rq) (fun e => fail e ctx) ;;
           ret (envelope_of PValue r)) w
        /\ confined (fun ev => is_cache_get ev = false) rq).
Proof.
  intros Hr Hm Hreg.
  pose proof (resolveModel_registered m w Hreg) as Hres.
  destruct c; try discriminate Hr; cbn [crud_model] in Hm;
    inversion Hm as [E]; clear Hm; cbn [run_public];
    unfold getOne, getMany, getManyWithLimit, getManyWithPagination, aggregate,
      countDocuments;
    cbv zeta; rewrite ?E;
    repeat match goal with
           | |- context [if invalid_model ?x then _ else _] =>
               destruct (invalid_model x);
                 [left; do 2 eexists; apply wrap_fail|]
           | |- context [if not_an_object ?x then _ else _] =>
               destruct (not_an_object x);
                 [left; do 2 eexists; apply wrap_fail|]
           | |- context [if negb (truthy ?x) || negb (isArray ?x) then _ else _] =>
               destruct (negb (truthy x) || negb (isArray x));
                 [left; do 2 eexists; apply wrap_fail|]
           end;
    right; rewrite (@wrap_resolved _ _ _ _ _ Hres); cbv beta;
    do 5 eexists; (split; [reflexivity|]);
    unfold run_query;
    repeat first
      [ apply confined_ret | apply confined_recordDb | apply confined_raise
      | apply confined_store; reflexivity
      | apply confined_bind; [|intros ?] ].
Qed.

(** X18.  A read answered from the cache: when the adapter was asked for
    a key and holds an envelope under it, that envelope is what the read
    returns, and nothing else has been done: the store is not called, no
    timing is recorded and the module state is left as it was. *)
Theorem read_hit_skips_store_and_timing c m w Model k h :
  is_read c = true ->
  crud_model c = Some (VStr m) ->
  mongoose_models (ext w) (pluralizeName m) = Some Model ->
  In (EvCacheGet k) (trace_of (run_public c w)) ->
  cache_get (cache w) (cstore w) k = Ret (Some h) ->
  run_public c w = (Ret (envelope_of PValue h), w, [EvCacheGet k]).
Proof.
  intros Hr Hm Hreg Hin Hget.
  destruct (read_shape c w Hr Hm Hreg)
    as [(err & ctx & Hrun) | (fnName & args & o & rq & ctx & Hrun & Hrq)].
  - rewrite Hrun in Hin. unfold logged in Hin. cbn [trace_of snd] in Hin.
    destruct (logger_set w); simpl in Hin; intuition discriminate.
  - rewrite Hrun in Hin |- *.
    destruct (cached_read fnName args o rq w) as [[[r|e] w1] t1] eqn:Hcr.
    + rewrite (@wrap_ret _ _ _ ctx PValue _ _ _ Hcr) in Hin |- *. cbn [trace_of snd] in Hin.
      assert (Hin' : In (EvCacheGet k) (trace_of (cached_read fnName args o rq w)))
        by now rewrite Hcr.
      destruct (@cached_read_asked fnName args o rq w k Hrq Hin') as [Hhit _].
      rewrite (Hhit h Hget) in Hcr. inversion Hcr; subst. reflexivity.
    + rewrite (@wrap_throw _ _ _ ctx PValue _ _ _ Hcr) in Hin. cbn [trace_of snd] in Hin.
      assert (Hin' : In (EvCacheGet k) (trace_of (cached_read fnName args o rq w))).
      { rewrite Hcr. cbn [trace_of snd]. apply in_app_or in Hin.
        destruct Hin as [Hin|Hin]; [exact Hin|].
        unfold logged in Hin. destruct (logger_set w1); simpl in Hin;
          intuition discriminate. }
      destruct (@cached_read_asked fnName args o rq w k Hrq Hin') as [Hhit _].
      rewrite (Hhit h Hget) in Hcr. discriminate Hcr.
Qed.

(** X19.  A cache adapter that fails breaks the read: when the adapter was
    asked for a key and threw, the read answers with a failure envelope
    carrying the adapter's error, and the store is not called as a
    fallback. *)
Theorem read_fails_when_cache_lookup_throws c m w Model k e :
  is_read c = true ->
  crud_model c = Some (VStr m) ->
  mongoose_models (ext w) (pluralizeName m) = Some Model ->
  In (EvCacheGet k) (trace_of (run_public c w)) ->
  cache_get (cache w) (cstore w) k = Throw e ->
  exists ctx,
    run_public c w
    = (Ret (Envelope (failure e)), w, EvCacheGet k :: logged w e ctx).
Proof.
  intros Hr Hm Hreg Hin Hget.
  destruct (read_shape c w Hr Hm Hreg)
    as [(err & ctx & Hrun) | (fnName & args & o & rq & ctx & Hrun & Hrq)].
  - rewrite Hrun in Hin. unfold logged in Hin. cbn [trace_of snd] in Hin.
    destruct (logger_set w); simpl in Hin; intuition discriminate.
  - exists ctx. rewrite Hrun in Hin |- *.
    destruct (cached_read fnName args o rq w) as [[[r|e'] w1] t1] eqn:Hcr.
    + rewrite (@wrap_ret _ _ _ ctx PValue _ _ _ Hcr) in Hin. cbn [trace_of snd] in Hin.
      assert (Hin' : In (EvCacheGet k) (trace_of (cached_read fnName args o rq w)))
        by now rewrite Hcr.
      destruct (@cached_read_asked fnName args o rq w k Hrq Hin') as [_ Hthrow].
      rewrite (Hthrow e Hget) in Hcr. discriminate Hcr.
    + rewrite (@wrap_throw _ _ _ ctx PValue _ _ _ Hcr) in Hin |- *. cbn [trace_of snd] in Hin.
      assert (Hin' : In (EvCacheGet k) (trace_of (cached_read fnName args o rq w))).
      { rewrite Hcr. cbn [trace_of snd]. apply in_app_or in Hin.
        destruct Hin as [Hin|Hin]; [exact Hin|].
        unfold logged in Hin. destruct (logger_set w1); simpl in Hin;
          intuition discriminate. }
      destruct (@cached_read_asked fnName args o rq w k Hrq Hin') as [_ Hthrow].
      rewrite (Hthrow e Hget) in Hcr. inversion Hcr; subst. reflexivity.
Qed.

End Crud.
(* ------------------------------------------------------------------ *)
(** ** Safe queries, upserts and key construction *)

Section SafeQuery.

Context {P : Platform}.



(** The events of a write once the store is called: that call first, and
    no other call of the store after it. *)
Lemma write_tail_trace Model op parsed opName start ctx w :
  exists t,
    trace_of ((r <- try_catch
                      (res <- store Model op ;;
                       invalidate_hints parsed ;;;
                       _recordDb opName start ;;;
                       ret (ok res))
                      (fun e => fail e ctx) ;;
               ret (envelope_of PValue r)) w)
    = EvStore (model_name Model) op :: t
    /\ count_events is_store_event t = 0%nat.
Proof.
  destruct (db_call Model op (ext w)) as [[res|e] x'] eqn:Hx.
  - destruct (invalidate_hints_run parsed (set_ext x' w)) as (w2 & t2 & Hinv & Hq).
    destruct (recordDb_run opName start w2) as (w3 & Hrec & _).
    assert (H3 : (_recordDb opName start ;;; ret (ok res)) w2
                 = (Ret (ok res), w3, []))
      by (eapply bind_eq; [exact Hrec | reflexivity | reflexivity]).
    assert (H2 : (invalidate_hints parsed ;;; _recordDb opName start ;;; ret (ok res))
                   (set_ext x' w)
                 = (Ret (ok res), w3, t2))
      by (eapply bind_eq; [exact Hinv | exact H3 | now rewrite app_nil_r]).
    exists t2. split.
    + assert (H1 : (res <- store Model op ;;
                    invalidate_hints parsed ;;; _recordDb opName start ;;; ret (ok res)) w
                   = (Ret (ok res), w3, EvStore (model_name Model) op :: t2))
        by (eapply bind_eq;
            [rewrite store_run, Hx; reflexivity | exact H2 | reflexivity]).
      rewrite (@wrap_ret _ _ _ _ ctx PValue _ _ _ H1). reflexivity.
    + apply count_events_none.
      eapply Forall_impl; [|exact Hq]. intros ev [H|H].
      * destruct ev; try discriminate H; reflexivity.
      * destruct ev; try contradiction H; reflexivity.
  - exists (logged (set_ext x' w) e ctx). split.
    + assert (H1 : (res <- store Model op ;;
                    invalidate_hints parsed ;;; _recordDb opName start ;;; ret (ok res)) w
                   = (Throw e, set_ext x' w, [EvStore (model_name Model) op]))
        by (apply bind_throw_run; rewrite store_run, Hx; reflexivity).
      rewrite (@wrap_throw _ _ _ _ ctx PValue _ _ _ H1). reflexivity.
    + unfold logged. destruct (logger_set (set_ext x' w)); reflexivity.
Qed.

(** X22.  In the flat form of the write argument, an options object that
    names none of [session], [upsert], [writeConcern] and [runValidators]
    is not passed on: [upsertOne] given [{ new: true }] alone calls the
    store through [updateOne] with [{ upsert: true }] and nothing else,
    once, and does not ask for the document. *)
Theorem upsertOne_drops_unrecognized_flat_options
  (modelOrObj filter data writeArg : value) (m : string) (w : World)
  (Model : MongooseModel) :
  pick_model modelOrObj = VStr m ->
  mongoose_models (ext w) (pluralizeName m) = Some Model ->
  let arg := pick modelOrObj "writeArg" writeArg in
  typeof arg = TObject -> truthy arg = true -> isArray arg = false ->
  has_recognized_key arg = false ->
  has_nested_options arg = false ->
  let run := run_public (CallUpsertOne modelOrObj filter data writeArg) w in
  exists t,
    trace_of run
    = EvStore (model_name Model)
        (UpdateOne (pick modelOrObj "filter" filter) (pick modelOrObj "data" data)
                   [("upsert", VBool true)])
      :: t
    /\ count_events is_store_event t = 0%nat.
Proof.
  intros Hm Hreg arg Hty Htr Harr Hrec Hnest run.
  pose proof (resolveModel_registered m w Hreg) as Hres.
  assert (Hopt : options (_parseWriteArg arg) = VUndef).
  { unfold _parseWriteArg. rewrite Htr, Hty, Harr. cbn [negb jstype_eqb orb].
    unfold has_recognized_key, has_nested_options in Hrec, Hnest.
    rewrite Hnest, Hrec. reflexivity. }
  subst run. cbn [run_public]. unfold upsertOne. cbv zeta. fold arg.
  rewrite Hm, Hopt.
  rewrite (@wrap_resolved _ _ _ _ _ _ Hres). cbv beta.
  change (upsert_opts VUndef) with [("upsert", VBool true)].
  change (wantsDoc [("upsert", VBool true)]) with false. cbn [andb].
  apply write_tail_trace.
Qed.

End SafeQuery.

Section KeyConstruction.

(** Induction on values, through the lists they hold. *)
Lemma value_nested_ind (Q : value -> Prop) :
  (forall v, (forall a l, v <> VArr a l) -> (forall a c ps, v <> VObj a c ps) -> Q v) ->
  (forall a l, Forall Q l -> Q (VArr a l)) ->
  (forall a c ps, Forall (fun kv => Q (snd kv)) ps -> Q (VObj a c ps)) ->
  forall v, Q v.
Proof.
  intros Hleaf Harr Hobj.
  fix IH 1. intro v.
  destruct v as [| | b | n | | b | s | z | d | n | e | a l | a c ps];
    try (apply Hleaf; intros; discriminate).
  - apply Harr. induction l as [|x l IHl]; constructor; [apply IH | exact IHl].
  - apply Hobj. induction ps as [|[k x] ps IHps]; constructor;
      [apply IH | exact IHps].
Qed.

Lemma ser_elems_succeeds cs :
  Forall ser_succeeds cs ->
  forall seen, exists l seen', ser_elems cs seen = inr (l, seen').
Proof.
  induction 1 as [|c r Hc _ IH]; intro seen; simpl; [eauto|].
  destruct (Hc seen) as (o & s1 & ->).
  destruct (IH s1) as (l & s2 & ->). eauto.
Qed.

Lemma ser_members_succeeds (cs : list (string * ser_m)) :
  Forall (fun kc => ser_succeeds (snd kc)) cs ->
  forall seen, exists l seen', ser_members cs seen = inr (l, seen').
Proof.
  induction 1 as [|[k c] r Hc _ IH]; intro seen; simpl; [eauto|].
  cbn [snd] in Hc. destruct (Hc seen) as (o & s1 & ->).
  destruct (IH s1) as (l & s2 & ->). eauto.
Qed.

Lemma forall_insert_key {A} (Q : string * A -> Prop) kv l :
  Q kv -> Forall Q l -> Forall Q (insert_key kv l).
Proof.
  intros Hkv Hl. induction Hl as [|x r Hx Hr IH]; simpl.
  - constructor; [exact Hkv | constructor].
  - destruct (String.leb (fst kv) (fst x)); constructor; auto.
Qed.

Lemma forall_sort_keys {A} (Q : string * A -> Prop) l :
  Forall Q l -> Forall Q (sort_keys l).
Proof.
  induction 1 as [|x r Hx _ IH]; simpl; [constructor|].
  now apply forall_insert_key.
Qed.

Lemma forall_assign_all {A} (Q : string * A -> Prop) names :
  Forall Q names -> forall o, Forall Q o -> Forall Q (assign_all names o).
Proof.
  unfold assign_all. induction 1 as [|[k x] r Hx _ IH]; intros o Ho; simpl;
    [exact Ho|].
  apply IH. now apply forall_set_prop.
Qed.

Lemma forall_insert_index {A} (Q : string * A -> Prop) n kv l :
  Q kv -> Forall (fun x => Q (snd x)) l -> Forall (fun x => Q (snd x)) (insert_index n kv l).
Proof.
  intros Hkv Hl. induction Hl as [|x r Hx Hr IH]; simpl.
  - constructor; [exact Hkv | constructor].
  - destruct (n <=? fst x); constructor; auto.
Qed.

Lemma forall_index_part {A} (Q : string * A -> Prop) l :
  Forall Q l -> Forall (fun x => Q (snd x)) (index_part l).
Proof.
  induction 1 as [|x r Hx _ IH]; simpl; [constructor|].
  destruct (array_index (fst x)); [now apply forall_insert_index | exact IH].
Qed.

Lemma forall_own_property_order {A} (Q : string * A -> Prop) l :
  Forall Q l -> Forall Q (own_property_order l).
Proof.
  intro H. unfold own_property_order. apply Forall_app. split.
  - apply Forall_map. now apply forall_index_part.
  - apply Forall_forall. intros x Hx. apply filter_In in Hx.
    rewrite Forall_forall in H. now apply H.
Qed.

(** Serialising a value that holds no throwing [toJSON] does not throw. *)
Lemma ser_throw_free : forall v, throw_free v = true -> ser_succeeds (ser v).
Proof.
  apply (@value_nested_ind (fun v => throw_free v = true -> ser_succeeds (ser v))).
  - intros v Ha Ho Hv seen.
    destruct v; simpl in *; try discriminate; unfold ser_const; eauto;
      [elim (Ha a elems) | elim (Ho a cls props)]; reflexivity.
  - intros a l IH Hv seen. simpl in Hv. cbn [ser].
    destruct (seen_has a seen); [eauto|].
    unfold ser_array.
    destruct (@ser_elems_succeeds (map ser l)) with (seen := seen_add a seen)
      as (l' & s' & ->); [|eauto].
    apply Forall_map. rewrite forallb_forall in Hv. rewrite Forall_forall in *.
    intros x Hx. apply IH; auto.
  - intros a c ps IH Hv seen. simpl in Hv.
    change (ser (VObj a c ps) seen)
      with (if seen_has a seen then inr (Some (quote cycle_token), seen)
            else ser_object
                   (sorted_object c (ser_const (quote c)) (map member ps))
                   (seen_add a seen)).
    destruct (seen_has a seen); [eauto|].
    unfold ser_object.
    destruct (@ser_members_succeeds
                (sorted_object c (ser_const (quote c)) (map member ps)))
      with (seen := seen_add a seen) as (l' & s' & ->); [|eauto].
    unfold sorted_object. apply forall_own_property_order.
    apply forall_assign_all.
    + apply forall_sort_keys. apply Forall_map.
      rewrite forallb_forall in Hv. rewrite Forall_forall in *.
      intros [k x] Hx. simpl. apply (IH (k, x) Hx). exact (Hv (k, x) Hx).
    + destruct (String.eqb c "Object"); repeat constructor.
      intro s. unfold ser_const. simpl. eauto.
Qed.

Lemma plain_throw_free : forall v, plain v = true -> throw_free v = true.
Proof.
  apply (@value_nested_ind (fun v => plain v = true -> throw_free v = true)).
  - intros v Ha Ho Hv.
    destruct v; simpl in *; try discriminate; try reflexivity;
      [elim (Ha a elems) | elim (Ho a cls props)]; reflexivity.
  - intros a l IH Hv. simpl in *.
    rewrite forallb_forall in *. rewrite Forall_forall in IH.
    intros x Hx. apply IH; auto.
  - intros a c ps IH Hv. simpl in *.
    apply andb_true_iff in Hv. destruct Hv as [_ Hv].
    rewrite forallb_forall in *. rewrite Forall_forall in IH.
    intros x Hx. apply IH; auto.
Qed.

(** X23.  When the first argument is a string and the other arguments are
    plain data (primitives, functions, arrays and object literals with
    data properties, no [toJSON] that throws; no [Date], [Set], [Map] or
    other class instance), a cache key is always built, shared and cyclic
    references included: the other arguments serialise to a string, and the
    key is the operation name, the model name and the hash of that string,
    joined by colons.  When the arguments do not start with a string (no
    argument at all among the cases), the result is the error
    [Invalid args]. *)
Theorem buildCacheKey_succeeds_on_plain_data (fnName : string) (args : list value) :
  (forall model rest,
      args = VStr model :: rest ->
      forallb plain rest = true ->
      exists str,
        stableStringify_fresh rest = ok (Some str)
        /\ buildCacheKey fnName args = ok (fnName ++ ":" ++ model ++ ":" ++ hash str))
  /\ ((forall model rest, args <> VStr model :: rest) ->
      buildCacheKey fnName args
      = failure (JsError "Invalid args: first argument must be a model name (string)")).
Proof.
  split.
  - intros model rest -> Hfree.
    assert (Hs : Forall ser_succeeds (map ser rest)).
    { apply Forall_map. rewrite forallb_forall in Hfree. apply Forall_forall.
      intros x Hx. apply ser_throw_free. apply plain_throw_free. now apply Hfree. }
    destruct (ser_elems_succeeds Hs []) as (l & s' & Hl).
    exists ("[" ++ String.concat "," l ++ "]").
    unfold buildCacheKey, stableStringify_fresh, ser_array. rewrite Hl.
    split; reflexivity.
  - intro H. destruct args as [|[] rest]; try reflexivity. now elim (H s rest).
Qed.

End KeyConstruction.
(* ------------------------------------------------------------------ *)
(** ** Writes that invalidate *)

Section WriteInvalidation.

Context {P : Platform}.

(** X24.  An input that names no key and no prefix (a falsy value, a
    number, an object without [keys] and [prefixes], an empty array)
    invalidates nothing: the count returned is 0, the adapter is not
    called and the invalidations counter keeps its value. *)
Theorem invalidateCache_nothing_to_do input w :
  filter truthy (input_keys input) = [] ->
  input_prefixes input = [] ->
  let run := invalidateCache input w in
  result_of run = Ret (ok (mkInvalidated 0))
  /\ trace_of run = []
  /\ cstore (world_of run) = cstore w
  /\ Metrics.invalidations (Metrics.cache (METRICS (world_of run)))
     = Metrics.invalidations (Metrics.cache (METRICS w)).
Proof.
  intros Hk Hp run. subst run. unfold invalidateCache.
  destruct (negb (truthy input)); [repeat split|].
  rewrite Hk, Hp. cbn [dedupe del_each].
  unfold try_catch, bind, ret, modify, result_of, world_of, trace_of. simpl.
  repeat split. lia.
Qed.

(** The run of [invalidateCache({ keys: key, prefixes: undefined })] for a
    non-empty string [key], on the working adapter. *)
Lemma invalidate_key_run fails key w :
  cache w = memCache fails ->
  String.eqb key EmptyString = false ->
  let count := Z.of_nat (ok_count fails [VStr key]) in
  exists w',
    invalidateCache (obj [("keys", VStr key); ("prefixes", VUndef)]) w
    = (Ret (ok (mkInvalidated count)), w', [EvCacheDel (VStr key)])
    /\ cache w' = cache w /\ ext w' = ext w
    /\ cstore w' = remove_all fails [VStr key] (cstore w)
    /\ METRICS w' = add_invalidations count (METRICS w).
Proof.
  intros Hc Hk count.
  destruct (@del_each_mem P fails [VStr key] 0 w Hc) as (w1 & H1 & F1 & S1).
  exists (set_METRICS (add_invalidations count (METRICS w1)) w1).
  split; [|destruct F1 as (Fe & Fc & _ & Fm & _); repeat split; auto;
           cbn [METRICS set_METRICS]; now rewrite Fm].
  unfold invalidateCache.
  change (truthy (obj [("keys", VStr key); ("prefixes", VUndef)])) with true.
  cbn [negb].
  change (input_keys (obj [("keys", VStr key); ("prefixes", VUndef)]))
    with (if truthy (VStr key) then [VStr key] else []).
  change (input_prefixes (obj [("keys", VStr key); ("prefixes", VUndef)]))
    with (@nil value).
  cbn [truthy]. rewrite Hk. cbn [negb filter dedupe truthy]. rewrite Hk.
  cbn [negb].
  apply try_catch_ret.
  eapply bind_eq; [exact H1 | | now rewrite app_nil_r].
  eapply bind_eq; [reflexivity | | reflexivity].
  eapply bind_eq; reflexivity.
Qed.

(** X25.  A write that reaches the store and succeeds, called with a cache
    key as its write argument (the legacy form, a non-empty string), on a
    working adapter: the envelope carries what the write makes of the
    result of the store (the result itself for the writes other than
    [createOne] and [createMany]), the entry cached under that key is gone,
    the entries under other keys are kept, and the invalidations counter
    has advanced by one. *)
Theorem write_invalidates_its_key c m w Model res key :
  is_write c = true ->
  crud_model c = Some (VStr m) ->
  mongoose_models (ext w) (pluralizeName m) = Some Model ->
  (forall op x, exists x', db_call Model op x = (Ret res, x')) ->
  write_arg c = Some (VStr key) ->
  String.eqb key EmptyString = false ->
  cache w = memCache (fun _ => false) ->
  let run := run_public c w in
  count_events is_store_event (trace_of run) <> 0%nat ->
  result_of run = Ret (Envelope (write_answer c res w))
  /\ (is_create c = false -> write_answer c res w = ok (PValue res))
  /\ mem_lookup (VStr key) (cstore (world_of run)) = None
  /\ (forall other,
        String.eqb other key = false ->
        mem_lookup (VStr other) (cstore (world_of run))
        = mem_lookup (VStr other) (cstore w))
  /\ Metrics.invalidations (Metrics.cache (METRICS (world_of run)))
     = Metrics.invalidations (Metrics.cache (METRICS w)) + 1.
Proof.
  intros Hw Hm Hreg Hdb Harg Hkey Hc run Hstore.
  destruct (write_shape c w Hw Hm Hreg)
    as [(err & ctx & Hrun) | (op & parsed & opName & ctx & Hrun & Hparsed)].
  { exfalso. apply Hstore. unfold run. rewrite Hrun. unfold logged.
    cbn [trace_of snd]. destruct (logger_set w); reflexivity. }
  rewrite (Hparsed _ Harg) in Hrun. clear Hparsed.
  destruct (Hdb op (ext w)) as [x' Hx].
  assert (Hc1 : cache (set_ext x' w) = memCache (fun _ => false)) by exact Hc.
  destruct (invalidate_key_run key (set_ext x' w) Hc1 Hkey)
    as (w2 & Hinv & Hc2 & He2 & Hs2 & Hm2).
  assert (Hhints : invalidate_hints (_parseWriteArg (VStr key)) (set_ext x' w)
                   = (Ret tt, w2, [EvCacheDel (VStr key)])).
  { unfold invalidate_hints, _parseWriteArg. cbn [truthy]. rewrite Hkey.
    cbn [negb typeof jstype_eqb orb invalidateKeys invalidatePrefixes truthy].
    rewrite Hkey. cbn [negb orb].
    eapply bind_eq; [exact Hinv | reflexivity | reflexivity]. }
  set (start := date_now (ext w) * 1000000) in *.
  assert (Hrec : exists w3, _recordDb opName start w2 = (Ret tt, w3, [])
                            /\ cstore w3 = cstore w2
                            /\ Metrics.cache (METRICS w3) = Metrics.cache (METRICS w2)).
  { unfold _recordDb. destruct (start =? 0); [exists w2; repeat split|].
    eexists. split; [reflexivity|]. split; reflexivity. }
  destruct Hrec as (w3 & Hrec & Hs3 & Hm3).
  set (answer := match result_of (plain_result c res w) with
                 | Ret plain => Ret (ok plain)
                 | Throw e => Throw e
                 end).
  assert (H3 : (_recordDb opName start ;;;
                plain <- plain_result c res ;; ret (ok plain)) w2
               = (answer, w3, [])).
  { eapply bind_eq; [exact Hrec | | reflexivity].
    unfold bind, answer. rewrite (plain_result_run c res w w3).
    destruct (result_of (plain_result c res w)); reflexivity. }
  assert (H2 : (invalidate_hints (_parseWriteArg (VStr key)) ;;;
                _recordDb opName start ;;;
                plain <- plain_result c res ;; ret (ok plain)) (set_ext x' w)
               = (answer, w3, [EvCacheDel (VStr key)]))
    by (eapply bind_eq; [exact Hhints | exact H3 | reflexivity]).
  assert (H1 : (r0 <- store Model op ;;
                invalidate_hints (_parseWriteArg (VStr key)) ;;;
                _recordDb opName start ;;;
                plain <- plain_result c r0 ;; ret (ok plain)) w
               = (answer, w3,
                  [EvStore (model_name Model) op; EvCacheDel (VStr key)]))
    by (eapply bind_eq;
        [rewrite store_run, Hx; reflexivity | exact H2 | reflexivity]).
  assert (Hfinal : result_of run = Ret (Envelope (write_answer c res w))
                   /\ world_of run = w3).
  { unfold run, write_answer. rewrite Hrun. unfold answer in H1.
    destruct (result_of (plain_result c res w)) as [plain|e].
    - rewrite (@wrap_ret _ _ _ _ ctx PValue _ _ _ H1). split; reflexivity.
    - rewrite (@wrap_throw _ _ _ _ ctx PValue _ _ _ H1). split; reflexivity. }
  destruct Hfinal as [Hres Hworld]. rewrite Hworld.
  split; [exact Hres|]. split; [apply write_answer_plain|].
  rewrite Hs3, Hs2, Hm3, Hm2.
  cbn [cstore set_ext METRICS]. rewrite remove_all_one.
  split; [|split].
  - unfold mem_remove. apply mem_lookup_filter_none.
    intros e He Hsv. now rewrite Hsv.
  - intros other Ho. unfold mem_remove. apply mem_lookup_filter_keep.
    intros e He Hsv. apply same_value_str_l in Hsv. rewrite Hsv. simpl.
    rewrite String.eqb_sym. now rewrite Ho.
  - reflexivity.
Qed.

End WriteInvalidation.
(* ------------------------------------------------------------------ *)
(** ** The properties above, at sample calls *)

Lemma pluralizeName_idempotent_witness :
  pluralizeName "user" = "users" /\ pluralizeName "users" = "users"
  /\ pluralizeName "model2" = "model2".
Proof.
  destruct (pluralizeName_idempotent "user") as (_ & _ & _ & _ & H5).
  destruct (pluralizeName_idempotent "users") as (_ & _ & H3 & _).
  destruct (pluralizeName_idempotent "model2") as (_ & _ & _ & H4 & _).
  split; [|split].
  - apply H5. exists "r"%char. repeat split. discriminate.
  - apply H3. reflexivity.
  - apply H4. reflexivity.
Defined.

Lemma resolveModel_plural_form_witness :
  @resolveModel demo _ (VStr "user") sample_world = (Ret "users", sample_world, [])
  /\ @resolveModel demo _ (VStr "users") sample_world = (Ret "users", sample_world, []).
Proof.
  destruct (@resolveModel_plural_form demo "user") as [_ H].
  apply (H sample_world "users"). reflexivity.
Defined.

Lemma modelsDir_set_then_get_witness :
  result_of (@setModelsDir demo _ (VNum 5) sample_world)
  = Ret (failure (JsError "Directory must be a string"))
  /\ @MODELS_DIR demo (world_of (@setModelsDir demo _ (VNum 5) sample_world)) = None.
Proof.
  destruct (@modelsDir_set_then_get demo "m" sample_world) as (_ & _ & _ & H).
  apply (H (VNum 5)). discriminate.
Defined.

Lemma buildCacheKey_succeeds_on_plain_data_witness :
  (exists str,
      stableStringify_fresh [aliased; self_referring] = ok (Some str)
      /\ buildCacheKey "getOne" [VStr "users"; aliased; self_referring]
         = ok ("getOne" ++ ":" ++ "users" ++ ":" ++ hash str))
  /\ buildCacheKey "getOne" [VNum 5; aliased]
     = failure (JsError "Invalid args: first argument must be a model name (string)").
Proof.
  split.
  - destruct (buildCacheKey_succeeds_on_plain_data "getOne"
                [VStr "users"; aliased; self_referring]) as [H _].
    apply (H "users" [aliased; self_referring]); reflexivity.
  - destruct (buildCacheKey_succeeds_on_plain_data "getOne" [VNum 5; aliased])
      as [_ H].
    apply H. discriminate.
Defined.

Lemma crud_refuses_model_that_is_no_string_witness :
  exists err ctx,
    @run_public demo _ (CallDeleteMany (VNum 5) filter_ab VUndef) sample_world
    = (Ret (Envelope (failure err)), sample_world, logged sample_world err ctx).
Proof.
  apply (@crud_refuses_model_that_is_no_string demo
           (CallDeleteMany (VNum 5) filter_ab VUndef) (VNum 5) sample_world).
  - reflexivity.
  - discriminate.
Defined.

Lemma failed_write_leaves_cache_and_metrics_witness :
  exists err w' t,
    @run_public demo_store_down _ (sample_update demo_store_down) store_down_world
    = (Ret (Envelope (failure err)), w', t)
    /\ count_events is_cache_event t = 0%nat
    /\ @METRICS demo_store_down w' = Metrics.zero
    /\ @cstore demo_store_down w' = keyed_store
    /\ ((count_events is_store_event t = 1%nat /\ err = JsError "connection lost")
        \/ (count_events is_store_event t = 0%nat /\ w' = store_down_world)).
Proof.
  apply (@failed_write_leaves_cache_and_metrics demo_store_down
           (sample_update demo_store_down) "users" store_down_world "users"
           (JsError "connection lost")).
  - reflexivity.
  - reflexivity.
  - reflexivity.
  - intros op x. exists (x + 5). reflexivity.
Defined.

Lemma write_succeeds_whatever_the_cache_does_witness :
  (exists r w' t,
     @run_public demo _ sample_delete stubborn_world = (Ret (Envelope r), w', t)
     /\ ((r = ok (PValue (obj [("acknowledged", VBool true)]))
          /\ count_events is_store_event t = 1%nat)
         \/ (status r = false /\ w' = stubborn_world
             /\ count_events is_store_event t = 0%nat)))
  /\ (exists r w' t,
        @run_public demo _ sample_createMany stubborn_world = (Ret (Envelope r), w', t)
        /\ ((r = failure (JsError "res.map is not a function")
             /\ count_events is_store_event t = 1%nat)
            \/ (status r = false /\ w' = stubborn_world
                /\ count_events is_store_event t = 0%nat))).
Proof.
  split.
  - destruct (@write_succeeds_whatever_the_cache_does demo sample_delete "users"
                stubborn_world "users" (obj [("acknowledged", VBool true)]))
      as (r & w' & t & Hrun & Hcases & _).
    + reflexivity.
    + reflexivity.
    + reflexivity.
    + intros op x. exists (x + 5). reflexivity.
    + exists r, w', t. split; [exact Hrun | exact Hcases].
  - destruct (@write_succeeds_whatever_the_cache_does demo sample_createMany "users"
                stubborn_world "users" (obj [("acknowledged", VBool true)]))
      as (r & w' & t & Hrun & Hcases & _).
    + reflexivity.
    + reflexivity.
    + reflexivity.
    + intros op x. exists (x + 5). reflexivity.
    + exists r, w', t. split; [exact Hrun | exact Hcases].
Defined.

Lemma read_hit_skips_store_and_timing_witness :
  @run_public demo _ sample_getOne answered_world
  = (Ret (Envelope (ok (PValue (VNum 1)))), answered_world,
     [EvCacheGet (VStr "getOne:users:1fejte1")]).
Proof.
  apply (@read_hit_skips_store_and_timing demo sample_getOne "users" answered_world
           "users" (VStr "getOne:users:1fejte1") (ok (VNum 1))).
  - reflexivity.
  - reflexivity.
  - reflexivity.
  - vm_compute. left. reflexivity.
  - reflexivity.
Defined.

Lemma read_fails_when_cache_lookup_throws_witness :
  exists ctx,
    @run_public demo _ sample_getOne broken_get_world
    = (Ret (Envelope (failure (JsError "cache unreachable"))), broken_get_world,
       EvCacheGet (VStr "getOne:users:1fejte1")
         :: logged broken_get_world (JsError "cache unreachable") ctx).
Proof.
  apply (@read_fails_when_cache_lookup_throws demo sample_getOne "users"
           broken_get_world "users").
  - reflexivity.
  - reflexivity.
  - reflexivity.
  - vm_compute. left. reflexivity.
  - reflexivity.
Defined.


Lemma upsertOne_drops_unrecognized_flat_options_witness :
  exists t,
    trace_of (@run_public demo _
                (CallUpsertOne (VStr "user") filter_ab (obj []) new_only_arg)
                sample_world)
    = EvStore "users" (UpdateOne filter_ab (obj []) [("upsert", VBool true)]) :: t
    /\ count_events is_store_event t = 0%nat.
Proof.
  apply (@upsertOne_drops_unrecognized_flat_options demo
           (VStr "user") filter_ab (obj []) new_only_arg "user" sample_world "users");
    reflexivity.
Defined.

Lemma invalidateCache_nothing_to_do_witness :
  result_of (@invalidateCache demo _ (VNum 5) keyed_world) = Ret (ok (mkInvalidated 0))
  /\ trace_of (@invalidateCache demo _ (VNum 5) keyed_world) = []
  /\ @cstore demo (world_of (@invalidateCache demo _ (VNum 5) keyed_world))
     = keyed_store
  /\ Metrics.invalidations
       (Metrics.cache
          (@METRICS demo (world_of (@invalidateCache demo _ (VNum 5) keyed_world))))
     = 0.
Proof.
  apply (@invalidateCache_nothing_to_do demo (VNum 5) keyed_world); reflexivity.
Defined.

Lemma write_invalidates_its_key_witness :
  result_of (@run_public demo _ sample_delete keyed_world)
  = Ret (Envelope (ok (PValue (obj [("acknowledged", VBool true)]))))
  /\ mem_lookup (VStr "getOne:users:iduull")
       (@cstore demo (world_of (@run_public demo _ sample_delete keyed_world)))
     = None
  /\ Metrics.invalidations
       (Metrics.cache
          (@METRICS demo (world_of (@run_public demo _ sample_delete keyed_world))))
     = 1.
Proof.
  destruct (@write_invalidates_its_key demo sample_delete "users" keyed_world "users"
              (obj [("acknowledged", VBool true)]) "getOne:users:iduull")
    as (H1 & _ & H2 & _ & H4).
  - reflexivity.
  - reflexivity.
  - reflexivity.
  - intros op x. exists (x + 5). reflexivity.
  - reflexivity.
  - reflexivity.
  - reflexivity.
  - vm_compute. discriminate.
  - split; [exact H1|]. split; [exact H2 | exact H4].
Defined.

(* ------------------------------------------------------------------ *)
(** ** What the operations on a model keep *)

Section Invariants.

Context {P : Platform}.

Lemma world_bind {A B} (m : M A) (f : A -> M B) w :
  world_of (bind m f w)
  = match result_of (m w) with
    | Ret a => world_of (f a (world_of (m w)))
    | Throw _ => world_of (m w)
    end.
Proof.
  unfold bind. destruct (m w) as [[[a|e] w1] t1]; [|reflexivity].
  cbn [result_of world_of fst snd]. destruct (f a w1) as [[r w2] t2]. reflexivity.
Qed.

Lemma world_try_catch {A} (m : M A) h w :
  world_of (try_catch m h w)
  = match result_of (m w) with
    | Ret _ => world_of (m w)
    | Throw e => world_of (h e (world_of (m w)))
    end.
Proof.
  unfold try_catch. destruct (m w) as [[[a|e] w1] t1]; [reflexivity|].
  cbn [result_of world_of fst snd]. destruct (h e w1) as [[r w2] t2]. reflexivity.
Qed.

Lemma preserves_ret {A} I (a : A) : preserves I (ret a).
Proof. intros w H. exact H. Qed.

Lemma preserves_throw {A} I e : preserves I (throw (A := A) e).
Proof. intros w H. exact H. Qed.

Lemma preserves_raise I e : preserves I (raise e).
Proof. intros w H. destruct e; exact H. Qed.

Lemma preserves_emit I ev : preserves I (emit ev).
Proof. intros w H. exact H. Qed.

Lemma preserves_get_world I : preserves I get_world.
Proof. intros w H. exact H. Qed.

Lemma preserves_bind {A B} I (m : M A) (f : A -> M B) :
  preserves I m -> (forall a, preserves I (f a)) -> preserves I (bind m f).
Proof.
  intros Hm Hf w H. rewrite world_bind.
  destruct (result_of (m w)); [apply Hf|]; apply Hm; exact H.
Qed.

(** The same, with what is known of the value the first part returns. *)
Lemma preserves_bind_result {A B} I (Q : A -> Prop) (m : M A) (f : A -> M B) :
  preserves I m ->
  (forall w a, result_of (m w) = Ret a -> Q a) ->
  (forall a, Q a -> preserves I (f a)) ->
  preserves I (bind m f).
Proof.
  intros Hm Hq Hf w H. rewrite world_bind.
  destruct (result_of (m w)) as [a|e] eqn:E; [|apply Hm; exact H].
  apply Hf; [exact (Hq w a E) | apply Hm; exact H].
Qed.

Lemma preserves_try_catch {A} I (m : M A) h :
  preserves I m -> (forall e, preserves I (h e)) -> preserves I (try_catch m h).
Proof.
  intros Hm Hh w H. rewrite world_try_catch.
  destruct (result_of (m w)); [|apply Hh]; apply Hm; exact H.
Qed.

Lemma preserves_fail {T} I err ctx : preserves I (fail (T := T) err ctx).
Proof. intros w H. rewrite fail_logged. exact H. Qed.

Lemma preserves_call_back {A} I (f : callback A) : preserves I f -> preserves I (call_back f).
Proof.
  intros Hf w H. specialize (Hf w H). unfold call_back.
  destruct (f w) as [[r w1] t1]. exact Hf.
Qed.

Lemma preserves_adapter_get I k : preserves I (adapter_get k).
Proof. intros w H. rewrite adapter_get_run. exact H. Qed.

Lemma preserves_adapter_keys I : preserves I adapter_keys.
Proof.
  intros w H. unfold adapter_keys, bind, emit, get_world, ret, throw. cbv beta.
  destruct (cache_keys (cache w) (cstore w)); exact H.
Qed.

Lemma preserves_toObject I doc : preserves I (toObject doc).
Proof. intros w H. rewrite (toObject_run doc w w). exact H. Qed.

Lemma preserves_map_toObject I res : preserves I (map_toObject res).
Proof.
  intros w H.
  rewrite (plain_result_run (CallCreateMany VUndef VUndef VUndef) res w w
           : map_toObject res w = _).
  exact H.
Qed.

Lemma preserves_nowNs I : preserves I _nowNs.
Proof. intros w H. rewrite nowNs_run. exact H. Qed.

Lemma recordDb_world opName startNs w :
  world_of (_recordDb opName startNs w)
  = if startNs =? 0 then w
    else set_METRICS
           (Metrics.mk (Metrics.cache (METRICS w))
              (set_prop opName
                 (record_bucket
                    (Z.quot (date_now (ext w) * 1000000 - startNs) 1000000)
                    (match assoc opName (Metrics.perOp (METRICS w)) with
                     | Some b => b
                     | None => empty_bucket
                     end))
                 (Metrics.perOp (METRICS w)))) w.
Proof. unfold _recordDb. destruct (startNs =? 0); reflexivity. Qed.

(** The counter of the invalidation engine does not go down. *)
Lemma del_and_count_result k count w r :
  result_of (del_and_count k count w) = Ret r -> count <= r.
Proof.
  cbv [del_and_count try_catch bind adapter_del emit get_world modify throw ret].
  destruct (cache_del (cache w) (cstore w) k); cbv [result_of fst];
    intro H; inversion H; lia.
Qed.

Lemma del_each_result ks : forall count w r,
  result_of (del_each ks count w) = Ret r -> count <= r.
Proof.
  induction ks as [|k rest IH]; intros count w r; cbn [del_each].
  - cbn. intro H. inversion H. lia.
  - unfold bind.
    destruct (del_and_count k count w) as [[[c|e] w1] t1] eqn:E;
      [|cbn; discriminate].
    pose proof (@del_and_count_result k count w c) as Hc. rewrite E in Hc.
    specialize (Hc eq_refl).
    destruct (del_each rest c w1) as [[r2 w2] t2] eqn:E2.
    cbn [result_of fst]. intro H. subst r2.
    pose proof (IH c w1 r) as H'. rewrite E2 in H'. specialize (H' eq_refl). lia.
Qed.

Lemma del_matching_result p all : forall count w r,
  result_of (del_matching p all count w) = Ret r -> count <= r.
Proof.
  induction all as [|key rest IH]; intros count w r; cbn [del_matching].
  - cbn. intro H. inversion H. lia.
  - unfold bind at 1.
    destruct (starts_with key p w) as [[[b|e] w1] t1] eqn:Eb; [|cbn; discriminate].
    assert (w1 = w) by (unfold starts_with in Eb; destruct p; inversion Eb; reflexivity).
    subst w1. unfold bind.
    destruct ((if b then del_and_count key count else ret count) w)
      as [[[c|e] w1] t2] eqn:E; [|cbn; discriminate].
    assert (Hc : count <= c).
    { destruct b.
      - pose proof (@del_and_count_result key count w c) as Hc. rewrite E in Hc.
        exact (Hc eq_refl).
      - inversion E. lia. }
    destruct (del_matching p rest c w1) as [[r2 w2] t3] eqn:E2.
    cbn [result_of fst]. intro H. subst r2.
    pose proof (IH c w1 r) as H'. rewrite E2 in H'. specialize (H' eq_refl). lia.
Qed.

Lemma del_prefixes_result ps all : forall count w r,
  result_of (del_prefixes ps all count w) = Ret r -> count <= r.
Proof.
  induction ps as [|p rest IH]; intros count w r; cbn [del_prefixes].
  - cbn. intro H. inversion H. lia.
  - unfold bind.
    destruct (del_matching p all count w) as [[[c|e] w1] t1] eqn:E;
      [|cbn; discriminate].
    pose proof (@del_matching_result p all count w c) as Hc. rewrite E in Hc.
    specialize (Hc eq_refl).
    destruct (del_prefixes rest all c w1) as [[r2 w2] t2] eqn:E2.
    cbn [result_of fst]. intro H. subst r2.
    pose proof (IH c w1 r) as H'. rewrite E2 in H'. specialize (H' eq_refl). lia.
Qed.

Lemma bind_get_world {B} (f : World -> M B) w : bind get_world f w = f w w.
Proof. unfold bind, get_world. destruct (f w w) as [[r w2] t2]. reflexivity. Qed.

Lemma preserves_call_ext {A} I (f : Ext -> outcome A * Ext) :
  (forall x w, I w -> I (set_ext x w)) -> preserves I (call_ext f).
Proof.
  intros HI w H. unfold call_ext. destruct (f (ext w)) as [r x]. apply HI. exact H.
Qed.

(** What [resolveModel] does to the module state: it may fix the models
    directory when none is set, and nothing else. *)
Lemma resolveModel_world model w :
  let w' := world_of (resolveModel model w) in
  cache w' = cache w /\ cstore w' = cstore w /\ logger_set w' = logger_set w
  /\ METRICS w' = METRICS w
  /\ (MODELS_DIR w' = MODELS_DIR w
      \/ (nonempty (MODELS_DIR w) = None /\ MODELS_DIR w' = Some fallback_dir)).
Proof.
  cbv zeta. destruct model; try (cbn; repeat split; left; reflexivity).
  unfold resolveModel. rewrite bind_get_world.
  destruct (mongoose_models (ext w) (pluralizeName s)) as [found|];
    [cbn; repeat split; left; reflexivity|].
  set (K := fun _ : unit => bind get_world _).
  assert (HK : forall w1,
             preserves (fun w' => cache w' = cache w1 /\ cstore w' = cstore w1
                              /\ logger_set w' = logger_set w1
                              /\ METRICS w' = METRICS w1
                              /\ MODELS_DIR w' = MODELS_DIR w1) (K tt)).
  { intro w1. unfold K.
    apply preserves_bind; [apply preserves_get_world|]. intro w2.
    apply preserves_bind; [apply preserves_emit|]. intros _.
    apply preserves_bind; [apply preserves_call_ext; intros x w3 H; exact H|]. intro o.
    apply preserves_bind; [apply preserves_get_world|]. intro w3.
    destruct (mongoose_models (ext w3) (pluralizeName s)); [apply preserves_ret|].
    destruct o; [apply preserves_ret | apply preserves_throw]. }
  rewrite world_bind.
  destruct (nonempty (MODELS_DIR w)) as [d|] eqn:Ed.
  - cbn [ret result_of world_of fst snd].
    destruct (HK w w) as (H1 & H2 & H3 & H4 & H5); [repeat split|].
    repeat split; auto.
  - assert (Hset : (d <- getModelsDir ;; _ <- setModelsDir (VStr d) ;; ret tt) w
                   = (Ret tt, set_MODELS_DIR (Some fallback_dir) w, [])).
    { unfold getModelsDir, setModelsDir, bind, get_world, modify, ret, fallback_dir.
      rewrite Ed. destruct (nonempty env_MODELS_DIR); reflexivity. }
    rewrite Hset. cbn [result_of world_of fst snd].
    destruct (HK (set_MODELS_DIR (Some fallback_dir) w)
                 (set_MODELS_DIR (Some fallback_dir) w))
      as (H1 & H2 & H3 & H4 & H5); [repeat split|].
    rewrite H1, H2, H3, H4, H5. repeat split. right. split; reflexivity.
Qed.

(** The principle: a property of the module state that the steps of the
    operations keep is kept by every operation on a model.  [I0] is the
    property between operations, [I s] the property while an operation
    that took its start time [s] is at work. *)
Section Principle.

Variable I0 : World -> Prop.
Variable I : Z -> World -> Prop.

Hypothesis I_start : forall w, I0 w -> I (date_now (ext w) * 1000000) w.
Hypothesis I_end : forall s w, I s w -> I0 w.
Hypothesis I0_resolve : forall model, preserves I0 (resolveModel model).
Hypothesis I_store : forall s Model op w,
  I s w -> I s (set_ext (snd (db_call Model op (ext w))) w).
Hypothesis I_cstore : forall s st w, I s w -> I s (set_cstore st w).
Hypothesis I_invalidations : forall s count w,
  0 <= count -> I s w -> I s (set_METRICS (add_invalidations count (METRICS w)) w).
Hypothesis I_record : forall s opName, preserves (I s) (_recordDb opName s).

Lemma preserves_store s Model op : preserves (I s) (store Model op).
Proof. intros w H. rewrite store_run. apply I_store. exact H. Qed.

Lemma preserves_adapter_put s k v ttlMs : preserves (I s) (adapter_put k v ttlMs).
Proof.
  intros w H. unfold adapter_put, bind, emit, get_world, modify, throw. cbv beta.
  destruct (cache_put (cache w) (cstore w) k v ttlMs);
    cbn [world_of fst snd]; [apply I_cstore|]; exact H.
Qed.

Lemma preserves_adapter_del s k : preserves (I s) (adapter_del k).
Proof.
  intros w H. unfold adapter_del, bind, emit, get_world, modify, throw. cbv beta.
  destruct (cache_del (cache w) (cstore w) k);
    cbn [world_of fst snd]; [apply I_cstore|]; exact H.
Qed.

Lemma preserves_del_and_count s k count : preserves (I s) (del_and_count k count).
Proof.
  unfold del_and_count. apply preserves_try_catch; [|intro e; apply preserves_ret].
  apply preserves_bind; [apply preserves_adapter_del | intros _; apply preserves_ret].
Qed.

Lemma preserves_del_each s ks : forall count, preserves (I s) (del_each ks count).
Proof.
  induction ks as [|k r IH]; intro count; cbn [del_each]; [apply preserves_ret|].
  apply preserves_bind; [apply preserves_del_and_count | intro c; apply IH].
Qed.

Lemma preserves_del_matching s p all : forall count, preserves (I s) (del_matching p all count).
Proof.
  induction all as [|key r IH]; intro count; cbn [del_matching]; [apply preserves_ret|].
  apply preserves_bind.
  - unfold starts_with. destruct p; first [apply preserves_ret | apply preserves_throw].
  - intro b. apply preserves_bind; [|intro c; apply IH].
    destruct b; [apply preserves_del_and_count | apply preserves_ret].
Qed.

Lemma preserves_del_prefixes s ps all : forall count, preserves (I s) (del_prefixes ps all count).
Proof.
  induction ps as [|p r IH]; intro count; cbn [del_prefixes]; [apply preserves_ret|].
  apply preserves_bind; [apply preserves_del_matching | intro c; apply IH].
Qed.

Lemma preserves_invalidateCache s input : preserves (I s) (invalidateCache input).
Proof.
  unfold invalidateCache.
  apply preserves_try_catch; [|intro e; apply preserves_fail].
  destruct (negb (truthy input)); [apply preserves_ret|].
  apply preserves_bind_result with (Q := fun c => 0 <= c);
    [apply preserves_del_each | intros w c; apply del_each_result |].
  intros c Hc.
  apply preserves_bind_result with (Q := fun c => 0 <= c).
  - destruct (input_prefixes input); [apply preserves_ret|].
    apply preserves_bind; [apply preserves_adapter_keys | intro all; apply preserves_del_prefixes].
  - intros w c'. destruct (input_prefixes input).
    + cbn. intro H. inversion H. lia.
    + unfold bind.
      destruct (adapter_keys w) as [[[all|e] w1] t1]; [|cbn; discriminate].
      destruct (del_prefixes (filter truthy (v :: l)) all c w1) as [[r2 w2] t2] eqn:E.
      cbn [result_of fst]. intro H. subst r2.
      pose proof (@del_prefixes_result (filter truthy (v :: l)) all c w1 c') as H'.
      rewrite E in H'. specialize (H' eq_refl). lia.
  - intros c' Hc'.
    apply preserves_bind; [|intros _; apply preserves_ret].
    intros w H. apply I_invalidations; assumption.
Qed.

Lemma preserves_invalidate_hints s parsed : preserves (I s) (invalidate_hints parsed).
Proof.
  unfold invalidate_hints.
  destruct (truthy (invalidateKeys parsed) || truthy (invalidatePrefixes parsed));
    [|apply preserves_ret].
  apply preserves_bind; [apply preserves_invalidateCache | intros _; apply preserves_ret].
Qed.

Lemma preserves_withCache s fnName args o (runFn : callback produced) :
  preserves (I s) runFn -> preserves (I s) (withCache fnName args o runFn).
Proof.
  intro Hrun.
  assert (Hp : preserves (I s) (run_producer runFn)).
  { unfold run_producer. apply preserves_bind; [apply preserves_emit|].
    intros _. apply preserves_call_back. exact Hrun. }
  unfold withCache. cbv zeta.
  match goal with
  | |- context [if negb (truthy ?e) then _ else _] => destruct (negb (truthy e))
  end.
  { apply preserves_bind; [exact Hp | intro r; apply preserves_ret]. }
  match goal with
  | |- context [if ?c then bind (run_producer _) _ else _] => destruct c
  end.
  { apply preserves_bind; [exact Hp | intro r; apply preserves_ret]. }
  apply preserves_bind; [apply preserves_adapter_get|].
  intros [h|]; [apply preserves_ret|].
  apply preserves_bind; [exact Hp|]. intro r.
  apply preserves_bind; [|intros _; apply preserves_ret].
  match goal with
  | |- context [if ?c then _ else _] => destruct c
  end; [apply preserves_adapter_put | apply preserves_ret].
Qed.

Lemma preserves_cached_read s fnName args o (rq : M (ApiResponse value)) :
  preserves (I s) rq -> preserves (I s) (cached_read fnName args o rq).
Proof.
  intro H. unfold cached_read. destruct (cache_enabled o); [|exact H].
  apply preserves_withCache.
  apply preserves_bind; [exact H | intro r; apply preserves_ret].
Qed.

Lemma preserves_run_query s Model op opName : preserves (I s) (run_query Model op opName s).
Proof.
  unfold run_query. apply preserves_bind; [apply preserves_store|]. intro res.
  apply preserves_bind; [apply I_record | intros _; apply preserves_ret].
Qed.

(** The part of an operation that follows its validation: the model is
    resolved, the start time is taken, the rest is at work. *)
Lemma preserves_resolved {T} model (K : MongooseModel -> Z -> M T) :
  (forall Model s, preserves (I s) (K Model s)) ->
  preserves I0 (Model <- resolveModel model ;; start <- _nowNs ;; K Model start).
Proof.
  intros HK. apply preserves_bind; [apply I0_resolve|].
  intros Model w H. rewrite bind_nowNs.
  apply I_end with (s := date_now (ext w) * 1000000). apply HK. apply I_start. exact H.
Qed.

Ltac preserve_steps :=
  repeat first
    [ apply preserves_ret | apply preserves_fail | apply preserves_store
    | apply preserves_raise
    | apply preserves_toObject | apply preserves_map_toObject
    | apply preserves_invalidate_hints | apply I_record
    | apply preserves_run_query
    | apply preserves_cached_read
    | apply preserves_resolved; intros ? ?
    | apply preserves_bind; [|intros ?]
    | apply preserves_try_catch; [|intros ?]
    | match goal with
      | |- preserves _ (if ?c then _ else _) => destruct c
      end ].

Lemma preserves_operation (c : public_call) :
  crud_model c <> None -> preserves I0 (run_public c).
Proof.
  intro Hc.
  destruct c; try (now elim Hc); clear Hc; cbn [run_public];
    (apply preserves_bind; [|intro r; apply preserves_ret]);
    unfold createOne, createMany, getOne, getMany, getManyWithLimit,
      getManyWithPagination, aggregate, updateOne, updateMany, deleteOne,
      deleteMany, upsertOne, countDocuments, plain_write;
    cbv zeta; preserve_steps.
Qed.

End Principle.

End Invariants.

Section Footprint.

Context {P : Platform}.

Lemma footprint_refl w : footprint w w.
Proof. unfold footprint. repeat split; auto; intros; lia. Qed.

Lemma nonempty_fallback : nonempty (Some fallback_dir) = Some fallback_dir.
Proof.
  unfold fallback_dir, nonempty.
  destruct env_MODELS_DIR as [e|]; [|reflexivity].
  destruct (String.eqb e EmptyString) eqn:E; [reflexivity|]. now rewrite E.
Qed.

Lemma footprint_trans w0 w1 w2 : footprint w0 w1 -> footprint w1 w2 -> footprint w0 w2.
Proof.
  intros (A1 & A2 & A3 & A4 & A5 & A6 & A7 & A8) (B1 & B2 & B3 & B4 & B5 & B6 & B7 & B8).
  unfold footprint. repeat split; try congruence.
  - destruct B3 as [B3|[B3 B3']].
    + rewrite B3. exact A3.
    + destruct A3 as [A3|[A3 A3']].
      * right. split; [now rewrite <- A3 | exact B3'].
      * rewrite A3', nonempty_fallback in B3. discriminate B3.
  - lia.
  - intro opName. specialize (A8 opName). specialize (B8 opName). lia.
Qed.

Lemma samples_record opName opName' durMs m :
  samples opName' m
  <= samples opName'
       (Metrics.mk (Metrics.cache m)
          (set_prop opName
             (record_bucket durMs
                (match assoc opName (Metrics.perOp m) with
                 | Some b => b
                 | None => empty_bucket
                 end))
             (Metrics.perOp m))).
Proof.
  unfold samples. cbn [Metrics.perOp].
  destruct (String.eqb_spec opName' opName) as [->|Hne].
  - rewrite assoc_set_prop_same.
    destruct (assoc opName (Metrics.perOp m)); cbn; lia.
  - rewrite (assoc_set_prop_other _ _ Hne). lia.
Qed.

Lemma footprint_record w opName s : footprint w (world_of (_recordDb opName s w)).
Proof.
  rewrite recordDb_world. destruct (s =? 0); [apply footprint_refl|].
  unfold footprint. cbn [set_METRICS cache logger_set MODELS_DIR METRICS Metrics.cache].
  repeat split; auto; try lia. intro opName'. apply samples_record.
Qed.

(** X27.  What an operation on a model leaves of the module state, whatever
    its arguments, the store and the cache adapter do: the adapter installed,
    the logger and the counters of hits, misses and puts are as they were
    (the operations never count a hit, a miss or a put); a models directory
    that was set is kept, one that was not may have been fixed to the
    fallback of [getModelsDir]; the counter of invalidations and the number
    of samples of every timing bucket have not gone down. *)
Theorem crud_state_footprint (c : public_call) (w : World) :
  crud_model c <> None ->
  footprint w (world_of (run_public c w)).
Proof.
  intro Hc.
  apply (@preserves_operation P (footprint w) (fun _ => footprint w));
    [ | | | | | | | exact Hc | apply footprint_refl].
  - intros w1 H. exact H.
  - intros _ w1 H. exact H.
  - intros model w1 H. apply (footprint_trans H).
    destruct (resolveModel_world model w1) as (H1 & _ & H3 & H4 & H5).
    unfold footprint. rewrite H1, H3, H4. repeat split; auto; intros; lia.
  - intros _ Model op w1 H. apply (footprint_trans H).
    unfold footprint. cbn. repeat split; auto; intros; lia.
  - intros _ st w1 H. apply (footprint_trans H).
    unfold footprint. cbn. repeat split; auto; intros; lia.
  - intros _ count w1 Hcount H. apply (footprint_trans H).
    unfold footprint, samples. cbn. repeat split; auto; intros; lia.
  - intros s opName w1 H. apply (footprint_trans H). apply footprint_record.
Qed.

(** X28.  With a store whose calls never move the clock backwards, every
    operation on a model preserves the figures of the timing buckets consistent
    with one another: no bucket comes to hold a negative duration, a
    minimum above its maximum, or a total outside of what its count, its
    minimum and its maximum allow. *)
Theorem crud_keeps_timings_consistent (c : public_call) (w : World) :
  clock_monotone ->
  crud_model c <> None ->
  metrics_consistent (METRICS w) ->
  metrics_consistent (METRICS (world_of (run_public c w))).
Proof.
  intros Hclock Hc Hm.
  apply (@preserves_operation P
           (fun w => metrics_consistent (METRICS w))
           (fun s w => metrics_consistent (METRICS w)
                       /\ s <= date_now (ext w) * 1000000));
    [ | | | | | | | exact Hc | exact Hm].
  - intros w1 H. split; [exact H | lia].
  - intros s w1 [H _]. exact H.
  - intros model w1 H.
    destruct (resolveModel_world model w1) as (_ & _ & _ & H4 & _). now rewrite H4.
  - intros s Model op w1 [H Hs]. split; [exact H|]. cbn [set_ext ext].
    specialize (Hclock Model op (ext w1)). lia.
  - intros s st w1 H. exact H.
  - intros s count w1 _ H. exact H.
  - intros s opName w1 [H Hs]. rewrite recordDb_world.
    destruct (s =? 0); [split; assumption|].
    cbn [set_METRICS METRICS ext]. split; [|exact Hs].
    unfold metrics_consistent. cbn [Metrics.perOp].
    apply forall_set_prop; [exact H|]. cbn [snd].
    apply record_bucket_consistent; [apply Z.quot_pos; lia|].
    destruct (assoc opName (Metrics.perOp (METRICS w1))) as [b|] eqn:E.
    + exact (@forall_assoc _ _ _ _ _ H E).
    + repeat split.
Qed.

End Footprint.

Lemma crud_state_footprint_witness :
  @footprint demo sample_world (world_of (@run_public demo _ sample_orders sample_world))
  /\ @MODELS_DIR demo (world_of (@run_public demo _ sample_orders sample_world))
     = Some "./models".
Proof.
  split; [|reflexivity].
  apply (@crud_state_footprint demo sample_orders sample_world). discriminate.
Defined.

Lemma crud_keeps_timings_consistent_witness :
  metrics_consistent
    (@METRICS demo (world_of (@run_public demo _ sample_getOne sample_world)))
  /\ samples "getOne:users"
       (@METRICS demo (world_of (@run_public demo _ sample_getOne sample_world))) = 1.
Proof.
  split; [|reflexivity].
  apply (@crud_keeps_timings_consistent demo sample_getOne sample_world).
  - intros Model op x. simpl. lia.
  - discriminate.
  - constructor.
Defined.

(* ------------------------------------------------------------------ *)
(** ** Timings and failures of the operations on a model *)

Section Timings.

Context {P : Platform}.

Lemma store_calls_app t1 t2 : store_calls (List.app t1 t2) = (store_calls t1 + store_calls t2)%nat.
Proof.
  unfold store_calls. rewrite map_app. induction (map store_calls_of t1); simpl; lia.
Qed.

Lemma store_calls_logged w err ctx : store_calls (logged w err ctx) = 0%nat.
Proof. unfold logged. destruct (logger_set w); reflexivity. Qed.

Lemma puts_logged w err ctx : count_events is_put (logged w err ctx) = 0%nat.
Proof. unfold logged. destruct (logger_set w); reflexivity. Qed.

Lemma count_events_app p t1 t2 :
  count_events p (List.app t1 t2) = (count_events p t1 + count_events p t2)%nat.
Proof. unfold count_events. now rewrite filter_app, length_app. Qed.

(** A read, once its model is found in the registry: its validation
    refuses the arguments, or what is left to run is the query, timed under
    the name of the operation and the model name as it was passed, through
    the cache when caching is asked for. *)
Lemma read_query_shape c m w Model :
  is_read c = true ->
  crud_model c = Some (VStr m) ->
  mongoose_models (ext w) (pluralizeName m) = Some Model ->
  (exists err ctx,
      run_public c w = (Ret (Envelope (failure err)), w, logged w err ctx))
  \/ (exists fnName args o rq ctx,
        run_public c w
        = (r <- try_catch (cached_read fnName args o rq) (fun e => fail e ctx) ;;
           ret (envelope_of PValue r)) w
        /\ query_of Model (operation_name c ++ ":" ++ m)
                    (date_now (ext w) * 1000000) (paging_error c) rq).
Proof.
  intros Hr Hm Hreg.
  pose proof (resolveModel_registered m w Hreg) as Hres.
  destruct c; try discriminate Hr; cbn [crud_model] in Hm;
    inversion Hm as [E]; clear Hm; cbn [run_public operation_name paging_error];
    unfold getOne, getMany, getManyWithLimit, getManyWithPagination, aggregate,
      countDocuments;
    cbv zeta; rewrite ?E;
    repeat match goal with
           | |- context [if invalid_model ?x then _ else _] =>
               destruct (invalid_model x);
                 [left; do 2 eexists; apply wrap_fail|]
           | |- context [if not_an_object ?x then _ else _] =>
               destruct (not_an_object x);
                 [left; do 2 eexists; apply wrap_fail|]
           | |- context [if negb (truthy ?x) || negb (isArray ?x) then _ else _] =>
               destruct (negb (truthy x) || negb (isArray x));
                 [left; do 2 eexists; apply wrap_fail|]
           end;
    right; rewrite (@wrap_resolved _ _ _ _ _ _ Hres); cbv beta;
    do 5 eexists; (split; [reflexivity|]);
    first
      [ left; split; [reflexivity | eexists; reflexivity]
      | right;
        match goal with
        | |- context [ret (ok (obj [("data", _); ("total", _);
                                    ("page", ?p); ("limit", ?l)]))] =>
            do 2 eexists;
            exists (fun docs total =>
                      obj [("data", docs); ("total", total); ("page", p); ("limit", l)]);
            reflexivity
        end ].
Qed.

(** The same for a write. *)
Lemma write_timing_shape c m w Model :
  is_write c = true ->
  crud_model c = Some (VStr m) ->
  mongoose_models (ext w) (pluralizeName m) = Some Model ->
  (exists err ctx,
      run_public c w = (Ret (Envelope (failure err)), w, logged w err ctx))
  \/ (exists op parsed ctx,
        run_public c w
        = (r <- try_catch
                  (res <- store Model op ;;
                   invalidate_hints parsed ;;;
                   _recordDb (operation_name c ++ ":" ++ m)
                             (date_now (ext w) * 1000000) ;;;
                   plain <- plain_result c res ;;
                   ret (ok plain))
                  (fun e => fail e ctx) ;;
           ret (envelope_of PValue r)) w).
Proof.
  intros Hw Hm Hreg.
  pose proof (resolveModel_registered m w Hreg) as Hres.
  destruct c; try discriminate Hw; cbn [crud_model] in Hm;
    inversion Hm as [E]; clear Hm; cbn [run_public operation_name plain_result];
    unfold createOne, createMany, updateOne, updateMany, deleteOne, deleteMany,
      upsertOne, plain_write;
    cbv zeta; rewrite ?E; rewrite ?(pick_model_string _ E);
    repeat match goal with
           | |- context [if invalid_model ?x then _ else _] =>
               destruct (invalid_model x);
                 [left; do 2 eexists; apply wrap_fail|]
           | |- context [if not_an_object ?x then _ else _] =>
               destruct (not_an_object x);
                 [left; do 2 eexists; apply wrap_fail|]
           | |- context [if negb (truthy ?x) then fail _ _ else _] =>
               destruct (negb (truthy x));
                 [left; do 2 eexists; apply wrap_fail|]
           end;
    right; rewrite (@wrap_resolved _ _ _ _ _ _ Hres); cbv beta;
    try match goal with
        | |- context [if ?c then store _ _ else store _ _] => destruct c
        end;
    do 3 eexists;
    first [ reflexivity
          | apply wrap_ext; repeat (apply bind_ext; intros); reflexivity ].
Qed.

Lemma timed_once_record opName s w :
  s <> 0 ->
  timed_once opName (METRICS w) (METRICS (world_of (_recordDb opName s w))).
Proof.
  intro Hs. rewrite recordDb_world.
  destruct (Z.eqb_spec s 0) as [Hz|_]; [now elim Hs|].
  unfold timed_once, samples. cbn [set_METRICS METRICS Metrics.perOp]. split.
  - rewrite assoc_set_prop_same.
    destruct (assoc opName (Metrics.perOp (METRICS w))); reflexivity.
  - intros other Hne. now apply assoc_set_prop_other.
Qed.

Lemma recordDb_then_ret {A} opName s (a : A) w :
  (_recordDb opName s ;;; ret a) w
  = (Ret a, world_of (_recordDb opName s w), []).
Proof.
  destruct (recordDb_run opName s w) as (w' & Hrec & _).
  rewrite Hrec. cbn [world_of fst snd].
  eapply bind_eq; [exact Hrec | reflexivity | reflexivity].
Qed.

(** The query when the store answers. *)
Lemma query_returns Model opName s rq w :
  query_of Model opName s None rq ->
  s <> 0 ->
  (forall op x, exists res x', db_call Model op x = (Ret res, x')) ->
  exists v w' t,
    rq w = (Ret (ok v), w', t)
    /\ timed_once opName (METRICS w) (METRICS w')
    /\ store_calls t <> 0%nat.
Proof.
  intros [(_ & op & ->) | (op1 & op2 & page & ->)] Hs Hdb.
  - destruct (Hdb op (ext w)) as (res & x' & Hx).
    exists res, (world_of (_recordDb opName s (set_ext x' w))),
      [EvStore (model_name Model) op].
    split; [|split; [|discriminate]].
    + unfold run_query.
      eapply bind_eq;
        [rewrite store_run, Hx; reflexivity | apply recordDb_then_ret | reflexivity].
    + apply (@timed_once_record opName s (set_ext x' w) Hs).
  - destruct (Hdb op1 (ext w)) as (total & x1 & Hx1).
    destruct (Hdb op2 x1) as (docs & x2 & Hx2).
    exists (page docs total),
      (world_of (_recordDb opName s (set_ext x2 (set_ext x1 w)))),
      [EvStore (model_name Model) op1; EvStore (model_name Model) op2].
    split; [|split; [|discriminate]].
    + eapply bind_eq; [rewrite store_run, Hx1; reflexivity | | reflexivity].
      cbn [fst snd].
      eapply bind_eq; [reflexivity | | reflexivity].
      eapply bind_eq;
        [rewrite store_run; cbn [set_ext ext]; rewrite Hx2; reflexivity
        | apply recordDb_then_ret | reflexivity].
    + apply (@timed_once_record opName s (set_ext x2 (set_ext x1 w)) Hs).
Qed.

(** The query when the store cannot be reached. *)
Lemma query_throws Model opName s arithmetic rq w e :
  query_of Model opName s arithmetic rq ->
  (forall op x, exists x', db_call Model op x = (Throw e, x')) ->
  exists x' op, rq w = (Throw e, set_ext x' w, [EvStore (model_name Model) op]).
Proof.
  intros [(_ & op & ->) | (op1 & op2 & page & ->)] Hdb.
  - destruct (Hdb op (ext w)) as (x' & Hx). exists x', op.
    unfold run_query. apply bind_throw_run. rewrite store_run, Hx. reflexivity.
  - destruct (Hdb op1 (ext w)) as (x' & Hx). exists x', op1.
    apply bind_throw_run. rewrite store_run, Hx. reflexivity.
Qed.

(** A read through the cache wrapper: the cache answers, or refuses to,
    and nothing else is done; or the query runs once, as the producer. *)
Lemma withCache_query_cases fnName args o (rq : M (ApiResponse value)) w r1 w1 t1 :
  rq w = (r1, w1, t1) ->
  let run := withCache fnName args o (r <- rq ;; ret (Enveloped r)) w in
  (exists k, world_of run = w /\ trace_of run = [EvCacheGet k])
  \/ (exists pre,
        (pre = [] \/ exists k, pre = [EvCacheGet k])
        /\ match r1 with
           | Throw e => run = (Throw e, w1, List.app pre [EvProducer; EvCallback t1])
           | Ret r =>
               exists post,
                 trace_of run = List.app pre ([EvProducer; EvCallback t1] ++ post)
                 /\ store_calls post = 0%nat
                 /\ METRICS (world_of run) = METRICS w1
           end).
Proof.
  intros Hrq. cbv zeta.
  assert (Hp : run_producer (r <- rq ;; ret (Enveloped r)) w
               = (match r1 with Ret r => Ret (Enveloped r) | Throw e => Throw e end,
                  w1, [EvProducer; EvCallback t1])).
  { apply run_producer_run. unfold bind. rewrite Hrq.
    destruct r1; cbn; now rewrite ?app_nil_r. }
  assert (Hdirect : forall (pre : list event),
             (pre = [] \/ exists k, pre = [EvCacheGet k]) ->
             forall run,
             run = (match r1 with
                    | Ret r => Ret (normalize (Enveloped r))
                    | Throw e => Throw e
                    end, w1, List.app pre [EvProducer; EvCallback t1]) ->
             exists pre,
               (pre = [] \/ exists k, pre = [EvCacheGet k])
               /\ match r1 with
                  | Throw e => run = (Throw e, w1, List.app pre [EvProducer; EvCallback t1])
                  | Ret r =>
                      exists post,
                        trace_of run = List.app pre ([EvProducer; EvCallback t1] ++ post)
                        /\ store_calls post = 0%nat
                        /\ METRICS (world_of run) = METRICS w1
                  end).
  { intros pre Hpre run ->. exists pre. split; [exact Hpre|].
    destruct r1; [|reflexivity]. exists []. repeat split. }
  assert (Hnocache : (res <- run_producer (r <- rq ;; ret (Enveloped r)) ;;
                      ret (normalize res)) w
                     = (match r1 with
                        | Ret r => Ret (normalize (Enveloped r))
                        | Throw e => Throw e
                        end, w1, List.app [] [EvProducer; EvCallback t1])).
  { destruct r1.
    - eapply bind_eq; [exact Hp | reflexivity | reflexivity].
    - apply bind_throw_run. exact Hp. }
  unfold withCache. cbv zeta.
  match goal with
  | |- context [if negb (truthy ?e) then _ else _] => destruct (negb (truthy e))
  end.
  { right. apply (Hdirect []); [left; reflexivity | exact Hnocache]. }
  match goal with
  | |- context [if ?c then bind (run_producer _) _ else _] => destruct c
  end.
  { right. apply (Hdirect []); [left; reflexivity | exact Hnocache]. }
  match goal with
  | |- context [adapter_get ?key] => set (K := key)
  end.
  clearbody K. rewrite bind_adapter_get.
  destruct (cache_get (cache w) (cstore w) K) as [[h|]|e'];
    [left; exists K; split; reflexivity | | left; exists K; split; reflexivity].
  right. exists [EvCacheGet K]. split; [right; exists K; reflexivity|].
  match goal with
  | |- context [bind (run_producer _) ?G0] => set (G := G0)
  end.
  destruct r1 as [r|e].
  2:{ now rewrite (@bind_throw_run _ _ _ _ G _ _ _ _ Hp). }
  assert (HG : preserves (fun w' => METRICS w' = METRICS w1) (G (Enveloped r))
               /\ confined (fun ev => store_calls_of ev = 0%nat) (G (Enveloped r))).
  { unfold G. split.
    - apply preserves_bind; [|intros _; apply preserves_ret].
      match goal with
      | |- context [if ?c then _ else _] => destruct c
      end; [|apply preserves_ret].
      apply (@preserves_adapter_put P (fun _ w' => METRICS w' = METRICS w1)
               (fun s st w' H => H) 0).
    - apply confined_bind; [|intros _; apply confined_ret].
      match goal with
      | |- context [if ?c then _ else _] => destruct c
      end; [|apply confined_ret].
      now apply confined_adapter_put. }
  destruct HG as [Hkeep Hconf]. specialize (Hkeep w1 eq_refl). specialize (Hconf w1).
  destruct (G (Enveloped r) w1) as [[r2 w2] t2] eqn:EG.
  rewrite (@bind_eq _ _ _ _ G _ _ _ _ _ _ _ _ Hp EG eq_refl).
  cbn [result_of world_of trace_of fst snd] in *.
  exists t2. split; [reflexivity|]. split; [|exact Hkeep].
  clear - Hconf.
  induction Hconf as [|ev l Hev _ IH]; [reflexivity|].
  change (store_calls (ev :: l)) with (store_calls_of ev + store_calls l)%nat.
  now rewrite Hev, IH.
Qed.

End Timings.

Section TimedOnce.

Context {P : Platform}.

(** The envelope of an operation adds nothing to what its body did but
    the call of the logger. *)
Lemma wrap_run {T} (m : M (ApiResponse T)) ctx (f : T -> payload) w :
  exists r l,
    (r <- try_catch m (fun e => fail e ctx) ;; ret (envelope_of f r)) w
    = (Ret (Envelope r), world_of (m w), List.app (trace_of (m w)) l)
    /\ store_calls l = 0%nat
    /\ count_events is_put l = 0%nat
    /\ (forall e, result_of (m w) = Throw e -> r = failure e).
Proof.
  destruct (m w) as [[[r|e] w1] t1] eqn:E.
  - exists (match r with ok d => ok (f d) | failure err => failure err end), [].
    rewrite (@wrap_ret _ _ _ _ ctx f _ _ _ E).
    cbn [world_of trace_of result_of fst snd]. rewrite app_nil_r.
    repeat split. discriminate.
  - exists (failure e), (logged w1 e ctx).
    rewrite (@wrap_throw _ _ _ _ ctx f _ _ _ E). cbn [world_of trace_of result_of fst snd].
    split; [reflexivity|]. split; [apply store_calls_logged|].
    split; [apply puts_logged|]. intros e' H. now inversion H.
Qed.

Lemma timed_once_perOp opName m0 m1 m2 :
  Metrics.perOp m1 = Metrics.perOp m0 ->
  timed_once opName m1 m2 -> timed_once opName m0 m2.
Proof. unfold timed_once, samples. intros ->. auto. Qed.

Lemma is_read_or_write (c : public_call) m :
  crud_model c = Some m -> is_read c = true \/ is_write c = true.
Proof. destruct c; try discriminate; intros _; auto. Qed.

(** X29.  A read whose call of the store throws caches nothing and records
    no timing: the adapter is not asked to store anything, what it holds
    and the metrics are as they were.  When the store was called, it was
    called once and the failure envelope carries its error; otherwise the
    validation refused the arguments or the cache answered, or failed to. *)
Theorem failed_read_caches_nothing c m w Model e :
  is_read c = true ->
  crud_model c = Some (VStr m) ->
  mongoose_models (ext w) (pluralizeName m) = Some Model ->
  (forall op x, exists x', db_call Model op x = (Throw e, x')) ->
  exists r w' t,
    run_public c w = (Ret (Envelope r), w', t)
    /\ count_events is_put t = 0%nat
    /\ cstore w' = cstore w
    /\ METRICS w' = METRICS w
    /\ (store_calls t = 0%nat \/ (store_calls t = 1%nat /\ r = failure e)).
Proof.
  intros Hr Hm Hreg Hdb.
  destruct (read_query_shape c w Hr Hm Hreg)
    as [(err & ctx & Hrun) | (fnName & args & o & rq & ctx & Hrun & Hq)].
  - exists (failure err), w, (logged w err ctx). split; [exact Hrun|].
    rewrite puts_logged, store_calls_logged. repeat split. now left.
  - destruct (query_throws w Hq Hdb) as (x' & op & Hrq).
    destruct (wrap_run (cached_read fnName args o rq) ctx PValue w)
      as (r & l & Hwrap & Hl1 & Hl2 & Hthrow).
    rewrite <- Hrun in Hwrap.
    exists r, (world_of (cached_read fnName args o rq w)),
      (List.app (trace_of (cached_read fnName args o rq w)) l).
    split; [exact Hwrap|].
    rewrite count_events_app, store_calls_app, Hl1, Hl2, !Nat.add_0_r.
    clear Hwrap Hrun.
    unfold cached_read in *. destruct (cache_enabled o).
    + destruct (withCache_query_cases fnName args o rq w Hrq)
        as [(k & Hw & Ht) | (pre & Hpre & Hcase)].
      * rewrite Hw, Ht. repeat split. now left.
      * rewrite Hcase in Hthrow |- *. cbn [world_of trace_of result_of fst snd] in *.
        rewrite count_events_app, store_calls_app.
        destruct Hpre as [->|(k & ->)]; repeat split; right;
          (split; [reflexivity | exact (Hthrow e eq_refl)]).
    + rewrite Hrq in Hthrow |- *. cbn [world_of trace_of result_of fst snd] in *.
      repeat split. right. split; [reflexivity | exact (Hthrow e eq_refl)].
Qed.

(** X30.  With a store that answers and a clock that does not read zero,
    an operation on a registered model whose page arithmetic does not throw
    (it does for [getManyWithPagination] on a page or a limit that is a
    BigInt or holds a symbol, and for no other call) records a timing
    exactly when it called the store: one sample, under the name of the
    operation and the model name as it was passed, the other buckets being
    left alone.  When the store was not called (the validation refused the
    arguments, or the cache answered or failed to) the timings are as they
    were. *)
Theorem store_call_is_timed_once c m w Model :
  crud_model c = Some (VStr m) ->
  mongoose_models (ext w) (pluralizeName m) = Some Model ->
  date_now (ext w) <> 0 ->
  (forall op x, exists res x', db_call Model op x = (Ret res, x')) ->
  paging_error c = None ->
  let run := run_public c w in
  (store_calls (trace_of run) <> 0%nat ->
   timed_once (operation_name c ++ ":" ++ m) (METRICS w) (METRICS (world_of run)))
  /\ (store_calls (trace_of run) = 0%nat ->
      Metrics.perOp (METRICS (world_of run)) = Metrics.perOp (METRICS w)).
Proof.
  intros Hm Hreg Hnow Hdb Hpage. cbv zeta.
  assert (Hs : date_now (ext w) * 1000000 <> 0) by lia.
  destruct (is_read_or_write c Hm) as [Hr|Hw].
  - destruct (read_query_shape c w Hr Hm Hreg)
      as [(err & ctx & Hrun) | (fnName & args & o & rq & ctx & Hrun & Hq)].
    + rewrite Hrun. cbn [world_of trace_of fst snd]. rewrite store_calls_logged.
      split; [intro H; now elim H | reflexivity].
    + rewrite Hpage in Hq.
      destruct (query_returns w Hq Hs Hdb) as (v & w3 & t3 & Hrq & Htimed & Ht3).
      destruct (wrap_run (cached_read fnName args o rq) ctx PValue w)
        as (r & l & Hwrap & Hl1 & _ & _).
      rewrite <- Hrun in Hwrap. rewrite Hwrap.
      cbn [world_of trace_of fst snd]. rewrite store_calls_app, Hl1, Nat.add_0_r.
      clear Hwrap Hrun.
      unfold cached_read. destruct (cache_enabled o).
      * destruct (withCache_query_cases fnName args o rq w Hrq)
          as [(k & Hw' & Ht) | (pre & Hpre & post & Ht & Hpost & Hmet)].
        -- rewrite Hw', Ht. split; [intro H; now elim H | reflexivity].
        -- rewrite Ht, Hmet, !store_calls_app.
           split; [intros _; exact Htimed|].
           change (store_calls [EvProducer; EvCallback t3])
             with (store_calls t3 + 0)%nat. lia.
      * rewrite Hrq. cbn [world_of trace_of fst snd].
        split; [intros _; exact Htimed | intro H; now elim Ht3].
  - destruct (write_timing_shape c w Hw Hm Hreg)
      as [(err & ctx & Hrun) | (op & parsed & ctx & Hrun)].
    + rewrite Hrun. cbn [world_of trace_of fst snd]. rewrite store_calls_logged.
      split; [intro H; now elim H | reflexivity].
    + destruct (Hdb op (ext w)) as (res & x' & Hx).
      set (opName := operation_name c ++ ":" ++ m) in *.
      set (s := date_now (ext w) * 1000000) in *.
      destruct (@write_tail_run _ c parsed opName s res w (set_ext x' w))
        as (w3 & t2 & Htail & Hinv & Hw3 & _).
      pose proof (@preserves_invalidate_hints P
                    (fun _ w' => Metrics.perOp (METRICS w') = Metrics.perOp (METRICS w))
                    (fun s st w' H => H) (fun s count w' _ H => H) 0 parsed
                    (set_ext x' w) eq_refl) as Hkeep.
      match type of Hrun with
      | context [try_catch ?body _] =>
          assert (Hbody : world_of (body w) = w3
                          /\ trace_of (body w) = EvStore (model_name Model) op :: t2)
            by (erewrite bind_eq;
                [split; reflexivity
                | rewrite store_run, Hx; reflexivity | exact Htail | reflexivity]);
          destruct (wrap_run body ctx PValue w) as (r & l & Hwrap & Hl1 & _ & _)
      end.
      destruct Hbody as [Hworld Htrace].
      rewrite Hrun, Hwrap, Hworld, Htrace. cbn [world_of trace_of fst snd].
      rewrite store_calls_app.
      change (store_calls (EvStore (model_name Model) op :: t2))
        with (S (store_calls t2)).
      split; [intros _ | intro H; discriminate H].
      rewrite Hw3.
      apply (@timed_once_perOp opName _ _ _ Hkeep). apply timed_once_record. exact Hs.
Qed.

(** The query of [getManyWithPagination] when its page arithmetic throws:
    the documents are counted, and that is all. *)
Lemma query_arithmetic_throws Model opName s rq w e :
  query_of Model opName s (Some e) rq ->
  (forall op x, exists res x', db_call Model op x = (Ret res, x')) ->
  exists x' op, rq w = (Throw e, set_ext x' w, [EvStore (model_name Model) op]).
Proof.
  intros [(H & _) | (op1 & op2 & page & ->)] Hdb; [discriminate H|].
  destruct (Hdb op1 (ext w)) as (total & x1 & Hx1). exists x1, op1.
  eapply bind_eq; [rewrite store_run, Hx1; reflexivity | | reflexivity].
  reflexivity.
Qed.

(** X31.  [getManyWithPagination] asked for a page or with a limit that is
    a BigInt or holds a symbol, on a registered model and with a store that
    answers: when the store is reached, the documents are counted, the
    product [(page - 1) * limit] throws, and the answer is the failure
    envelope of that error; the page is not queried (the store is called
    once), nothing is cached and no timing is recorded.  Otherwise the
    cache answered, or failed to. *)
Theorem paging_error_fails_after_the_count c m w Model e :
  crud_model c = Some (VStr m) ->
  mongoose_models (ext w) (pluralizeName m) = Some Model ->
  (forall op x, exists res x', db_call Model op x = (Ret res, x')) ->
  paging_error c = Some e ->
  exists r w' t,
    run_public c w = (Ret (Envelope r), w', t)
    /\ count_events is_put t = 0%nat
    /\ cstore w' = cstore w
    /\ METRICS w' = METRICS w
    /\ (store_calls t = 0%nat \/ (store_calls t = 1%nat /\ r = failure e)).
Proof.
  intros Hm Hreg Hdb Hpage.
  assert (Hr : is_read c = true) by (destruct c; try discriminate Hpage; reflexivity).
  destruct (read_query_shape c w Hr Hm Hreg)
    as [(err & ctx & Hrun) | (fnName & args & o & rq & ctx & Hrun & Hq)].
  - exists (failure err), w, (logged w err ctx). split; [exact Hrun|].
    rewrite puts_logged, store_calls_logged. repeat split. now left.
  - rewrite Hpage in Hq.
    destruct (query_arithmetic_throws w Hq Hdb) as (x' & op & Hrq).
    destruct (wrap_run (cached_read fnName args o rq) ctx PValue w)
      as (r & l & Hwrap & Hl1 & Hl2 & Hthrow).
    rewrite <- Hrun in Hwrap.
    exists r, (world_of (cached_read fnName args o rq w)),
      (List.app (trace_of (cached_read fnName args o rq w)) l).
    split; [exact Hwrap|].
    rewrite count_events_app, store_calls_app, Hl1, Hl2, !Nat.add_0_r.
    clear Hwrap Hrun.
    unfold cached_read in *. destruct (cache_enabled o).
    + destruct (withCache_query_cases fnName args o rq w Hrq)
        as [(k & Hw & Ht) | (pre & Hpre & Hcase)].
      * rewrite Hw, Ht. repeat split. now left.
      * rewrite Hcase in Hthrow |- *. cbn [world_of trace_of result_of fst snd] in *.
        rewrite count_events_app, store_calls_app.
        destruct Hpre as [->|(k & ->)]; repeat split; right;
          (split; [reflexivity | exact (Hthrow e eq_refl)]).
    + rewrite Hrq in Hthrow |- *. cbn [world_of trace_of result_of fst snd] in *.
      repeat split. right. split; [reflexivity | exact (Hthrow e eq_refl)].
Qed.

End TimedOnce.

Lemma failed_read_caches_nothing_witness :
  exists r w' t,
    @run_public demo_store_down _ (sample_read demo_store_down) store_down_world
    = (Ret (Envelope r), w', t)
    /\ count_events is_put t = 0%nat
    /\ @cstore demo_store_down w' = keyed_store
    /\ @METRICS demo_store_down w' = Metrics.zero
    /\ (store_calls t = 0%nat
        \/ (store_calls t = 1%nat /\ r = failure (JsError "connection lost"))).
Proof.
  apply (@failed_read_caches_nothing demo_store_down (sample_read demo_store_down)
           "users" store_down_world "users" (JsError "connection lost")).
  - reflexivity.
  - reflexivity.
  - reflexivity.
  - intros op x. exists (x + 5). reflexivity.
Defined.

Lemma store_call_is_timed_once_witness :
  timed_once "getOne:users" Metrics.zero
    (@METRICS demo (world_of (@run_public demo _ sample_getOne sample_world)))
  /\ Metrics.perOp
       (@METRICS demo (world_of (@run_public demo _ sample_getOne answered_world)))
     = [].
Proof.
  split.
  - destruct (@store_call_is_timed_once demo sample_getOne "users" sample_world "users")
      as [Hcalled _].
    + reflexivity.
    + reflexivity.
    + discriminate.
    + intros op x. exists (obj [("acknowledged", VBool true)]), (x + 5). reflexivity.
    + reflexivity.
    + apply Hcalled. discriminate.
  - destruct (@store_call_is_timed_once demo sample_getOne "users" answered_world "users")
      as [_ Hnot].
    + reflexivity.
    + reflexivity.
    + discriminate.
    + intros op x. exists (obj [("acknowledged", VBool true)]), (x + 5). reflexivity.
    + reflexivity.
    + apply Hnot. reflexivity.
Defined.

Lemma paging_error_fails_after_the_count_witness :
  exists r w' t,
    @run_public demo _ sample_bigint_page sample_world = (Ret (Envelope r), w', t)
    /\ count_events is_put t = 0%nat
    /\ @cstore demo w' = []
    /\ @METRICS demo w' = Metrics.zero
    /\ (store_calls t = 0%nat
        \/ (store_calls t = 1%nat
            /\ r = failure
                     (JsError "Cannot mix BigInt and other types, use explicit conversions"))).
Proof.
  apply (@paging_error_fails_after_the_count demo sample_bigint_page "users"
           sample_world "users"
           (JsError "Cannot mix BigInt and other types, use explicit conversions")).
  - reflexivity.
  - reflexivity.
  - intros op x. exists (obj [("acknowledged", VBool true)]), (x + 5). reflexivity.
  - reflexivity.
Defined.

(** The same on the sample: with a BigInt for page the store is called,
    once, and the timings, empty before, are empty after. *)
Lemma bigint_page_is_counted_and_not_timed :
  let run := @run_public demo _ sample_bigint_page sample_world in
  result_of run
  = Ret (Envelope
           (failure
              (JsError "Cannot mix BigInt and other types, use explicit conversions")))
  /\ store_calls (trace_of run) = 1%nat
  /\ Metrics.perOp (@METRICS demo (world_of run)) = []
  /\ ~ timed_once "getManyWithPagination:users" (@METRICS demo sample_world)
        (@METRICS demo (world_of run)).
Proof.
  cbv zeta. repeat split; try reflexivity.
  intros [H _]. vm_compute in H. discriminate H.
Qed.
